(** * EDOS analytics dashboard: the pricing engine and the test explorer

    A shallow embedding of the data-transformation logic of
    [PricingIntelligence] (filtering, numeric summary, department statistics,
    price histogram, comparison set, pagination), of the fetch/debounce
    logic of [TestExplorer], and of the search, the city chart and the link
    to the explorer of [Centers], with the JavaScript built-ins they rest on.

    Conventions of the embedding:
    - a JavaScript string is a [string] of 8-bit code units; case mapping and
      white space are those of the ASCII range;
    - a JavaScript number is [JS.number]: NaN, the two infinities, or a finite
      value carried as an exact rational (no rounding, no overflow, no
      negative zero);
    - React state is an explicit record; an event handler is a function on
      it, and the effects of a commit are run until no dependency changes. *)

From Stdlib Require Import ZArith QArith Qround Qreduction.
From Stdlib Require Import List String Ascii Bool Lia.
From Stdlib Require Import Sorting.Sorted Sorting.Permutation.
From Stdlib Require OrderedTypeEx.
From Stdlib Require Import Lqa.
Import ListNotations.

Local Open Scope Z_scope.

(* ================================================================== *)
(** * JavaScript built-ins *)
(* ================================================================== *)

Module JS.

(** ** Strings *)

Definition is_upper (c : ascii) : bool :=
  let n := nat_of_ascii c in (65 <=? n)%nat && (n <=? 90)%nat.

Definition lower_char (c : ascii) : ascii :=
  if is_upper c then ascii_of_nat (nat_of_ascii c + 32) else c.

(** [String.prototype.toLowerCase] *)
Fixpoint toLowerCase (s : string) : string :=
  match s with
  | EmptyString => EmptyString
  | String c s' => String (lower_char c) (toLowerCase s')
  end.

(** [String.prototype.startsWith]: [startsWith s p] when [p] is a prefix of [s]. *)
Fixpoint startsWith (s p : string) {struct p} : bool :=
  match p, s with
  | EmptyString, _ => true
  | String _ _, EmptyString => false
  | String a p', String b s' => Ascii.eqb a b && startsWith s' p'
  end.

(** [String.prototype.includes]: [sub] occurs in [s] at some position. *)
Fixpoint includes (s sub : string) : bool :=
  match s with
  | EmptyString => startsWith EmptyString sub
  | String _ s' => startsWith s sub || includes s' sub
  end.

(** White space and line terminators of the ASCII range: TAB, LF, VT, FF, CR, SP. *)
Definition is_ws (c : ascii) : bool :=
  let n := nat_of_ascii c in
  ((9 <=? n)%nat && (n <=? 13)%nat) || (n =? 32)%nat.

Fixpoint trimStart (s : string) : string :=
  match s with
  | EmptyString => EmptyString
  | String c s' => if is_ws c then trimStart s' else s
  end.

Fixpoint trimEnd (s : string) : string :=
  match s with
  | EmptyString => EmptyString
  | String c s' =>
      match trimEnd s' with
      | EmptyString => if is_ws c then EmptyString else String c EmptyString
      | t => String c t
      end
  end.

(** [String.prototype.trim] *)
Definition trim (s : string) : string := trimEnd (trimStart s).

(** Truthiness of a string: the empty string is the only falsy one. *)
Definition str_truthy (s : string) : bool :=
  match s with EmptyString => false | _ => true end.

(** [a || b] on strings *)
Definition str_or (a b : string) : string := if str_truthy a then a else b.

Fixpoint all_chars (p : ascii -> bool) (s : string) : bool :=
  match s with
  | EmptyString => true
  | String c s' => p c && all_chars p s'
  end.

(** ** Arrays *)

(** [Array.prototype.includes] on an array of strings *)
Definition arr_includes (l : list string) (x : string) : bool :=
  existsb (String.eqb x) l.

(** The relative index of [Array.prototype.slice]: a negative argument counts
    from the end, and the result is clamped into [0, len]. *)
Definition rel_index (len i : Z) : Z :=
  if i <? 0 then Z.max (len + i) 0 else Z.min i len.

(** [Array.prototype.slice(start, end)] *)
Definition slice {A : Type} (l : list A) (start stop : Z) : list A :=
  let len := Z.of_nat (List.length l) in
  let k := rel_index len start in
  let final := rel_index len stop in
  firstn (Z.to_nat (final - k)) (skipn (Z.to_nat k) l).

(** ** Set<string>: the members in insertion order, each once *)

Definition StrSet := list string.

Definition set_new : StrSet := [].
Definition set_has (s : StrSet) (x : string) : bool := existsb (String.eqb x) s.
Definition set_add (s : StrSet) (x : string) : StrSet :=
  if set_has s x then s else s ++ [x].
Definition set_delete (s : StrSet) (x : string) : StrSet :=
  filter (fun y => negb (String.eqb x y)) s.
Definition set_size (s : StrSet) : nat := List.length s.

(** ** Numbers *)

(** A JavaScript number: NaN, an infinity, or a finite value (an exact
    rational here; arithmetic results are kept in lowest terms). *)
Inductive number : Type :=
  | NaN
  | PosInf
  | NegInf
  | Fin (q : Q).

Definition of_Z (z : Z) : number := Fin (inject_Z z).
Definition of_nat (n : nat) : number := of_Z (Z.of_nat n).

Definition isNaN (x : number) : bool :=
  match x with NaN => true | _ => false end.

(** Truthiness of a number: zero and NaN are the falsy ones. *)
Definition truthy (x : number) : bool :=
  match x with
  | NaN => false
  | Fin q => negb (Qnum q =? 0)
  | _ => true
  end.

(** [x || y] on numbers *)
Definition or_else (x y : number) : number := if truthy x then x else y.

(** [x > y]; any comparison with NaN is false. *)
Definition gt (x y : number) : bool :=
  match x, y with
  | NaN, _ => false
  | _, NaN => false
  | PosInf, PosInf => false
  | PosInf, _ => true
  | NegInf, _ => false
  | Fin _, PosInf => false
  | Fin _, NegInf => true
  | Fin a, Fin b => negb (Qle_bool a b)
  end.

Definition sign (x : number) : Z :=
  match x with
  | NaN => 0
  | PosInf => 1
  | NegInf => -1
  | Fin q => Z.sgn (Qnum q)
  end.

(** The infinity of a sign; a zero sign (0 times infinity, 0 / 0) gives NaN. *)
Definition inf_of_sign (s : Z) : number :=
  if s =? 0 then NaN else if 0 <? s then PosInf else NegInf.

Definition neg (x : number) : number :=
  match x with
  | NaN => NaN
  | PosInf => NegInf
  | NegInf => PosInf
  | Fin q => Fin (Qred (- q))
  end.

Definition add (x y : number) : number :=
  match x, y with
  | NaN, _ => NaN
  | _, NaN => NaN
  | PosInf, NegInf => NaN
  | NegInf, PosInf => NaN
  | PosInf, _ => PosInf
  | _, PosInf => PosInf
  | NegInf, _ => NegInf
  | _, NegInf => NegInf
  | Fin a, Fin b => Fin (Qred (a + b))
  end.

Definition sub (x y : number) : number := add x (neg y).

Definition mul (x y : number) : number :=
  match x, y with
  | NaN, _ => NaN
  | _, NaN => NaN
  | Fin a, Fin b => Fin (Qred (a * b))
  | _, _ => inf_of_sign (sign x * sign y)
  end.

Definition div (x y : number) : number :=
  match x, y with
  | NaN, _ => NaN
  | _, NaN => NaN
  | Fin a, Fin b =>
      if Qnum b =? 0 then inf_of_sign (sign x) else Fin (Qred (a / b))
  | Fin _, _ => Fin 0
  | _, Fin b => inf_of_sign (sign x * (if Qnum b =? 0 then 1 else sign y))
  | _, _ => NaN
  end.

Definition Math_floor (x : number) : number :=
  match x with Fin q => of_Z (Qfloor q) | _ => x end.

(** [Math.round]: the nearest integer, a half rounding up. *)
Definition Math_round (x : number) : number :=
  match x with Fin q => of_Z (Qfloor (q + (1 # 2))) | _ => x end.

Definition min2 (a b : number) : number :=
  if isNaN a || isNaN b then NaN else if gt a b then b else a.

Definition max2 (a b : number) : number :=
  if isNaN a || isNaN b then NaN else if gt b a then b else a.

(** [Math.min(...l)]: +Infinity when [l] is empty. *)
Definition Math_min (l : list number) : number := fold_left min2 l PosInf.

(** [Math.max(...l)]: -Infinity when [l] is empty. *)
Definition Math_max (l : list number) : number := fold_left max2 l NegInf.

(** ** Decimal digits *)

Definition digit_val (c : ascii) : option Z :=
  let n := Z.of_nat (nat_of_ascii c) in
  if (48 <=? n) && (n <=? 57) then Some (n - 48) else None.

Definition digit_chr (d : Z) : ascii := ascii_of_nat (Z.to_nat (48 + d)).

Definition is_digit (d : Z) : Prop := 0 <= d <= 9.

(** The longest prefix of decimal digits, and what follows it. *)
Fixpoint span_digits (s : string) : list Z * string :=
  match s with
  | EmptyString => ([], s)
  | String c s' =>
      match digit_val c with
      | Some d => let (ds, r) := span_digits s' in (d :: ds, r)
      | None => ([], s)
      end
  end.

Definition digits_value (ds : list Z) : Z :=
  fold_left (fun acc d => 10 * acc + d) ds 0.

Fixpoint digits_aux (fuel : nat) (z : Z) (acc : list Z) : list Z :=
  match fuel with
  | O => acc
  | S f => if z <? 10 then z :: acc else digits_aux f (z / 10) (z mod 10 :: acc)
  end.

(** The decimal digits of a non-negative integer, most significant first. *)
Definition digits_of (z : Z) : list Z :=
  digits_aux (S (Z.to_nat (Z.log2 z))) z [].

Definition string_of_digits (ds : list Z) : string :=
  fold_right (fun d s => String (digit_chr d) s) EmptyString ds.

Fixpoint strip_zeros_end (ds : list Z) : list Z :=
  match ds with
  | [] => []
  | d :: r =>
      match strip_zeros_end r with
      | [] => if d =? 0 then [] else [d]
      | r' => d :: r'
      end
  end.

(** ** Number to string *)

(** Exponential form of an integer from 10^21 on: [d.ddde+n], with the
    significant digits of the exact value (a double has at most 17). *)
Definition exp_form (z : Z) : string :=
  let ds := digits_of z in
  let e := Z.of_nat (List.length ds) - 1 in
  match strip_zeros_end ds with
  | [] => "0"%string
  | d :: r =>
      (String (digit_chr d)
         (match r with
          | [] => EmptyString
          | _ => String "."%char (string_of_digits r)
          end)
       ++ "e+" ++ string_of_digits (digits_of e))%string
  end.

Definition int_string (z : Z) : string :=
  if z <? 10 ^ 21 then string_of_digits (digits_of z) else exp_form z.

Fixpoint frac_digits (fuel : nat) (r d : Z) : list Z :=
  match fuel with
  | O => []
  | S f =>
      if r =? 0 then [] else (10 * r / d) :: frac_digits f (10 * r mod d) d
  end.

(** A non-negative finite value.  An integer below 10^21 prints its decimal
    digits, a larger one its exponential form.  A non-integral value prints
    its integer part and at most 17 digits of its fraction; the engine only
    ever prints integral values. *)
Definition abs_string (q : Q) : string :=
  let n := Qnum q in
  let d := Zpos (Qden q) in
  if n mod d =? 0 then int_string (n / d)
  else (string_of_digits (digits_of (n / d)) ++ "."
        ++ string_of_digits (frac_digits 17 (n mod d) d))%string.

(** [Number::toString], as a template literal applies it. *)
Definition ToString (x : number) : string :=
  match x with
  | NaN => "NaN"%string
  | PosInf => "Infinity"%string
  | NegInf => "-Infinity"%string
  | Fin q =>
      if Qnum q <? 0 then ("-" ++ abs_string (- q))%string else abs_string q
  end.

(** ** String to number *)

Definition hex_val (c : ascii) : option Z :=
  let n := Z.of_nat (nat_of_ascii c) in
  if (48 <=? n) && (n <=? 57) then Some (n - 48)
  else if (97 <=? n) && (n <=? 102) then Some (n - 87)
  else if (65 <=? n) && (n <=? 70) then Some (n - 55)
  else None.

Fixpoint span_hex (s : string) : list Z :=
  match s with
  | EmptyString => []
  | String c s' =>
      match hex_val c with
      | Some d => d :: span_hex s'
      | None => []
      end
  end.

(** A leading sign, and what follows it. *)
Definition split_sign (s : string) : Z * string :=
  match s with
  | String c r =>
      if Ascii.eqb c "-" then (-1, r)
      else if Ascii.eqb c "+" then (1, r)
      else (1, s)
  | EmptyString => (1, s)
  end.

(** What follows a [0x] or [0X] prefix, when there is one. *)
Definition hex_prefix (s : string) : option string :=
  match s with
  | String z (String x h) =>
      if (Ascii.eqb z "0" && (Ascii.eqb x "x" || Ascii.eqb x "X"))%char
      then Some h else None
  | _ => None
  end.

(** [parseInt(s)] with no radix argument: the longest prefix of digits,
    decimal unless [0x] precedes them. *)
Definition parseInt (s : string) : number :=
  let (sg, u) := split_sign (trimStart s) in
  match hex_prefix u with
  | Some h =>
      match span_hex h with
      | [] => NaN
      | ds => of_Z (sg * fold_left (fun acc d => 16 * acc + d) ds 0)
      end
  | None =>
      match fst (span_digits u) with
      | [] => NaN
      | ds => of_Z (sg * digits_value ds)
      end
  end.

Definition pow10 (e : Z) : Q :=
  if 0 <=? e then inject_Z (10 ^ e) else 1 / inject_Z (10 ^ (- e)).

(** The value of an exponent part [e<digits>], [e+<digits>] or [e-<digits>]
    at the head of [s]; 0 when [s] does not start with a complete one. *)
Definition exponent_part (s : string) : Z :=
  match s with
  | String c r =>
      if (Ascii.eqb c "e" || Ascii.eqb c "E")%char then
        let (sg, u) := split_sign r in
        digits_value (fst (span_digits u)) * sg
      else 0
  | EmptyString => 0
  end.

(** The longest prefix of [s] that is an unsigned decimal literal:
    [Infinity], [ddd], [ddd.], [ddd.ddd] or [.ddd], each but the first with an
    optional exponent part. *)
Definition unsigned_literal (s : string) : option number :=
  if startsWith s "Infinity" then Some PosInf
  else
    let (ip, r1) := span_digits s in
    match r1 with
    | String "."%char r2 =>
        let (fp, r3) := span_digits r2 in
        match ip, fp with
        | [], [] => None
        | _, _ =>
            Some (Fin (Qred (inject_Z (digits_value (ip ++ fp))
                             * pow10 (exponent_part r3
                                      - Z.of_nat (List.length fp)))))
        end
    | _ =>
        match ip with
        | [] => None
        | _ => Some (Fin (Qred (inject_Z (digits_value ip)
                                * pow10 (exponent_part r1))))
        end
    end.

(** [parseFloat(s)] *)
Definition parseFloat (s : string) : number :=
  let (sg, u) := split_sign (trimStart s) in
  match unsigned_literal u with
  | None => NaN
  | Some v => if sg <? 0 then neg v else v
  end.

(** ** Array.prototype.sort *)

Section Sort.
Context {A : Type} (cmp : A -> A -> number).

(** [x] stood before the elements of [l]; it moves behind [y] only when
    [cmp x y > 0].  A NaN from the comparator counts as 0. *)
Fixpoint insert (x : A) (l : list A) : list A :=
  match l with
  | [] => [x]
  | y :: l' => if gt (cmp x y) (of_Z 0) then y :: insert x l' else x :: l
  end.

(** The sort is stable, as the language requires since ES2019; with a
    consistent comparator its result is the one of a stable insertion sort. *)
Definition sort (l : list A) : list A := fold_right insert [] l.
End Sort.

(** On the elements of [l], the comparator orders by ascending [key]. *)
Definition orders_by {A : Type} (cmp : A -> A -> number) (key : A -> Z)
    (l : list A) : Prop :=
  forall x y, In x l -> In y l -> gt (cmp x y) (of_Z 0) = (key y <? key x).

Definition key_le {A : Type} (key : A -> Z) (a b : A) : Prop := key a <= key b.

(** ** Plain objects used as maps *)

(** The own properties of an object literal [{}] that is only ever written
    through [o[k] = v], in creation order. *)
Definition object (V : Type) : Type := list (string * V).

Definition own_get {V : Type} (o : object V) (k : string) : option V :=
  match find (fun kv => String.eqb k (fst kv)) o with
  | Some kv => Some (snd kv)
  | None => None
  end.

(** [o[k] = v]: an existing property keeps its place. *)
Fixpoint own_set {V : Type} (o : object V) (k : string) (v : V) : object V :=
  match o with
  | [] => [(k, v)]
  | (k', v') :: o' =>
      if String.eqb k k' then (k', v) :: o' else (k', v') :: own_set o' k v
  end.

(** The properties every object inherits from [Object.prototype]; reading one
    through [o[k]] gives a function (for [__proto__], the prototype), which is
    truthy. *)
Definition inherited : list string :=
  ["constructor"; "__defineGetter__"; "__defineSetter__"; "hasOwnProperty";
   "__lookupGetter__"; "__lookupSetter__"; "isPrototypeOf";
   "propertyIsEnumerable"; "toString"; "valueOf"; "__proto__";
   "toLocaleString"]%string.

Definition is_inherited (k : string) : bool := arr_includes inherited k.

(** An array index: the canonical decimal string of an integer below 2^32 - 1. *)
Definition array_index (k : string) : option Z :=
  let (ds, r) := span_digits k in
  match r, ds with
  | EmptyString, [d] => Some d
  | EmptyString, d :: _ :: _ =>
      if d =? 0 then None
      else if digits_value ds <? 2 ^ 32 - 1 then Some (digits_value ds)
      else None
  | _, _ => None
  end.

Fixpoint insert_index {V : Type} (i : Z) (kv : string * V)
    (l : list (Z * (string * V))) : list (Z * (string * V)) :=
  match l with
  | [] => [(i, kv)]
  | (j, kv') :: l' =>
      if i <? j then (i, kv) :: l else (j, kv') :: insert_index i kv l'
  end.

Definition index_entries {V : Type} (o : object V) : list (Z * (string * V)) :=
  fold_right
    (fun kv acc =>
       match array_index (fst kv) with
       | Some i => insert_index i kv acc
       | None => acc
       end)
    [] o.

Definition is_index (k : string) : bool :=
  match array_index k with Some _ => true | None => false end.

(** [Object.entries]: the array-index keys in ascending numeric order, then
    the other keys in creation order. *)
Definition entries {V : Type} (o : object V) : list (string * V) :=
  map snd (index_entries o) ++ filter (fun kv => negb (is_index (fst kv))) o.

End JS.

(* ================================================================== *)
(** * PricingIntelligence: the derived views *)
(* ================================================================== *)

Module Pricing.
Import JS.

(** [PricingEntry] of [types.ts] *)
Record PricingEntry : Type := {
  test_code : string;
  test_name : string;
  department : string;
  city : string;
  mrp : string;
  tat : string
}.

Definition ITEMS_PER_PAGE : Z := 15.

(** ** Filtering *)

Definition matchesSearch (query : string) (item : PricingEntry) : bool :=
  includes (toLowerCase (test_name item)) (toLowerCase query)
  || includes (toLowerCase (test_code item)) (toLowerCase query).

Definition matchesDept (selectedDepts : list string) (item : PricingEntry) : bool :=
  (List.length selectedDepts =? 0)%nat || arr_includes selectedDepts (department item).

Definition matchesCity (selectedCities : list string) (item : PricingEntry) : bool :=
  (List.length selectedCities =? 0)%nat || arr_includes selectedCities (city item).

Definition filteredData (data : list PricingEntry) (query : string)
    (selectedDepts selectedCities : list string) : list PricingEntry :=
  filter
    (fun item =>
       matchesSearch query item && matchesDept selectedDepts item
       && matchesCity selectedCities item)
    data.

(** ** Comparison *)

Definition comparisonResults (data : list PricingEntry)
    (comparisonSearch : string) (selectedTests : StrSet) : list PricingEntry :=
  if negb (str_truthy (trim comparisonSearch)) then []
  else
    slice
      (filter
         (fun d =>
            (includes (toLowerCase (test_name d)) (toLowerCase comparisonSearch)
             || includes (toLowerCase (test_code d)) (toLowerCase comparisonSearch))
            && negb (set_has selectedTests (test_code d)))
         data)
      0 8.

Definition toggleFilter (prev : list string) (item : string) : list string :=
  if arr_includes prev item
  then filter (fun i => negb (String.eqb i item)) prev
  else prev ++ [item].

Definition toggleSelection (testCode : string) (prev : StrSet) : StrSet :=
  let next := prev in
  if set_has next testCode then set_delete next testCode
  else set_add next testCode.

(** ** Analytics *)

Record DeptAcc : Type := { total : number; count : nat }.
Record DeptStat : Type := { stat_name : string; stat_avg : number; stat_count : nat }.
Record Bucket : Type := { bucket_name : string; bucket_count : nat }.

Record AnalyticsMetrics : Type := {
  avgPrice : number;
  minPrice : number;
  maxPrice : number;
  deptStats : list DeptStat;
  distribution : list Bucket
}.

(** [parseFloat(d.mrp) || 0] *)
Definition price_of (d : PricingEntry) : number :=
  or_else (parseFloat (mrp d)) (of_Z 0).

Definition prices (filteredData : list PricingEntry) : list number :=
  filter (fun p => negb (isNaN p) && gt p (of_Z 0)) (map price_of filteredData).

Definition calc_avgPrice (prices : list number) : number :=
  or_else
    (Math_round (div (fold_left add prices (of_Z 0)) (of_nat (List.length prices))))
    (of_Z 0).

Definition calc_minPrice (prices : list number) : number :=
  or_else (Math_min prices) (of_Z 0).

Definition calc_maxPrice (prices : list number) : number :=
  or_else (Math_max prices) (of_Z 0).

(** One turn of the [forEach] that fills [deptMap].  When [dept] names an
    inherited property, [deptMap[dept]] is truthy without being an own
    property: nothing is created, and the two updates land on the inherited
    value, outside [deptMap]. *)
Definition dept_step (deptMap : object DeptAcc) (d : PricingEntry) : object DeptAcc :=
  let dept := str_or (department d) "Unknown" in
  let price := price_of d in
  match own_get deptMap dept with
  | Some acc =>
      own_set deptMap dept {| total := add (total acc) price; count := S (count acc) |}
  | None =>
      if is_inherited dept then deptMap
      else own_set deptMap dept {| total := add (of_Z 0) price; count := 1 |}
  end.

Definition deptMap_of (filteredData : list PricingEntry) : object DeptAcc :=
  fold_left dept_step filteredData [].

Definition stat_of_entry (e : string * DeptAcc) : DeptStat :=
  {| stat_name := fst e;
     stat_avg := Math_round (div (total (snd e)) (of_nat (count (snd e))));
     stat_count := count (snd e) |}.

Definition by_count_desc (a b : DeptStat) : number :=
  sub (of_nat (stat_count b)) (of_nat (stat_count a)).

Definition calc_deptStats (filteredData : list PricingEntry) : list DeptStat :=
  slice (sort by_count_desc (map stat_of_entry (entries (deptMap_of filteredData)))) 0 15.

Definition bucketSize : number := of_Z 500.

Definition bucket_of (p : number) : number :=
  mul (Math_floor (div p bucketSize)) bucketSize.

(** One turn of the [forEach] that fills [buckets]; a key is the decimal
    string of a number, never the name of an inherited property. *)
Definition bucket_step (buckets : object nat) (p : number) : object nat :=
  let key := ToString (bucket_of p) in
  own_set buckets key
    ((match own_get buckets key with Some c => c | None => 0 end) + 1)%nat.

Definition buckets_of (prices : list number) : object nat :=
  fold_left bucket_step prices [].

Definition by_range (a b : number * nat) : number := sub (fst a) (fst b).

(** The histogram before its labels are printed: [{range, count}], sorted. *)
Definition distribution_ranges (prices : list number) : list (number * nat) :=
  sort by_range
    (map (fun e : string * nat => (parseInt (fst e), snd e)) (entries (buckets_of prices))).

Definition bucket_label (d : number * nat) : Bucket :=
  {| bucket_name :=
       ("₹" ++ ToString (fst d) ++ "-" ++ ToString (add (fst d) bucketSize))%string;
     bucket_count := snd d |}.

Definition calc_distribution (prices : list number) : list Bucket :=
  map bucket_label (distribution_ranges prices).

(** The [analytics] memo: [null] on an empty filtered view. *)
Definition analytics (filteredData : list PricingEntry) : option AnalyticsMetrics :=
  match filteredData with
  | [] => None
  | _ =>
      let prices := prices filteredData in
      Some {| avgPrice := calc_avgPrice prices;
              minPrice := calc_minPrice prices;
              maxPrice := calc_maxPrice prices;
              deptStats := calc_deptStats filteredData;
              distribution := calc_distribution prices |}
  end.

(** ** Pagination *)

(** [Math.ceil(n / ITEMS_PER_PAGE)] *)
Definition totalPages (filteredData : list PricingEntry) : Z :=
  (Z.of_nat (List.length filteredData) + ITEMS_PER_PAGE - 1) / ITEMS_PER_PAGE.

Definition paginatedResults (filteredData : list PricingEntry) (page : Z)
    : list PricingEntry :=
  slice filteredData ((page - 1) * ITEMS_PER_PAGE) (page * ITEMS_PER_PAGE).

End Pricing.

(* ================================================================== *)
(** * Specification-level readings *)
(* ================================================================== *)

Module Spec.
Import JS Pricing.

(** Two strings are equal up to letter case. *)
Definition ci_eq (a b : string) : Prop := toLowerCase a = toLowerCase b.

(** The query occurs in [s] when letter case is ignored: some substring of
    [s] equals the query up to case. *)
Definition occurs_ci (q s : string) : Prop :=
  exists pre w suf, s = (pre ++ w ++ suf)%string /\ ci_eq w q.

(** The text match over the searchable fields, name and code. *)
Definition text_matches (q : string) (r : PricingEntry) : Prop :=
  occurs_ci q (test_name r) \/ occurs_ci q (test_code r).

(** A dimension constrains a record only when its selected set is non-empty. *)
Definition dimension_ok (selected : list string) (v : string) : Prop :=
  selected <> [] -> In v selected.

(** The composed predicate of a filter state. *)
Definition passes (query : string) (depts cities : list string)
    (r : PricingEntry) : Prop :=
  text_matches query r
  /\ dimension_ok depts (department r)
  /\ dimension_ok cities (city r).

(** A typeahead candidate: the search text occurs in the name or the code,
    and the code is not selected yet. *)
Definition candidate (search : string) (selected : StrSet) (d : PricingEntry) : Prop :=
  text_matches search d /\ ~ In (test_code d) selected.

Definition is_candidate (search : string) (selected : StrSet) (d : PricingEntry) : bool :=
  matchesSearch search d && negb (set_has selected (test_code d)).

(** Every character of the string is white space (the empty string included). *)
Definition blank (s : string) : bool := all_chars is_ws s.

(** The page [page] of a view cut into pages of [size] records:
    [view[(page-1)*size : page*size]]. *)
Definition page_window {A : Type} (view : list A) (page size : Z) : list A :=
  firstn (Z.to_nat size) (skipn (Z.to_nat ((page - 1) * size)) view).

(** ** Department statistics *)

(** The distinct keys of a sequence, in the order of their first occurrence. *)
Fixpoint first_seen (keys : list string) : list string :=
  match keys with
  | [] => []
  | k :: rest => k :: remove string_dec k (first_seen rest)
  end.

(** The grouping key of a record: its department, [Unknown] when it has none. *)
Definition group_key (d : PricingEntry) : string :=
  if String.eqb (department d) "" then "Unknown"%string else department d.

Definition group_of (k : string) (fd : list PricingEntry) : list PricingEntry :=
  filter (fun d => String.eqb (group_key d) k) fd.

Definition sum (l : list number) : number := fold_left add l (of_Z 0).

(** Size of the group [k] and the rounded mean of its prices, a record whose
    price does not parse counting as 0. *)
Definition group_stat (fd : list PricingEntry) (k : string) : DeptStat :=
  {| stat_name := k;
     stat_avg :=
       Math_round (div (sum (map price_of (group_of k fd)))
                       (of_nat (List.length (group_of k fd))));
     stat_count := List.length (group_of k fd) |}.

(** One entry per group, in first-seen order of the keys. *)
Definition groups (fd : list PricingEntry) : list DeptStat :=
  map (group_stat fd) (first_seen (map group_key fd)).

(** A key that is neither an array index nor the name of an inherited
    property. *)
Definition plain_key (k : string) : Prop :=
  is_index k = false /\ is_inherited k = false.

(** [stats] are the top 15 of the groups ranked by descending count, groups
    of one count in first-seen order. *)
Definition ranks_groups (fd : list PricingEntry) (stats : list DeptStat) : Prop :=
  exists ranked,
    stats = firstn 15 ranked
    /\ Permutation ranked (groups fd)
    /\ StronglySorted (fun a b => (stat_count b <= stat_count a)%nat) ranked
    /\ forall c,
         filter (fun g => (stat_count g =? c)%nat) ranked
         = filter (fun g => (stat_count g =? c)%nat) (groups fd).

(** What one record does to the accumulator of its group. *)
Definition dept_upd (ov : option DeptAcc) (d : PricingEntry) : DeptAcc :=
  match ov with
  | Some acc => {| total := add (total acc) (price_of d); count := S (count acc) |}
  | None => {| total := add (of_Z 0) (price_of d); count := 1 |}
  end.

(** ** Histogram *)

(** The bucket key of a finite price: [floor(p / 500) * 500]. *)
Definition bucket_floor (p : number) : Z :=
  match p with
  | Fin q => Qfloor (q / inject_Z 500) * 500
  | _ => 0
  end.

(** The number of prices in the bucket of key [k]. *)
Definition bucket_size (k : Z) (ps : list number) : nat :=
  List.length (filter (fun p => bucket_floor p =? k) ps).

(** A finite price below 10^21. *)
Definition small_price (p : number) : Prop :=
  exists q, p = Fin q /\ (q < inject_Z (10 ^ 21))%Q.

(** [hist] lists exactly the non-empty buckets of [ps], each once with its
    size, in ascending order of the keys. *)
Definition histogram_of (ps : list number) (hist : list (number * nat)) : Prop :=
  exists keys : list Z,
    hist = map (fun k => (of_Z k, bucket_size k ps)) keys
    /\ StronglySorted Z.lt keys
    /\ forall k, In k keys <-> exists p, In p ps /\ bucket_floor p = k.

(** The integer a finite number holds (its floor), 0 for the others. *)
Definition int_part (x : number) : Z :=
  match x with Fin q => Qfloor q | _ => 0 end.

(** What one price does to the count of its bucket. *)
Definition bucket_upd (ov : option nat) (p : number) : nat :=
  ((match ov with Some c => c | None => 0 end) + 1)%nat.

Definition bucket_key (p : number) : string := ToString (bucket_of p).

(** A map filled by one pass over a sequence: each element updates the value
    under its key. *)
Definition gstep {X V : Type} (key : X -> string) (upd : option V -> X -> V)
    (o : object V) (x : X) : object V :=
  own_set o (key x) (upd (own_get o (key x)) x).

(** The value such a pass leaves under the key [k]. *)
Definition gopt {X V : Type} (key : X -> string) (upd : option V -> X -> V)
    (k : string) (l : list X) : option V :=
  fold_left (fun ov x => if String.eqb (key x) k then Some (upd ov x) else ov) l None.

(** An entry of [buckets] with its key parsed, as the histogram maps it. *)
Definition parse_entry (e : string * nat) : number * nat :=
  (parseInt (fst e), snd e).

Definition range_key (r : number * nat) : Z := int_part (fst r).

(** The group statistics of a filtered view rank its groups. *)
Definition deptStats_claim (fd : list PricingEntry) : Prop :=
  forall m, analytics fd = Some m -> ranks_groups fd (deptStats m).

(** The histogram of a filtered view lists the buckets of its prices. *)
Definition histogram_claim (fd : list PricingEntry) : Prop :=
  forall m, analytics fd = Some m ->
    exists hist,
      distribution m = map bucket_label hist
      /\ histogram_of (prices fd) hist.

(** ** Numeric summary *)

(** A number above 0 (so not NaN). *)
Definition positive (p : number) : Prop := gt p (of_Z 0) = true.

(** [a] is not above [b]. *)
Definition not_above (a b : number) : Prop := gt a b = false.

(** The prices a summary is taken over: the positive values that
    [parseFloat] reads off the records. *)
Definition included (fd : list PricingEntry) (p : number) : Prop :=
  exists d, In d fd /\ parseFloat (mrp d) = p /\ positive p.

End Spec.

(* ================================================================== *)
(** * Sample collections *)
(* ================================================================== *)

Module Examples.
Import JS Pricing.

Definition entry (code name dept price : string) : PricingEntry :=
  {| test_code := code; test_name := name; department := dept;
     city := "Hyderabad"; mrp := price; tat := "1 day" |}.

(** The two records of the spec's filtering scenario. *)
Definition catalog : list PricingEntry :=
  [entry "CBC01" "Complete Blood Count" "Hematology" "350";
   entry "LFT01" "Liver Function" "Biochemistry" "900"].

(** A view whose only record has no positive price. *)
Definition unpriced : list PricingEntry :=
  [entry "TSH01" "Thyroid Panel" "Endocrinology" "0"].

(** Departments named by numbers, the larger number first. *)
Definition numbered_depts : list PricingEntry :=
  [entry "A1" "Panel A" "2" "100"; entry "B1" "Panel B" "1" "200"].

(** Twenty records: one full page and a second page of five. *)
Definition two_pages : list PricingEntry :=
  List.repeat (entry "CBC01" "Complete Blood Count" "Hematology" "350") 20.

(** A price that prints in exponential form. *)
Definition huge_price : list PricingEntry :=
  [entry "A1" "Panel A" "Lab" "600"; entry "B1" "Panel B" "Lab" "1e21"].

End Examples.

(* ================================================================== *)
(** * React components as state machines *)
(* ================================================================== *)

Module React.

(** After an event handler has run, React renders and runs the effects whose
    dependencies changed; an effect that sets state causes another render.
    [pass] is one such round and [stable] tells that no dependency changed. *)
Fixpoint settle {S : Type} (stable : S -> bool) (pass : S -> S)
    (fuel : nat) (s : S) : S :=
  match fuel with
  | O => s
  | Datatypes.S fuel' =>
      if stable s then s else settle stable pass fuel' (pass s)
  end.

(** Rounds allowed to a commit; two suffice for either component. *)
Definition rounds : nat := 4.

End React.

(** ** PricingIntelligence *)

Module PricingView.
Import JS Pricing.

(** An array held in state.  React compares dependencies with [Object.is], so
    an array is told apart by its identity, not by its items. *)
Record Arr : Type := { ref : nat; items : list string }.

(** How [apiFetch] settles: the parsed body of a successful response, or a
    rejection (network error, non-success status, abort). *)
Inductive Outcome : Type :=
  | Resolved (body : list PricingEntry)
  | Rejected.

(** The record store of the component, with the state of its one fetch. *)
Record Store : Type := {
  data : list PricingEntry;
  loading : bool;
  error : option string;
  aborted : bool;
  pending : bool
}.

(** Interactive filters *)
Record Filters : Type := {
  query : string;
  selectedDepts : Arr;
  selectedCities : Arr
}.

(** Comparison state *)
Record Comparison : Type := {
  selectedTests : StrSet;
  comparisonSearch : string
}.

Definition Deps : Type := (string * nat * nat)%type.

Record State : Type := {
  store : Store;
  filters : Filters;
  comparison : Comparison;
  page : Z;
  next_ref : nat;
  reset_deps : option Deps
}.

Inductive Event : Type :=
  | SetQuery (q : string)
  | ToggleDept (dept : string)
  | ToggleCity (city : string)
  | ClearFilters
  | Prev
  | Next
  | ToggleSelection (testCode : string)
  | ClearSelection
  | SetComparisonSearch (text : string)
  | Settle (o : Outcome)
  | Unmount.

Definition with_store (s : State) (st : Store) : State :=
  {| store := st; filters := filters s; comparison := comparison s;
     page := page s; next_ref := next_ref s; reset_deps := reset_deps s |}.

Definition with_filters (s : State) (f : Filters) (fresh : nat) : State :=
  {| store := store s; filters := f; comparison := comparison s;
     page := page s; next_ref := fresh; reset_deps := reset_deps s |}.

Definition with_comparison (s : State) (c : Comparison) : State :=
  {| store := store s; filters := filters s; comparison := c;
     page := page s; next_ref := next_ref s; reset_deps := reset_deps s |}.

Definition with_page (s : State) (p : Z) : State :=
  {| store := store s; filters := filters s; comparison := comparison s;
     page := p; next_ref := next_ref s; reset_deps := reset_deps s |}.

(** The derived views of a state *)

Definition view (s : State) : list PricingEntry :=
  filteredData (data (store s)) (query (filters s))
    (items (selectedDepts (filters s))) (items (selectedCities (filters s))).

Definition visible_page (s : State) : list PricingEntry :=
  paginatedResults (view s) (page s).

Definition total_pages (s : State) : Z := totalPages (view s).

(** The main tree is rendered: mounted, not loading, no error. *)
Definition rendered (s : State) : bool :=
  negb (aborted (store s)) && negb (loading (store s))
  && match error (store s) with None => true | Some _ => false end.

(** The pager is rendered under a non-empty page. *)
Definition pager_shown (s : State) : bool :=
  negb (List.length (visible_page s) =? 0)%nat.

Definition clear_shown (s : State) : bool :=
  negb (List.length (items (selectedDepts (filters s))) =? 0)%nat
  || negb (List.length (items (selectedCities (filters s))) =? 0)%nat.

Definition fetch_error : string := "Failed to load enriched pricing data.".

(** [fetchPricing] after its [await]: the [try], [catch] and [finally] blocks. *)
Definition settle_fetch (st : Store) (o : Outcome) : Store :=
  match o with
  | Resolved body =>
      {| data := body; loading := if aborted st then loading st else false;
         error := None; aborted := aborted st; pending := false |}
  | Rejected =>
      {| data := data st; loading := if aborted st then loading st else false;
         error := if aborted st then error st else Some fetch_error;
         aborted := aborted st; pending := false |}
  end.

(** The event handlers.  A control that is not rendered, or is disabled,
    fires nothing. *)
Definition handle (e : Event) (s : State) : State :=
  match e with
  | SetQuery q =>
      if rendered s
      then with_filters s
             {| query := q; selectedDepts := selectedDepts (filters s);
                selectedCities := selectedCities (filters s) |} (next_ref s)
      else s
  | ToggleDept dept =>
      if rendered s
      then with_filters s
             {| query := query (filters s);
                selectedDepts :=
                  {| ref := next_ref s;
                     items := toggleFilter (items (selectedDepts (filters s))) dept |};
                selectedCities := selectedCities (filters s) |}
             (S (next_ref s))
      else s
  | ToggleCity city =>
      if rendered s
      then with_filters s
             {| query := query (filters s);
                selectedDepts := selectedDepts (filters s);
                selectedCities :=
                  {| ref := next_ref s;
                     items := toggleFilter (items (selectedCities (filters s))) city |} |}
             (S (next_ref s))
      else s
  | ClearFilters =>
      if rendered s && clear_shown s
      then with_filters s
             {| query := query (filters s);
                selectedDepts := {| ref := next_ref s; items := [] |};
                selectedCities := {| ref := S (next_ref s); items := [] |} |}
             (S (S (next_ref s)))
      else s
  | Prev =>
      if rendered s && pager_shown s && negb (page s =? 1)
      then with_page s (Z.max 1 (page s - 1))
      else s
  | Next =>
      if rendered s && pager_shown s && negb (page s =? total_pages s)
      then with_page s (Z.min (total_pages s) (page s + 1))
      else s
  | ToggleSelection testCode =>
      if rendered s
      then with_comparison s
             {| selectedTests := toggleSelection testCode (selectedTests (comparison s));
                comparisonSearch := comparisonSearch (comparison s) |}
      else s
  | ClearSelection =>
      if rendered s && negb (set_size (selectedTests (comparison s)) =? 0)%nat
      then with_comparison s
             {| selectedTests := set_new;
                comparisonSearch := comparisonSearch (comparison s) |}
      else s
  | SetComparisonSearch text =>
      if rendered s
      then with_comparison s
             {| selectedTests := selectedTests (comparison s);
                comparisonSearch := text |}
      else s
  | Settle o =>
      if pending (store s) then with_store s (settle_fetch (store s) o) else s
  | Unmount =>
      with_store s
        {| data := data (store s); loading := loading (store s);
           error := error (store s); aborted := true;
           pending := pending (store s) |}
  end.

(** The dependencies of the page-reset effect: [query, selectedDepts,
    selectedCities]. *)
Definition deps (s : State) : Deps :=
  (query (filters s), ref (selectedDepts (filters s)),
   ref (selectedCities (filters s))).

Definition deps_eqb (a b : Deps) : bool :=
  String.eqb (fst (fst a)) (fst (fst b))
  && (snd (fst a) =? snd (fst b))%nat && (snd a =? snd b)%nat.

Definition stable (s : State) : bool :=
  match reset_deps s with
  | Some d => deps_eqb d (deps s)
  | None => false
  end.

(** One round of effects: [useEffect(() => setPage(1), [query, selectedDepts,
    selectedCities])]. *)
Definition pass (s : State) : State :=
  if stable s then s
  else {| store := store s; filters := filters s; comparison := comparison s;
          page := 1; next_ref := next_ref s; reset_deps := Some (deps s) |}.

Definition dispatch (e : Event) (s : State) : State :=
  React.settle stable pass React.rounds (handle e s).

(** The state of the first render, before any effect has run. *)
Definition first_render : State :=
  {| store := {| data := []; loading := true; error := None;
                 aborted := false; pending := true |};
     filters := {| query := ""; selectedDepts := {| ref := 0; items := [] |};
                   selectedCities := {| ref := 1; items := [] |} |};
     comparison := {| selectedTests := set_new; comparisonSearch := "" |};
     page := 1; next_ref := 2; reset_deps := None |}.

Definition mount : State := React.settle stable pass React.rounds first_render.

Inductive reachable : State -> Prop :=
  | reach_mount : reachable mount
  | reach_step (s : State) (e : Event) : reachable s -> reachable (dispatch e s).

(** An edit of a filter input that the user can make in [s]. *)
Definition filter_edit (s : State) (e : Event) : Prop :=
  rendered s = true
  /\ match e with
     | SetQuery q => q <> query (filters s)
     | ToggleDept _ | ToggleCity _ => True
     | ClearFilters => clear_shown s = true
     | _ => False
     end.

(** The effect has seen the current dependencies, the arrays in state are
    older than the next identity, the fetch has not delivered while it is
    pending, and the page is 1 or a page of the filtered view. *)
Definition invariant (s : State) : Prop :=
  reset_deps s = Some (deps s)
  /\ (ref (selectedDepts (filters s)) < next_ref s)%nat
  /\ (ref (selectedCities (filters s)) < next_ref s)%nat
  /\ (pending (store s) = true -> data (store s) = [])
  /\ (page s = 1 \/ 1 <= page s <= total_pages s).

End PricingView.

(** ** TestExplorer *)

Module Explorer.
Import JS.

(** [DiagnosticTest] of [types.ts], its required fields. *)
Record DiagnosticTest : Type := {
  id : string;
  test_code : string;
  test_name : string;
  mrp : number
}.

(** [PaginationEnvelope<DiagnosticTest>] *)
Record PaginationEnvelope : Type := {
  total : Z;
  limit : Z;
  offset : Z;
  results : list DiagnosticTest
}.

(** How a fetch of [/tests] ends: a parsed body, a non-success status, or a
    network error. *)
Inductive Outcome : Type :=
  | Ok (json : PaginationEnvelope)
  | HttpError (status : Z)
  | NetworkError.

(** A failed outcome: anything but a parsed body. *)
Definition failed (o : Outcome) : bool :=
  match o with Ok _ => false | _ => true end.

(** Filter state *)
Record Filters : Type := {
  query : string;
  cityId : string;
  department : string;
  specimen : string;
  disease : string
}.

(** The query string of a request, as [URLSearchParams] holds it. *)
Definition Request : Type := list (string * string).

Record State : Type := {
  data : option PaginationEnvelope;
  loading : bool;
  error : option string;
  page : Z;
  filters : Filters;
  (** the armed debounce timer, with the values its closure captured *)
  timer : option (Z * Filters);
  (** the fetches issued and not settled yet *)
  inflight : list (nat * Request);
  next_id : nat;
  fetch_deps : option (Z * Filters);
  reset_deps : option Filters
}.

Inductive Event : Type :=
  | SetQuery (q : string)
  | SetCityId (c : string)
  | SetDepartment (d : string)
  | SetSpecimen (sp : string)
  | SetDisease (d : string)
  | PrevPage
  | NextPage
  | TimerFires
  | Settle (fetch : nat) (o : Outcome).

(** [const [limit] = useState(15)] *)
Definition page_limit : Z := 15.

Definition param (key value : string) (present : bool) : Request :=
  if present then [(key, value)] else [].

(** The parameters [fetchTests] appends, from the values of its closure. *)
Definition request_of (page : Z) (f : Filters) : Request :=
  [("limit"%string, ToString (of_Z page_limit));
   ("offset"%string, ToString (of_Z ((page - 1) * page_limit)))]
  ++ param "q" (trim (query f)) (str_truthy (trim (query f)))
  ++ param "cityId" (trim (cityId f)) (str_truthy (trim (cityId f)))
  ++ param "department" (department f) (str_truthy (department f))
  ++ param "specimenId" (specimen f) (str_truthy (specimen f))
  ++ param "diseaseId" (disease f) (str_truthy (disease f)).

Definition fetch_error : string :=
  "Failed to fetch tests catalog. Please verify connection to Cloudflare Worker.".

Definition with_filters (s : State) (f : Filters) : State :=
  {| data := data s; loading := loading s; error := error s; page := page s;
     filters := f; timer := timer s; inflight := inflight s;
     next_id := next_id s; fetch_deps := fetch_deps s;
     reset_deps := reset_deps s |}.

Definition with_page (s : State) (p : Z) : State :=
  {| data := data s; loading := loading s; error := error s; page := p;
     filters := filters s; timer := timer s; inflight := inflight s;
     next_id := next_id s; fetch_deps := fetch_deps s;
     reset_deps := reset_deps s |}.

(** [Math.ceil(data.total / limit)], 0 without data. *)
Definition totalPages (s : State) : Z :=
  match data s with
  | Some d => (total d + page_limit - 1) / page_limit
  | None => 0
  end.

Definition pager_shown (s : State) : bool :=
  negb (loading s)
  && match data s with Some d => 0 <? total d | None => false end.

Definition is_inflight (s : State) (fetch : nat) : bool :=
  existsb (fun r => (fst r =? fetch)%nat) (inflight s).

(** [fetchTests] up to its [await]: the request leaves with the values the
    closure captured when the timer was armed. *)
Definition start_fetch (s : State) (p : Z) (f : Filters) : State :=
  {| data := data s; loading := true; error := error s; page := page s;
     filters := filters s; timer := None;
     inflight := inflight s ++ [(next_id s, request_of p f)];
     next_id := S (next_id s); fetch_deps := fetch_deps s;
     reset_deps := reset_deps s |}.

(** [fetchTests] after its [await]: the [try], [catch] and [finally] blocks.
    Nothing tells a response of the latest request from one of an earlier
    request. *)
Definition settle_fetch (s : State) (fetch : nat) (o : Outcome) : State :=
  {| data := match o with Ok json => Some json | _ => data s end;
     loading := false;
     error := match o with Ok _ => None | _ => Some fetch_error end;
     page := page s; filters := filters s; timer := timer s;
     inflight := filter (fun r => negb (fst r =? fetch)%nat) (inflight s);
     next_id := next_id s; fetch_deps := fetch_deps s;
     reset_deps := reset_deps s |}.

Definition handle (e : Event) (s : State) : State :=
  match e with
  | SetQuery q =>
      with_filters s
        {| query := q; cityId := cityId (filters s);
           department := department (filters s);
           specimen := specimen (filters s); disease := disease (filters s) |}
  | SetCityId c =>
      with_filters s
        {| query := query (filters s); cityId := c;
           department := department (filters s);
           specimen := specimen (filters s); disease := disease (filters s) |}
  | SetDepartment d =>
      with_filters s
        {| query := query (filters s); cityId := cityId (filters s);
           department := d;
           specimen := specimen (filters s); disease := disease (filters s) |}
  | SetSpecimen sp =>
      with_filters s
        {| query := query (filters s); cityId := cityId (filters s);
           department := department (filters s);
           specimen := sp; disease := disease (filters s) |}
  | SetDisease d =>
      with_filters s
        {| query := query (filters s); cityId := cityId (filters s);
           department := department (filters s);
           specimen := specimen (filters s); disease := d |}
  | PrevPage =>
      if pager_shown s && negb (page s =? 1)
      then with_page s (Z.max 1 (page s - 1))
      else s
  | NextPage =>
      if pager_shown s && negb (page s =? totalPages s)
      then with_page s (Z.min (totalPages s) (page s + 1))
      else s
  | TimerFires =>
      match timer s with
      | Some (p, f) => start_fetch s p f
      | None => s
      end
  | Settle fetch o =>
      if is_inflight s fetch then settle_fetch s fetch o else s
  end.

Definition filters_eqb (a b : Filters) : bool :=
  String.eqb (query a) (query b) && String.eqb (cityId a) (cityId b)
  && String.eqb (department a) (department b)
  && String.eqb (specimen a) (specimen b)
  && String.eqb (disease a) (disease b).

(** Dependencies [page, limit, query, cityId, department, specimen, disease]
    of the fetch effect. *)
Definition fetch_stable (s : State) : bool :=
  match fetch_deps s with
  | Some (p, f) => (p =? page s) && filters_eqb f (filters s)
  | None => false
  end.

(** Dependencies [query, cityId, department, specimen, disease] of the
    page-reset effect. *)
Definition reset_stable (s : State) : bool :=
  match reset_deps s with
  | Some f => filters_eqb f (filters s)
  | None => false
  end.

Definition stable (s : State) : bool := fetch_stable s && reset_stable s.

(** One round of effects, both reading the values of one render.  The fetch
    effect first runs the cleanup of its last run, [clearTimeout], which
    disarms a timer that has not fired and does nothing to a fetch already
    under way; then it arms a new timer.  The reset effect sets the page. *)
Definition pass (s : State) : State :=
  let armed := if fetch_stable s then timer s else Some (page s, filters s) in
  {| data := data s; loading := loading s; error := error s;
     page := if reset_stable s then page s else 1;
     filters := filters s; timer := armed; inflight := inflight s;
     next_id := next_id s;
     fetch_deps := Some (page s, filters s);
     reset_deps := Some (filters s) |}.

Definition dispatch (e : Event) (s : State) : State :=
  React.settle stable pass React.rounds (handle e s).

(** The state of the first render; the filters come from the URL, the city
    defaulting to [GRL0001]. *)
Definition first_render (cityParam deptParam specimenParam diseaseParam : string)
    : State :=
  {| data := None; loading := true; error := None; page := 1;
     filters := {| query := ""; cityId := str_or cityParam "GRL0001";
                   department := deptParam; specimen := specimenParam;
                   disease := diseaseParam |};
     timer := None; inflight := []; next_id := 0;
     fetch_deps := None; reset_deps := None |}.

Definition mount (cityParam deptParam specimenParam diseaseParam : string) : State :=
  React.settle stable pass React.rounds
    (first_render cityParam deptParam specimenParam diseaseParam).

Inductive reachable : State -> Prop :=
  | reach_mount (c d sp di : string) : reachable (mount c d sp di)
  | reach_step (s : State) (e : Event) : reachable s -> reachable (dispatch e s).

(** An edit of a filter input that changes it. *)
Definition filter_edit (s : State) (e : Event) : Prop :=
  match e with
  | SetQuery q => q <> query (filters s)
  | SetCityId c => c <> cityId (filters s)
  | SetDepartment d => d <> department (filters s)
  | SetSpecimen sp => sp <> specimen (filters s)
  | SetDisease d => d <> disease (filters s)
  | _ => False
  end.

Fixpoint run (events : list Event) (s : State) : State :=
  match events with
  | [] => s
  | e :: rest => run rest (dispatch e s)
  end.

End Explorer.

(** ** The two resources side by side *)

Module App.

(** Each page component keeps its own state; there is no shared store. *)
Record State : Type := {
  pricing : PricingView.State;
  tests : Explorer.State
}.

Inductive Event : Type :=
  | OnPricing (e : PricingView.Event)
  | OnTests (e : Explorer.Event).

Definition dispatch (e : Event) (a : State) : State :=
  match e with
  | OnPricing e' =>
      {| pricing := PricingView.dispatch e' (pricing a); tests := tests a |}
  | OnTests e' =>
      {| pricing := pricing a; tests := Explorer.dispatch e' (tests a) |}
  end.

(** The fetch of the pricing data is rejected. *)
Definition pricing_fetch_fails (a : State) : State :=
  dispatch (OnPricing (PricingView.Settle PricingView.Rejected)) a.

(** The fetch [fetch] of the test catalogue ends with the outcome [o]. *)
Definition tests_fetch_ends (fetch : nat) (o : Explorer.Outcome) (a : State)
    : State :=
  dispatch (OnTests (Explorer.Settle fetch o)) a.

Definition pricing_data (a : State) : list Pricing.PricingEntry :=
  PricingView.data (PricingView.store (pricing a)).

Definition pricing_error (a : State) : option string :=
  PricingView.error (PricingView.store (pricing a)).

(** The pricing page is mounted and its fetch has not settled. *)
Definition pricing_awaited (a : State) : Prop :=
  PricingView.pending (PricingView.store (pricing a)) = true
  /\ PricingView.aborted (PricingView.store (pricing a)) = false.

End App.

(** ** A race between two fetches of the test catalogue *)

Module Scenarios.
Import Explorer.

(** What the server answers to the request without a query. *)
Definition unfiltered : PaginationEnvelope :=
  {| total := 40; limit := 15; offset := 0;
     results :=
       [{| id := "17"; test_code := "LFT01"; test_name := "Liver Function";
           mrp := JS.of_Z 900 |}] |}.

(** What the server answers to the request for [cbc]. *)
Definition for_cbc : PaginationEnvelope :=
  {| total := 1; limit := 15; offset := 0;
     results :=
       [{| id := "4"; test_code := "CBC01"; test_name := "Complete Blood Count";
           mrp := JS.of_Z 350 |}] |}.

(** Fetch 0 leaves for the unfiltered catalogue; the user types [cbc]; after
    the debounce fetch 1 leaves; the answer to fetch 1 arrives first. *)
Definition supersede : list Event :=
  [TimerFires; SetQuery "cbc"; TimerFires].

Definition race : list Event :=
  supersede ++ [Settle 1 (Ok for_cbc); Settle 0 (Ok unfiltered)].

Definition start : State := mount "" "" "" "".

(** The pricing page after its data arrived and the user went to page 2. *)
Definition browsing : PricingView.State :=
  PricingView.dispatch PricingView.Next
    (PricingView.dispatch
       (PricingView.Settle (PricingView.Resolved Examples.two_pages))
       PricingView.mount).

(** Both pages open, the explorer waiting for its first fetch. *)
Definition both_pages : App.State :=
  {| App.pricing := PricingView.mount; App.tests := run [TimerFires] start |}.

(** The armed timer, if any, carries the page and the filters of the state. *)
Definition timer_current (s : State) : Prop :=
  forall p f, timer s = Some (p, f) -> p = page s /\ f = filters s.

End Scenarios.

(* ================================================================== *)
(** * The remaining views of the pages *)
(* ================================================================== *)

(** ** More built-ins *)

Module JSMore.
Import JS.

(** The comparison [Array.prototype.sort] uses when it is given none: strings
    by their code units. *)
Definition default_compare (x y : string) : number :=
  if String.ltb x y then of_Z (-1)
  else if String.ltb y x then of_Z 1
  else of_Z 0.

(** [String.prototype.substring(0, n)] *)
Definition substring0 (n : nat) (s : string) : string := String.substring 0 n s.

(** A value held under a key of a tally object: a number, or the text that
    [+ 1] makes of an inherited function (its source text, then [1]). *)
Inductive Tally : Type :=
  | Counted (n : nat)
  | Text.

(** [ToNumber] of a tally; the text of a function is no numeral. *)
Definition tally_number (t : Tally) : number :=
  match t with Counted n => of_nat n | Text => NaN end.

(** [(o[k] || 0) + 1] and [o[k] = ...] on a tally object.  Under an inherited
    name the value read is a function, [+ 1] concatenates, and the
    assignment creates an own property holding text; under [__proto__] the
    assignment goes to the prototype setter, which ignores a string. *)
Definition tally_step (o : object Tally) (k : string) : object Tally :=
  match own_get o k with
  | Some (Counted n) => own_set o k (Counted (n + 1))
  | Some Text => own_set o k Text
  | None =>
      if String.eqb k "__proto__" then o
      else if is_inherited k then own_set o k Text
      else own_set o k (Counted 1)
  end.

End JSMore.

(** ** PricingIntelligence: filter vocabularies, comparison rows, chips *)

Module PricingMore.
Import JS JSMore Pricing.

(** One turn of the [forEach] that fills the two sets. *)
Definition vocab_step (acc : StrSet * StrSet) (d : PricingEntry) : StrSet * StrSet :=
  ((if str_truthy (department d) then set_add (fst acc) (department d) else fst acc),
   (if str_truthy (city d) then set_add (snd acc) (city d) else snd acc)).

Definition vocab_sets (data : list PricingEntry) : StrSet * StrSet :=
  fold_left vocab_step data (set_new, set_new).

Definition uniqueDepts (data : list PricingEntry) : list string :=
  sort default_compare (fst (vocab_sets data)).

Definition uniqueCities (data : list PricingEntry) : list string :=
  sort default_compare (snd (vocab_sets data)).

(** A row of the comparison chart *)
Record ComparisonRow : Type := {
  row_name : string;
  row_fullName : string;
  row_price : number;
  row_city : string;
  row_code : string
}.

Definition comparison_row (item : PricingEntry) : ComparisonRow :=
  {| row_name :=
       if (15 <? String.length (test_name item))%nat
       then (substring0 15 (test_name item) ++ "...")%string
       else test_name item;
     row_fullName := test_name item;
     row_price := or_else (parseFloat (mrp item)) (of_Z 0);
     row_city := city item;
     row_code := test_code item |}.

Definition comparisonData (data : list PricingEntry) (selectedTests : StrSet)
    : list ComparisonRow :=
  if (set_size selectedTests =? 0)%nat then []
  else map comparison_row
         (filter (fun item => set_has selectedTests (test_code item)) data).

(** The selected chips: one per selected code that [data.find] resolves, in
    selection order; a code without a record renders nothing. *)
Definition chips (data : list PricingEntry) (selectedTests : StrSet)
    : list (string * PricingEntry) :=
  flat_map
    (fun code =>
       match find (fun d => String.eqb (test_code d) code) data with
       | Some t => [(code, t)]
       | None => []
       end)
    selectedTests.

(** The pages the pager walks through: 1 to [totalPages]. *)
Definition all_pages (view : list PricingEntry) : list Z :=
  map (fun n => Z.of_nat n) (seq 1 (Z.to_nat (totalPages view))).

(** The events of the comparison panel. *)
Definition comparison_event (e : PricingView.Event) : bool :=
  match e with
  | PricingView.ToggleSelection _ | PricingView.ClearSelection
  | PricingView.SetComparisonSearch _ => true
  | _ => false
  end.

(** While the fetch is pending the spinner is up, so the filters and the
    page are still those of the first render. *)
Definition waiting (s : PricingView.State) : Prop :=
  PricingView.pending (PricingView.store s) = true ->
  PricingView.loading (PricingView.store s) = true
  /\ PricingView.query (PricingView.filters s) = EmptyString
  /\ PricingView.items (PricingView.selectedDepts (PricingView.filters s)) = []
  /\ PricingView.items (PricingView.selectedCities (PricingView.filters s)) = []
  /\ PricingView.page s = 1.

(** The price range a histogram label shows for the bucket of key [k]. *)
Definition in_range (k : Z) (p : number) : Prop :=
  exists q, p = Fin q /\ (inject_Z k <= q)%Q /\ (q < inject_Z (k + 500))%Q.

End PricingMore.

(** ** Centers *)

Module CentersView.
Import JS JSMore.

(** [DiagnosticCenter] of [types.ts] *)
Record DiagnosticCenter : Type := {
  city_name : string;
  center_code : string
}.

Definition matches (query : string) (c : DiagnosticCenter) : bool :=
  includes (toLowerCase (city_name c)) (toLowerCase query)
  || includes (toLowerCase (center_code c)) (toLowerCase query).

Definition filteredCenters (centers : list DiagnosticCenter) (query : string)
    : list DiagnosticCenter :=
  filter (matches query) centers.

Record CityStat : Type := { stat_city : string; stat_centers : Tally }.

(** [c.city_name || 'Unknown'] *)
Definition city_of (c : DiagnosticCenter) : string :=
  str_or (city_name c) "Unknown".

Definition counts_of (centers : list DiagnosticCenter) : object Tally :=
  fold_left (fun counts c => tally_step counts (city_of c)) centers [].

Definition by_centers_desc (a b : CityStat) : number :=
  sub (tally_number (stat_centers b)) (tally_number (stat_centers a)).

Definition cityStats (centers : list DiagnosticCenter) : list CityStat :=
  slice
    (sort by_centers_desc
       (map (fun e : string * Tally =>
               {| stat_city := fst e; stat_centers := snd e |})
            (entries (counts_of centers))))
    0 10.

(** The number of cities in the page header:
    [cityStats.length > 10 ? `${cityStats.length}+` : cityStats.length]. *)
Definition cities_label (centers : list DiagnosticCenter) : string :=
  let n := List.length (cityStats centers) in
  if (10 <? n)%nat then (ToString (of_nat n) ++ "+")%string
  else ToString (of_nat n).

(** The centers of the city [k]. *)
Definition centers_in (k : string) (centers : list DiagnosticCenter)
    : list DiagnosticCenter :=
  filter (fun c => String.eqb (city_of c) k) centers.

(** One entry per city, in first-seen order, with the number of its centers. *)
Definition city_groups (centers : list DiagnosticCenter) : list CityStat :=
  map (fun k => {| stat_city := k;
                   stat_centers := Counted (List.length (centers_in k centers)) |})
      (Spec.first_seen (map city_of centers)).

(** The size a city statistic holds, 0 when it holds text. *)
Definition stat_size (g : CityStat) : nat :=
  match stat_centers g with Counted n => n | Text => 0 end.

(** What one center does to the tally of its city, the city being no
    inherited name. *)
Definition tally_upd (ov : option Tally) (c : DiagnosticCenter) : Tally :=
  match ov with
  | Some (Counted n) => Counted (n + 1)
  | Some Text => Text
  | None => Counted 1
  end.

End CentersView.

(** Four centers in three cities, one of them without a city name. *)
Module Network.
Import CentersView.

Definition centers : list DiagnosticCenter :=
  [ {| city_name := "Pune"; center_code := "P1" |};
    {| city_name := "Delhi"; center_code := "D1" |};
    {| city_name := "Delhi"; center_code := "D2" |};
    {| city_name := ""; center_code := "U1" |} ]%string.

End Network.

(** ** TestExplorer: requests and the debounce *)

Module ExplorerMore.
Import JS Explorer.

(** [URLSearchParams.prototype.get]: the first value under the name. *)
Definition param_get (r : Request) (name : string) : option string :=
  match find (fun kv => String.eqb name (fst kv)) r with
  | Some kv => Some (snd kv)
  | None => None
  end.

(** Every event but the firing of the debounce timer. *)
Definition quiet (e : Event) : bool :=
  match e with TimerFires => false | _ => true end.

(** A request for a page from 1 on; its offset, [(p - 1) * 15], is not
    negative. *)
Definition asks_page (r : Request) : Prop :=
  exists p f, 1 <= p /\ r = request_of p f.

(** The page of the state, of the armed timer and of every request under way
    is 1 or more. *)
Definition pages_positive (s : State) : Prop :=
  1 <= page s
  /\ (forall p f, timer s = Some (p, f) -> 1 <= p)
  /\ (forall r, In r (inflight s) -> asks_page (snd r)).

(** [v] is [s] without the white space at its two ends. *)
Definition trimmed_of (s v : string) : Prop :=
  (exists lead trail,
     s = (lead ++ v ++ trail)%string
     /\ all_chars is_ws lead = true /\ all_chars is_ws trail = true)
  /\ (forall c rest, v = String c rest -> is_ws c = false)
  /\ (forall init c, v = (init ++ String c EmptyString)%string -> is_ws c = false).

End ExplorerMore.

(** ** Links between the pages *)

Module Url.
Import JS.

(** The characters [encodeURIComponent] leaves as they are: letters, digits
    and [- _ . ! ~ * ' ( )]. *)
Definition unreserved (c : ascii) : bool :=
  let n := nat_of_ascii c in
  ((65 <=? n) && (n <=? 90) || (97 <=? n) && (n <=? 122)
   || (48 <=? n) && (n <=? 57)
   || existsb (Nat.eqb n) [45; 95; 46; 33; 126; 42; 39; 40; 41])%nat.

Definition hex_digit (n : nat) : ascii :=
  if (n <? 10)%nat then ascii_of_nat (48 + n) else ascii_of_nat (55 + n).

(** The UTF-8 bytes of a code unit below 256: one byte below 128, two from
    128 on. *)
Definition utf8_bytes (c : ascii) : list ascii :=
  let n := nat_of_ascii c in
  if (n <? 128)%nat then [c]
  else [ascii_of_nat (192 + n / 64); ascii_of_nat (128 + n mod 64)].

Definition utf8_encode (s : string) : list ascii :=
  flat_map utf8_bytes (list_ascii_of_string s).

(** A byte as [encodeURIComponent] writes it. *)
Definition escape (b : ascii) : string :=
  if unreserved b then String b EmptyString
  else String "%"
         (String (hex_digit (nat_of_ascii b / 16))
            (String (hex_digit (nat_of_ascii b mod 16)) EmptyString)).

(** [encodeURIComponent] *)
Definition encodeURIComponent (s : string) : string :=
  fold_right (fun b acc => (escape b ++ acc)%string) EmptyString (utf8_encode s).

(** Percent-decoding of a byte sequence: [%] followed by two hexadecimal
    digits is one byte, any other byte stands for itself. *)
Fixpoint percent_decode (s : list ascii) : list ascii :=
  match s with
  | [] => []
  | c :: s' =>
      if Ascii.eqb c "%" then
        match s' with
        | h1 :: h2 :: rest =>
            match hex_val h1, hex_val h2 with
            | Some a, Some b =>
                ascii_of_nat (Z.to_nat (16 * a + b)) :: percent_decode rest
            | _, _ => c :: percent_decode s'
            end
        | _ => c :: percent_decode s'
        end
      else c :: percent_decode s'
  end.

(** UTF-8 decoding, as far as the result is a string of code units below
    256; [None] when the bytes are malformed (the decoder then writes
    U+FFFD) or give a code point from 256 on. *)
Fixpoint utf8_decode (bs : list ascii) : option string :=
  match bs with
  | [] => Some EmptyString
  | b :: bs' =>
      let n := nat_of_ascii b in
      if (n <? 128)%nat then option_map (String b) (utf8_decode bs')
      else if ((n =? 194) || (n =? 195))%nat then
        match bs' with
        | b2 :: rest =>
            let m := nat_of_ascii b2 in
            if ((128 <=? m) && (m <? 192))%nat
            then option_map (String (ascii_of_nat ((n - 192) * 64 + (m - 128))))
                   (utf8_decode rest)
            else None
        | [] => None
        end
      else None
  end.

(** The pieces of a byte sequence between the occurrences of [sep]. *)
Fixpoint split_on (sep : ascii) (s : list ascii) : list (list ascii) :=
  match s with
  | [] => [[]]
  | c :: s' =>
      if Ascii.eqb c sep then [] :: split_on sep s'
      else match split_on sep s' with
           | piece :: pieces => (c :: piece) :: pieces
           | [] => [[c]]
           end
  end.

(** What stands before the first [sep], and what stands after it, if any. *)
Fixpoint cut_at (sep : ascii) (s : list ascii) : list ascii * option (list ascii) :=
  match s with
  | [] => ([], None)
  | c :: s' =>
      if Ascii.eqb c sep then ([], Some s')
      else (c :: fst (cut_at sep s'), snd (cut_at sep s'))
  end.

Definition plus_to_space (c : ascii) : ascii :=
  if Ascii.eqb c "+" then " "%char else c.

(** A name or a value of a query string, decoded. *)
Definition decode_component (bs : list ascii) : option string :=
  utf8_decode (percent_decode (map plus_to_space bs)).

Definition is_empty (bs : list ascii) : bool :=
  match bs with [] => true | _ => false end.

(** The [application/x-www-form-urlencoded] parser. *)
Definition parse_pairs (bytes : list ascii) : list (option string * option string) :=
  map (fun piece =>
         (decode_component (fst (cut_at "=" piece)),
          decode_component
            (match snd (cut_at "=" piece) with Some v => v | None => [] end)))
      (filter (fun piece => negb (is_empty piece)) (split_on "&" bytes)).

(** [new URLSearchParams(init)]: a leading [?] is dropped. *)
Definition URLSearchParams (init : string) : list (option string * option string) :=
  parse_pairs
    (utf8_encode
       (match init with
        | String c rest => if Ascii.eqb c "?" then rest else init
        | EmptyString => init
        end)).

(** What [get] returns: [null], a string, or a string that has a code unit
    from 256 on. *)
Inductive Lookup : Type :=
  | Absent
  | Value (v : string)
  | Beyond.

(** [URLSearchParams.prototype.get]: the value of the first pair of that
    name.  A name with a code unit from 256 on is not [name]. *)
Fixpoint get (params : list (option string * option string)) (name : string)
    : Lookup :=
  match params with
  | [] => Absent
  | (Some n, v) :: rest =>
      if String.eqb n name
      then match v with Some v' => Value v' | None => Beyond end
      else get rest name
  | (None, _) :: rest => get rest name
  end.

(** [s.substring(0, s.indexOf(sep))], the whole of [s] without [sep]. *)
Fixpoint before_first (sep : ascii) (s : string) : string :=
  match s with
  | EmptyString => EmptyString
  | String c s' =>
      if Ascii.eqb c sep then EmptyString else String c (before_first sep s')
  end.

(** [s.substring(s.indexOf(sep))], empty without [sep]. *)
Fixpoint from_first (sep : ascii) (s : string) : string :=
  match s with
  | EmptyString => EmptyString
  | String c s' => if Ascii.eqb c sep then s else from_first sep s'
  end.

(** The search part of a path given to [navigate], as the router's
    [parsePath] cuts it: the hash goes first, then the search from the
    first [?]. *)
Definition search_of (to : string) : string :=
  from_first "?" (before_first "#" to).

(** A character [encodeURIComponent] can write. *)
Definition url_char (c : ascii) : bool := unreserved c || Ascii.eqb c "%".

End Url.

Module Links.
Import JS Url.

(** [handleCenterClick] of the centers page: where it navigates. *)
Definition handleCenterClick (centerCode : string) : string :=
  ("/tests?cityId=" ++ encodeURIComponent centerCode)%string.

(** [searchParams.get(name) || ''], where the value is a string of the
    embedding. *)
Definition param (params : list (option string * option string)) (name : string)
    : option string :=
  match get params name with
  | Absent => Some EmptyString
  | Value v => Some v
  | Beyond => None
  end.

(** [TestExplorer] mounted at a location: its filters start from the search
    parameters. *)
Definition explorer_at (to : string) : option Explorer.State :=
  let params := URLSearchParams (search_of to) in
  match param params "cityId", param params "department",
        param params "specimenId", param params "diseaseId" with
  | Some c, Some d, Some sp, Some di => Some (Explorer.mount c d sp di)
  | _, _, _, _ => None
  end.

End Links.

(* ================================================================== *)
(** * Properties *)
(* ================================================================== *)

Import JS Pricing Spec Examples.

(** ** Strings *)

Lemma startsWith_iff (s p : string) :
  startsWith s p = true <-> exists suf, s = (p ++ suf)%string.
Proof.
  revert s; induction p as [|a p IH]; intros s; simpl.
  - split; [intros _; now exists s | reflexivity].
  - destruct s as [|b s]; simpl.
    + split; [discriminate | intros [suf H]; discriminate].
    + rewrite andb_true_iff, Ascii.eqb_eq, IH. split.
      * intros [-> [suf ->]]. now exists suf.
      * intros [suf H]. injection H as -> ->. split; [reflexivity | now exists suf].
Qed.

Lemma includes_iff (s sub : string) :
  includes s sub = true <-> exists pre suf, s = (pre ++ sub ++ suf)%string.
Proof.
  induction s as [|c s IH].
  - cbn [includes]. rewrite startsWith_iff. split.
    + intros [suf H]. now exists EmptyString, suf.
    + intros [pre [suf H]]. destruct pre; [now exists suf | discriminate].
  - cbn [includes]. rewrite orb_true_iff, startsWith_iff, IH. split.
    + intros [[suf H] | [pre [suf H]]].
      * now exists EmptyString, suf.
      * exists (String c pre), suf. simpl. now rewrite H.
    + intros [pre [suf H]]. destruct pre as [|c' pre]; simpl in H.
      * left. now exists suf.
      * right. injection H as _ H. now exists pre, suf.
Qed.

Lemma includes_empty (s : string) : includes s EmptyString = true.
Proof. destruct s; reflexivity. Qed.

Lemma toLowerCase_app (a b : string) :
  toLowerCase (a ++ b) = (toLowerCase a ++ toLowerCase b)%string.
Proof. induction a as [|c a IH]; simpl; [reflexivity | now rewrite IH]. Qed.

Lemma toLowerCase_split (s x y : string) :
  toLowerCase s = (x ++ y)%string ->
  exists a b, s = (a ++ b)%string /\ toLowerCase a = x /\ toLowerCase b = y.
Proof.
  revert s; induction x as [|c x IH]; intros s H; simpl in H.
  - now exists EmptyString, s.
  - destruct s as [|d s]; simpl in H; [discriminate |].
    injection H as Hc H. destruct (IH _ H) as [a [b [-> [Ha Hb]]]].
    exists (String d a), b. simpl. now rewrite Hc, Ha.
Qed.

Lemma includes_lower_iff (s q : string) :
  includes (toLowerCase s) (toLowerCase q) = true <-> occurs_ci q s.
Proof.
  rewrite includes_iff. unfold occurs_ci, ci_eq. split.
  - intros [pre [suf H]].
    destruct (toLowerCase_split _ _ _ H) as [a [b [-> [_ Hb]]]].
    destruct (toLowerCase_split _ _ _ Hb) as [w [c [-> [Hw _]]]].
    now exists a, w, c.
  - intros [pre [w [suf [-> Hw]]]].
    exists (toLowerCase pre), (toLowerCase suf).
    now rewrite !toLowerCase_app, Hw.
Qed.

Lemma arr_includes_iff (l : list string) (x : string) :
  arr_includes l x = true <-> In x l.
Proof.
  unfold arr_includes. rewrite existsb_exists. split.
  - intros [y [Hy E]]. apply String.eqb_eq in E. now subst.
  - intros H. exists x. split; [assumption | apply String.eqb_refl].
Qed.

Lemma length_zero_iff {A : Type} (l : list A) :
  (List.length l =? 0)%nat = true <-> l = [].
Proof. destruct l; simpl; split; intros H; congruence. Qed.

(** ** The composed filter predicate *)

Lemma matchesSearch_iff (q : string) (r : PricingEntry) :
  matchesSearch q r = true <-> text_matches q r.
Proof.
  unfold matchesSearch, text_matches.
  now rewrite orb_true_iff, !includes_lower_iff.
Qed.

Lemma dimension_iff (selected : list string) (v : string) :
  (List.length selected =? 0)%nat || arr_includes selected v = true
  <-> dimension_ok selected v.
Proof.
  unfold dimension_ok.
  rewrite orb_true_iff, length_zero_iff, arr_includes_iff. split.
  - intros [H | H] Hne; [contradiction | assumption].
  - intros H. destruct selected as [|a l]; [now left | right].
    apply H. discriminate.
Qed.


(** ** The comparison typeahead *)

Lemma trimStart_blank (s : string) :
  all_chars is_ws s = true -> trimStart s = EmptyString.
Proof.
  induction s as [|c s IH]; simpl; [reflexivity |].
  intros H. apply andb_true_iff in H as [Hc Hs]. rewrite Hc. auto.
Qed.

Lemma trimStart_not_blank (s : string) :
  all_chars is_ws s = false ->
  exists c t, trimStart s = String c t /\ is_ws c = false.
Proof.
  induction s as [|c s IH]; simpl; [discriminate |].
  destruct (is_ws c) eqn:Hc; simpl.
  - exact IH.
  - intros _. now exists c, s.
Qed.

Lemma trimEnd_keeps_head (c : ascii) (t : string) :
  is_ws c = false -> str_truthy (trimEnd (String c t)) = true.
Proof.
  intros Hc. cbn [trimEnd]. destruct (trimEnd t); [rewrite Hc |]; reflexivity.
Qed.

Lemma trim_truthy (s : string) : str_truthy (trim s) = negb (blank s).
Proof.
  unfold trim, blank. destruct (all_chars is_ws s) eqn:H.
  - now rewrite trimStart_blank.
  - destruct (trimStart_not_blank _ H) as [c [t [-> Hc]]].
    now rewrite trimEnd_keeps_head.
Qed.

Lemma rel_index_nonneg (len i : Z) : 0 <= i -> rel_index len i = Z.min i len.
Proof. intros H. unfold rel_index. destruct (Z.ltb_spec i 0); [lia | reflexivity]. Qed.

Lemma firstn_min_length {A : Type} (n : nat) (l : list A) :
  firstn (Nat.min n (List.length l)) l = firstn n l.
Proof.
  destruct (Nat.le_ge_cases n (List.length l)) as [H | H].
  - now rewrite Nat.min_l.
  - rewrite Nat.min_r by assumption. now rewrite !firstn_all2 by lia.
Qed.

(** A slice between two non-negative bounds is a window of the array. *)
Lemma slice_window {A : Type} (l : list A) (start size : Z) :
  0 <= start -> 0 <= size ->
  slice l start (start + size) = firstn (Z.to_nat size) (skipn (Z.to_nat start) l).
Proof.
  intros Hs Hn. unfold slice.
  rewrite !rel_index_nonneg by lia.
  set (len := Z.of_nat (List.length l)).
  destruct (Z.le_gt_cases start len) as [Hle | Hgt].
  - rewrite (Z.min_l start len) by lia.
    rewrite <- (firstn_min_length (Z.to_nat size)).
    f_equal. rewrite length_skipn. subst len. lia.
  - rewrite (Z.min_r start len) by lia.
    rewrite !skipn_all2 by (subst len; lia). now rewrite !firstn_nil.
Qed.

Lemma slice_from_zero {A : Type} (l : list A) (n : Z) :
  0 <= n -> slice l 0 n = firstn (Z.to_nat n) l.
Proof. intros H. exact (slice_window l 0 n (Z.le_refl 0) H). Qed.

Lemma set_has_iff (s : StrSet) (x : string) : set_has s x = true <-> In x s.
Proof. exact (arr_includes_iff s x). Qed.

Lemma is_candidate_iff (search : string) (selected : StrSet) (d : PricingEntry) :
  is_candidate search selected d = true <-> candidate search selected d.
Proof.
  unfold is_candidate, candidate.
  rewrite andb_true_iff, matchesSearch_iff, negb_true_iff.
  rewrite <- set_has_iff, not_true_iff_false. reflexivity.
Qed.


(** ** The comparison selection *)

Lemma set_delete_absent (s : StrSet) (x : string) :
  set_has s x = false -> set_delete s x = s.
Proof.
  unfold set_has, set_delete. induction s as [|y s IH]; simpl; [reflexivity |].
  intros H. apply orb_false_iff in H as [Hy Hs].
  rewrite Hy. simpl. now rewrite IH.
Qed.

Lemma set_has_app (s t : StrSet) (x : string) :
  set_has (s ++ t) x = set_has s x || set_has t x.
Proof. apply existsb_app. Qed.

Lemma set_has_delete (s : StrSet) (x y : string) :
  set_has (set_delete s x) y = set_has s y && negb (String.eqb x y).
Proof.
  unfold set_has, set_delete. induction s as [|z s IH]; simpl; [reflexivity |].
  destruct (String.eqb_spec x z) as [-> | Hxz]; simpl.
  - rewrite IH. destruct (String.eqb_spec y z) as [-> | Hyz]; simpl.
    + rewrite String.eqb_refl. simpl. now rewrite andb_false_r.
    + reflexivity.
  - rewrite IH. destruct (String.eqb_spec y z) as [-> | Hyz]; simpl.
    + destruct (String.eqb_spec x z); [contradiction | reflexivity].
    + reflexivity.
Qed.

(** C8. Toggling a code flips its membership and nobody else's: it is added
    when absent and removed when present; toggling twice a code that was
    absent gives back the selection it started from, order included. *)
Theorem toggleSelection_involution :
  (forall s x, set_has (toggleSelection x s) x = negb (set_has s x))
  /\ (forall s x y, y <> x -> set_has (toggleSelection x s) y = set_has s y)
  /\ (forall s x, set_has s x = false ->
        toggleSelection x s = s ++ [x]
        /\ toggleSelection x (toggleSelection x s) = s).
Proof.
  split; [| split].
  - intros s x. unfold toggleSelection.
    destruct (set_has s x) eqn:H; cbn [negb].
    + now rewrite set_has_delete, String.eqb_refl, andb_false_r.
    + unfold set_add. rewrite H, set_has_app, H. cbn.
      now rewrite String.eqb_refl.
  - intros s x y Hyx. unfold toggleSelection.
    destruct (set_has s x) eqn:H.
    + rewrite set_has_delete.
      destruct (String.eqb_spec x y); [congruence | now rewrite andb_true_r].
    + unfold set_add. rewrite H, set_has_app. simpl.
      destruct (String.eqb_spec y x); [contradiction | now rewrite !orb_false_r].
  - intros s x H.
    assert (Hadd : toggleSelection x s = s ++ [x]).
    { unfold toggleSelection, set_add. now rewrite H. }
    split; [exact Hadd |]. rewrite Hadd.
    assert (Hin : set_has (s ++ [x]) x = true).
    { rewrite set_has_app. cbn. now rewrite String.eqb_refl, orb_true_r. }
    unfold toggleSelection. rewrite Hin.
    unfold set_delete. rewrite filter_app. cbn.
    rewrite String.eqb_refl. cbn. rewrite app_nil_r.
    now apply set_delete_absent.
Qed.

(** ** Pagination *)

(** C4. For a page number from 1 on, the visible page is the window
    [view[(page-1)*15 : page*15]] of the filtered view, and it holds
    [min(15, max(0, N - (page-1)*15))] records: a page past the last one is
    empty, not an error. *)
Theorem paginatedResults_bound (view : list PricingEntry) (page : Z) :
  1 <= page ->
  paginatedResults view page = page_window view page ITEMS_PER_PAGE
  /\ Z.of_nat (List.length (paginatedResults view page))
     = Z.min ITEMS_PER_PAGE
         (Z.max 0 (Z.of_nat (List.length view) - (page - 1) * ITEMS_PER_PAGE)).
Proof.
  intros Hp. unfold paginatedResults, page_window, ITEMS_PER_PAGE.
  replace (page * 15) with ((page - 1) * 15 + 15) by lia.
  rewrite slice_window by lia. split; [reflexivity |].
  rewrite length_firstn, length_skipn. lia.
Qed.

Lemma paginatedResults_bound_witness :
  1 <= 2
  /\ paginatedResults two_pages 2 = page_window two_pages 2 ITEMS_PER_PAGE
  /\ Z.of_nat (List.length (paginatedResults two_pages 2))
     = Z.min ITEMS_PER_PAGE
         (Z.max 0 (Z.of_nat (List.length two_pages) - (2 - 1) * ITEMS_PER_PAGE)).
Proof. split; [lia | apply (paginatedResults_bound two_pages 2); lia]. Defined.

(** Page 0 lies outside the pages the pager can reach: [slice(-15, 0)] is
    empty, where the formula of the bound would give 15. *)
Example paginatedResults_page_zero :
  paginatedResults two_pages 0 = []
  /\ Z.min ITEMS_PER_PAGE
       (Z.max 0 (Z.of_nat (List.length two_pages) - (0 - 1) * ITEMS_PER_PAGE)) = 15.
Proof. split; reflexivity. Qed.

(** ** Numbers *)

Lemma Qle_bool_Qred_l (a b : Q) : Qle_bool (Qred a) b = Qle_bool a b.
Proof.
  apply eq_true_iff_eq. rewrite !Qle_bool_iff. now rewrite Qred_correct.
Qed.

Lemma Qle_bool_inject_Z (a b : Z) : Qle_bool (inject_Z a) (inject_Z b) = (a <=? b).
Proof.
  apply eq_true_iff_eq. rewrite Qle_bool_iff, <- Zle_Qle. symmetry. apply Z.leb_le.
Qed.

(** [a - b > 0] on integers. *)
Lemma gt_sub_of_Z (a b : Z) : gt (sub (of_Z a) (of_Z b)) (of_Z 0) = (b <? a).
Proof.
  unfold sub, neg, add, of_Z, gt.
  rewrite Qle_bool_Qred_l.
  assert (E : inject_Z a + Qred (- inject_Z b) == inject_Z (a - b)).
  { rewrite Qred_correct. unfold Z.sub. now rewrite inject_Z_plus, inject_Z_opp. }
  assert (E' : Qle_bool (inject_Z a + Qred (- inject_Z b)) (inject_Z 0)
               = Qle_bool (inject_Z (a - b)) (inject_Z 0)).
  { apply eq_true_iff_eq. rewrite !Qle_bool_iff. now rewrite E. }
  rewrite E', Qle_bool_inject_Z.
  destruct (Z.leb_spec (a - b) 0), (Z.ltb_spec b a); simpl; try reflexivity; lia.
Qed.

(** ** Array.prototype.sort *)

Section SortFacts.
Context {A : Type} (cmp : A -> A -> number) (key : A -> Z).

Lemma insert_perm (x : A) (l : list A) : Permutation (insert cmp x l) (x :: l).
Proof.
  induction l as [|y l IH]; simpl; [reflexivity |].
  destruct (gt (cmp x y) (of_Z 0)); [| reflexivity].
  rewrite IH. apply perm_swap.
Qed.

Lemma sort_perm (l : list A) : Permutation (sort cmp l) l.
Proof.
  induction l as [|x l IH]; simpl; [reflexivity |].
  rewrite insert_perm. now constructor.
Qed.

Lemma insert_sorted (x : A) (l : list A) :
  (forall y, In y l -> gt (cmp x y) (of_Z 0) = (key y <? key x)) ->
  StronglySorted (key_le key) l -> StronglySorted (key_le key) (insert cmp x l).
Proof.
  intros Hx Hs. induction Hs as [|y l Hs IH Hy]; simpl.
  - repeat constructor.
  - rewrite (Hx y) by now left.
    destruct (Z.ltb_spec (key y) (key x)) as [Hlt | Hge].
    + constructor.
      * apply IH. intros z Hz. apply Hx. now right.
      * rewrite (insert_perm x l). constructor; [unfold key_le; lia | exact Hy].
    + constructor; [now constructor |].
      constructor; [exact Hge |].
      rewrite Forall_forall in Hy |- *. intros z Hz.
      specialize (Hy z Hz). unfold key_le in *. lia.
Qed.

Lemma sort_sorted (l : list A) :
  orders_by cmp key l -> StronglySorted (key_le key) (sort cmp l).
Proof.
  induction l as [|x l IH]; intros H; simpl; [constructor |].
  apply insert_sorted.
  - intros y Hy. apply H; [now left | right].
    now apply (Permutation_in _ (sort_perm l)).
  - apply IH. intros a b Ha Hb. apply H; now right.
Qed.

Lemma insert_stable (x : A) (l : list A) (c : Z) :
  (forall y, In y l -> gt (cmp x y) (of_Z 0) = (key y <? key x)) ->
  filter (fun a => key a =? c) (insert cmp x l)
  = filter (fun a => key a =? c) (x :: l).
Proof.
  induction l as [|y l IH]; intros Hx; [reflexivity |].
  cbn [insert]. rewrite (Hx y) by now left.
  destruct (Z.ltb_spec (key y) (key x)) as [Hlt | Hge]; [| reflexivity].
  cbn [filter]. rewrite IH by (intros z Hz; apply Hx; now right).
  cbn [filter].
  destruct (Z.eqb_spec (key x) c), (Z.eqb_spec (key y) c); try reflexivity; lia.
Qed.

(** The sort is stable: records of one key keep their relative order. *)
Lemma sort_stable (l : list A) (c : Z) :
  orders_by cmp key l ->
  filter (fun a => key a =? c) (sort cmp l) = filter (fun a => key a =? c) l.
Proof.
  induction l as [|x l IH]; intros H; [reflexivity |].
  cbn [sort fold_right]. fold (sort cmp l).
  rewrite insert_stable.
  - cbn [filter]. rewrite IH by (intros a b Ha Hb; apply H; now right).
    reflexivity.
  - intros y Hy. apply H; [now left | right].
    now apply (Permutation_in _ (sort_perm l)).
Qed.
End SortFacts.

(** ** Objects used as maps *)

Lemma own_get_cons {V : Type} (k' : string) (v' : V) (o : object V) (k : string) :
  own_get ((k', v') :: o) k = if String.eqb k k' then Some v' else own_get o k.
Proof. unfold own_get. simpl. now destruct (String.eqb k k'). Qed.

Lemma own_get_set {V : Type} (o : object V) (k : string) (v : V) (k' : string) :
  own_get (own_set o k v) k' = if String.eqb k' k then Some v else own_get o k'.
Proof.
  induction o as [|[k0 v0] o IH]; cbn [own_set].
  - rewrite own_get_cons. reflexivity.
  - destruct (String.eqb_spec k k0) as [-> | Hne]; rewrite !own_get_cons.
    + now destruct (String.eqb k' k0).
    + rewrite IH. destruct (String.eqb_spec k' k0) as [-> | Hne'].
      * destruct (String.eqb_spec k0 k); [congruence | reflexivity].
      * reflexivity.
Qed.

Lemma keys_set {V : Type} (o : object V) (k : string) (v : V) :
  map fst (own_set o k v)
  = if arr_includes (map fst o) k then map fst o else map fst o ++ [k].
Proof.
  induction o as [|[k0 v0] o IH]; cbn [own_set]; [reflexivity |].
  unfold arr_includes in *. cbn [map fst existsb].
  destruct (String.eqb k k0); cbn [map fst orb]; [reflexivity |].
  rewrite IH. now destruct (existsb (String.eqb k) (map fst o)).
Qed.

Lemma own_get_in {V : Type} (o : object V) (k : string) (v : V) :
  NoDup (map fst o) -> In (k, v) o -> own_get o k = Some v.
Proof.
  induction o as [|[k0 v0] o IH]; intros Hnd Hin; [contradiction |].
  rewrite own_get_cons. cbn [map fst] in Hnd. inversion Hnd as [|? ? Hk0 Hnd']; subst.
  destruct Hin as [E | Hin].
  - injection E as -> ->. now rewrite String.eqb_refl.
  - destruct (String.eqb_spec k k0) as [-> | Hne]; [| now apply IH].
    exfalso. apply Hk0. now apply (in_map fst) in Hin.
Qed.

(** ** Keys in first-seen order *)

Lemma first_seen_in (l : list string) (k : string) :
  In k (first_seen l) <-> In k l.
Proof.
  induction l as [|a l IH]; [reflexivity |]. cbn [first_seen In].
  destruct (string_dec a k) as [-> | Hne]; [tauto |].
  rewrite <- IH. split.
  - intros [E | H]; [now left | right]. now apply in_remove in H.
  - intros [E | H]; [now left | right]. apply in_in_remove; congruence.
Qed.

Lemma first_seen_nodup (l : list string) : NoDup (first_seen l).
Proof.
  induction l as [|a l IH]; cbn [first_seen]; constructor.
  - apply remove_In.
  - clear -IH. induction IH as [|x fs Hx _ IH']; cbn [remove]; [constructor |].
    destruct (string_dec a x); [exact IH' |].
    constructor; [| exact IH'].
    intros H. apply in_remove in H. tauto.
Qed.

Lemma first_seen_snoc (l : list string) (k : string) :
  first_seen (l ++ [k])
  = if arr_includes l k then first_seen l else first_seen l ++ [k].
Proof.
  induction l as [|a l IH]; [reflexivity |].
  cbn [app first_seen]. rewrite IH. unfold arr_includes. cbn [existsb].
  destruct (String.eqb_spec k a) as [-> | Hne]; cbn [orb].
  - destruct (existsb (String.eqb a) l); [reflexivity |].
    rewrite remove_app. cbn [remove].
    destruct (string_dec a a); [now rewrite app_nil_r | contradiction].
  - destruct (existsb (String.eqb k) l); [reflexivity |].
    rewrite remove_app. cbn [remove].
    destruct (string_dec a k); [congruence | reflexivity].
Qed.

Lemma arr_includes_first_seen (l : list string) (k : string) :
  arr_includes (first_seen l) k = arr_includes l k.
Proof.
  apply eq_true_iff_eq. rewrite !arr_includes_iff. apply first_seen_in.
Qed.

(** ** A map filled by one pass over a sequence *)

Section GroupFold.
Context {X V : Type} (key : X -> string) (upd : option V -> X -> V).

Lemma gfold_get (l : list X) (k : string) :
  own_get (fold_left (gstep key upd) l []) k = gopt key upd k l.
Proof.
  revert k. induction l as [|x l IH] using rev_ind; intros k; [reflexivity |].
  unfold gopt. rewrite !fold_left_app. cbn [fold_left]. fold (gopt key upd k l).
  unfold gstep at 1. rewrite own_get_set, !IH.
  destruct (String.eqb_spec k (key x)) as [-> | Hne].
  - now rewrite String.eqb_refl.
  - destruct (String.eqb_spec (key x) k); [congruence | reflexivity].
Qed.

Lemma gfold_keys (l : list X) :
  map fst (fold_left (gstep key upd) l []) = first_seen (map key l).
Proof.
  induction l as [|x l IH] using rev_ind; [reflexivity |].
  rewrite fold_left_app, map_app. cbn [fold_left map].
  unfold gstep at 1.
  now rewrite keys_set, first_seen_snoc, IH, arr_includes_first_seen.
Qed.
End GroupFold.

(** ** The analytics memo *)

Lemma analytics_some (fd : list PricingEntry) (m : AnalyticsMetrics) :
  analytics fd = Some m ->
  avgPrice m = calc_avgPrice (prices fd)
  /\ minPrice m = calc_minPrice (prices fd)
  /\ maxPrice m = calc_maxPrice (prices fd)
  /\ deptStats m = calc_deptStats fd
  /\ distribution m = calc_distribution (prices fd).
Proof.
  destruct fd; [discriminate |]. intros [= <-]. repeat split.
Qed.

(** ** Department statistics *)

Lemma fold_left_ext_in {A B : Type} (f g : A -> B -> A) (l : list B) (a : A) :
  (forall acc x, In x l -> f acc x = g acc x) ->
  fold_left f l a = fold_left g l a.
Proof.
  revert a. induction l as [|x l IH]; intros a H; [reflexivity |].
  cbn [fold_left]. rewrite H by now left.
  apply IH. intros acc y Hy. apply H. now right.
Qed.

Lemma str_or_unknown (d : PricingEntry) :
  str_or (department d) "Unknown" = group_key d.
Proof. unfold str_or, group_key. now destruct (department d). Qed.

Lemma dept_step_gstep (o : object DeptAcc) (d : PricingEntry) :
  is_inherited (group_key d) = false ->
  dept_step o d = gstep group_key dept_upd o d.
Proof.
  intros H. unfold dept_step, gstep, dept_upd. rewrite str_or_unknown.
  destruct (own_get o (group_key d)); [reflexivity | now rewrite H].
Qed.

Lemma group_of_snoc (k : string) (l : list PricingEntry) (d : PricingEntry) :
  group_of k (l ++ [d])
  = group_of k l ++ (if String.eqb (group_key d) k then [d] else []).
Proof. unfold group_of. rewrite filter_app. reflexivity. Qed.

Lemma sum_snoc (l : list number) (x : number) : sum (l ++ [x]) = add (sum l) x.
Proof. unfold sum. now rewrite fold_left_app. Qed.

Lemma dept_gopt (k : string) (fd : list PricingEntry) :
  gopt group_key dept_upd k fd
  = match group_of k fd with
    | [] => None
    | g => Some {| total := sum (map price_of g); count := List.length g |}
    end.
Proof.
  induction fd as [|d fd IH] using rev_ind; [reflexivity |].
  unfold gopt. rewrite fold_left_app. cbn [fold_left].
  fold (gopt group_key dept_upd k fd). rewrite IH, group_of_snoc.
  destruct (String.eqb (group_key d) k).
  - destruct (group_of k fd) as [|a g]; [reflexivity |].
    cbn [app dept_upd total count]. f_equal. f_equal.
    + change (a :: g ++ [d]) with ((a :: g) ++ [d]).
      rewrite map_app. symmetry. exact (sum_snoc _ _).
    + cbn [List.length]. rewrite length_app. cbn [List.length]. lia.
  - now rewrite app_nil_r.
Qed.

Lemma entries_plain {V : Type} (o : object V) :
  (forall k, In k (map fst o) -> is_index k = false) -> entries o = o.
Proof.
  intros H. unfold entries.
  assert (Hi : index_entries o = []).
  { induction o as [|[k v] o IH]; [reflexivity |].
    cbn [index_entries fold_right fst]. fold (index_entries o).
    rewrite IH by (intros k' Hk'; apply H; now right).
    specialize (H k (or_introl eq_refl)). unfold is_index in H.
    now destruct (array_index k). }
  rewrite Hi. cbn [map app].
  induction o as [|[k v] o IH]; [reflexivity |].
  cbn [filter fst]. rewrite (H k) by now left. cbn [negb].
  f_equal. apply IH.
  - intros k' Hk'. apply H. now right.
  - clear -Hi H. revert Hi. cbn [index_entries fold_right fst].
    fold (index_entries o). specialize (H k (or_introl eq_refl)).
    unfold is_index in H. now destruct (array_index k).
Qed.

Lemma gt_by_count_desc (x y : DeptStat) :
  gt (by_count_desc x y) (of_Z 0)
  = (- Z.of_nat (stat_count y) <? - Z.of_nat (stat_count x)).
Proof.
  unfold by_count_desc, of_nat. rewrite gt_sub_of_Z.
  destruct (Z.ltb_spec (Z.of_nat (stat_count x)) (Z.of_nat (stat_count y))),
    (Z.ltb_spec (- Z.of_nat (stat_count y)) (- Z.of_nat (stat_count x)));
    try reflexivity; lia.
Qed.

(** The department map holds one entry per group, in first-seen order. *)
Lemma deptMap_groups (fd : list PricingEntry) :
  (forall d, In d fd -> plain_key (group_key d)) ->
  map stat_of_entry (entries (deptMap_of fd)) = groups fd.
Proof.
  intros Hplain.
  assert (Hfold : deptMap_of fd = fold_left (gstep group_key dept_upd) fd []).
  { unfold deptMap_of. apply fold_left_ext_in. intros acc d Hd.
    apply dept_step_gstep. now apply Hplain. }
  assert (Hkeys : map fst (deptMap_of fd) = first_seen (map group_key fd)).
  { rewrite Hfold. apply gfold_keys. }
  rewrite entries_plain.
  2:{ intros k Hk. rewrite Hkeys, first_seen_in, in_map_iff in Hk.
      destruct Hk as [d [<- Hd]]. now apply Hplain. }
  unfold groups. rewrite <- Hkeys, map_map.
  apply map_ext_in. intros [k acc] Hin. cbn [fst].
  assert (Hget : own_get (deptMap_of fd) k = Some acc).
  { apply own_get_in; [| exact Hin]. rewrite Hkeys. apply first_seen_nodup. }
  rewrite Hfold, gfold_get, dept_gopt in Hget.
  unfold stat_of_entry, group_stat. cbn [fst snd].
  destruct (group_of k fd) as [|a g]; [discriminate |].
  now injection Hget as <-.
Qed.

Lemma firstn_in {A : Type} (n : nat) (l : list A) (x : A) :
  In x (firstn n l) -> In x l.
Proof.
  revert n. induction l as [|a l IH]; intros [|n]; cbn [firstn In]; try tauto.
  intros [H | H]; [now left | right; now apply (IH n)].
Qed.

Lemma sorted_firstn {A : Type} (R : A -> A -> Prop) (n : nat) (l : list A) :
  StronglySorted R l -> StronglySorted R (firstn n l).
Proof.
  intros H. revert n. induction H as [|a l _ IH Ha]; intros [|n]; cbn [firstn];
    try constructor; [apply IH |].
  rewrite Forall_forall in Ha |- *. intros b Hb. apply Ha.
  now apply (firstn_in n l).
Qed.

Lemma count_desc_orders (l : list DeptStat) :
  orders_by by_count_desc (fun g => - Z.of_nat (stat_count g)) l.
Proof. intros x y _ _. apply gt_by_count_desc. Qed.

Lemma sort_count_desc (l : list DeptStat) :
  StronglySorted (fun a b => (stat_count b <= stat_count a)%nat)
    (sort by_count_desc l).
Proof.
  pose proof (sort_sorted _ _ _ (count_desc_orders l)) as H.
  induction H as [|a r _ IH Ha]; constructor; [exact IH |].
  rewrite Forall_forall in Ha |- *. intros b Hb. specialize (Ha b Hb).
  unfold key_le in Ha. lia.
Qed.

Lemma count_key_eqb (g : DeptStat) (c : nat) :
  (stat_count g =? c)%nat = (- Z.of_nat (stat_count g) =? - Z.of_nat c).
Proof.
  destruct (Nat.eqb_spec (stat_count g) c),
    (Z.eqb_spec (- Z.of_nat (stat_count g)) (- Z.of_nat c)); try reflexivity; lia.
Qed.




(** ** Decimal digits *)

Lemma digit_cases (d : Z) :
  is_digit d ->
  d = 0 \/ d = 1 \/ d = 2 \/ d = 3 \/ d = 4 \/ d = 5 \/ d = 6 \/ d = 7
  \/ d = 8 \/ d = 9.
Proof. unfold is_digit. lia. Qed.

Ltac each_digit H :=
  apply digit_cases in H;
  repeat (destruct H as [H | H]; [subst; reflexivity |]); subst; reflexivity.

Lemma digit_val_chr (d : Z) : is_digit d -> digit_val (digit_chr d) = Some d.
Proof. intros H. each_digit H. Qed.

Lemma digit_chr_not_ws (d : Z) : is_digit d -> is_ws (digit_chr d) = false.
Proof. intros H. each_digit H. Qed.

Lemma digit_chr_not_sign (d : Z) :
  is_digit d ->
  (Ascii.eqb (digit_chr d) "-" || Ascii.eqb (digit_chr d) "+")%char = false.
Proof. intros H. each_digit H. Qed.

Lemma digit_chr_not_x (d : Z) :
  is_digit d ->
  (Ascii.eqb (digit_chr d) "x" || Ascii.eqb (digit_chr d) "X")%char = false.
Proof. intros H. each_digit H. Qed.

Lemma span_digits_string (ds : list Z) :
  Forall is_digit ds -> span_digits (string_of_digits ds) = (ds, EmptyString).
Proof.
  induction 1 as [|d ds Hd _ IH]; [reflexivity |].
  cbn [string_of_digits fold_right span_digits].
  fold (string_of_digits ds). now rewrite (digit_val_chr d Hd), IH.
Qed.

Lemma digits_value_snoc (ds : list Z) (d : Z) :
  digits_value (ds ++ [d]) = 10 * digits_value ds + d.
Proof. unfold digits_value. now rewrite fold_left_app. Qed.

(** With enough fuel, [digits_aux] puts the digits of [z] in front of [acc]. *)
Lemma digits_aux_spec (fuel : nat) (z : Z) (acc : list Z) :
  0 <= z < 10 ^ Z.of_nat (S fuel) ->
  exists ds,
    digits_aux (S fuel) z acc = ds ++ acc
    /\ Forall is_digit ds
    /\ digits_value ds = z
    /\ (exists d rest, ds = d :: rest /\ (d = 0 -> z = 0)).
Proof.
  assert (Hone : forall z, 0 <= z < 10 ->
            Forall is_digit [z] /\ digits_value [z] = z
            /\ (exists d rest, [z] = d :: rest /\ (d = 0 -> z = 0))).
  { intros z0 H0. split; [| split].
    - repeat constructor; unfold is_digit; lia.
    - unfold digits_value. cbn [fold_left]. lia.
    - exists z0, []. now split. }
  revert z acc. induction fuel as [|fuel IH]; intros z acc Hz.
  - exists [z]. cbn [digits_aux].
    change (10 ^ Z.of_nat 1) with 10 in Hz.
    destruct (Z.ltb_spec z 10); [| lia].
    split; [reflexivity | now apply Hone].
  - cbn [digits_aux]. destruct (Z.ltb_spec z 10) as [Hlt | Hge].
    + exists [z]. split; [reflexivity | apply Hone; lia].
    + assert (Hq : 0 <= z / 10 < 10 ^ Z.of_nat (S fuel)).
      { split; [apply Z.div_pos; lia |].
        apply Z.div_lt_upper_bound; [lia |].
        replace (Z.of_nat (S (S fuel))) with (Z.succ (Z.of_nat (S fuel))) in Hz by lia.
        rewrite Z.pow_succ_r in Hz by lia. lia. }
      destruct (IH (z / 10) (z mod 10 :: acc) Hq)
        as [ds [E [Hds [Hv [d [rest [Hd H0]]]]]]].
      exists (ds ++ [z mod 10]). split; [| split; [| split]].
      * rewrite <- app_assoc. exact E.
      * apply Forall_app. split; [exact Hds |].
        repeat constructor; unfold is_digit;
          pose proof (Z.mod_pos_bound z 10); lia.
      * rewrite digits_value_snoc, Hv.
        pose proof (Z.div_mod z 10). lia.
      * exists d, (rest ++ [z mod 10]). split; [now rewrite Hd |].
        intros Hd0. specialize (H0 Hd0).
        assert (0 < z / 10) by (apply Z.div_str_pos; lia). lia.
Qed.

Lemma digits_of_spec (z : Z) :
  0 <= z ->
  Forall is_digit (digits_of z)
  /\ digits_value (digits_of z) = z
  /\ (exists d rest, digits_of z = d :: rest /\ (d = 0 -> z = 0)).
Proof.
  intros Hz. unfold digits_of.
  destruct (digits_aux_spec (Z.to_nat (Z.log2 z)) z []) as [ds [E H]].
  - split; [exact Hz |].
    rewrite Nat2Z.inj_succ, Z2Nat.id by apply Z.log2_nonneg.
    destruct (Z.eq_dec z 0) as [-> | Hnz]; [reflexivity |].
    apply Z.lt_le_trans with (2 ^ Z.succ (Z.log2 z)).
    + apply Z.log2_spec. lia.
    + apply Z.pow_le_mono_l. pose proof (Z.log2_nonneg z). lia.
  - rewrite E, app_nil_r. exact H.
Qed.

(** Printing a small non-negative integer and parsing it back. *)
Lemma parseInt_ToString (z : Z) :
  0 <= z < 10 ^ 21 -> parseInt (ToString (of_Z z)) = of_Z z.
Proof.
  intros Hz. unfold ToString, of_Z, inject_Z. cbn [Qnum Qden].
  destruct (Z.ltb_spec z 0) as [Hneg | _]; [lia |].
  unfold abs_string. cbn [Qnum Qden].
  rewrite Z.mod_1_r, Z.div_1_r. cbn [Z.eqb]. unfold int_string.
  destruct (Z.ltb_spec z (10 ^ 21)) as [_ | Hbig]; [| lia].
  destruct (digits_of_spec z) as [Hds [Hv [d [rest [E Hlead]]]]]; [lia |].
  assert (Hd : is_digit d) by (rewrite E in Hds; now inversion Hds).
  assert (Hsp := span_digits_string _ Hds).
  unfold parseInt. rewrite E in *.
  cbn [string_of_digits fold_right] in *. fold (string_of_digits rest) in *.
  cbn [trimStart]. rewrite (digit_chr_not_ws d Hd).
  cbn [split_sign].
  pose proof (digit_chr_not_sign d Hd) as Hs. apply orb_false_iff in Hs as [-> ->].
  assert (Hhex : hex_prefix (String (digit_chr d) (string_of_digits rest)) = None).
  { destruct rest as [|d' rest']; [reflexivity |].
    cbn [string_of_digits fold_right hex_prefix].
    assert (Hd' : is_digit d').
    { inversion Hds as [|? ? _ Hr]; subst. now inversion Hr. }
    now rewrite (digit_chr_not_x d' Hd'), andb_false_r. }
  rewrite Hhex, Hsp. cbn [fst]. rewrite Hv.
  now replace (1 * z) with z by lia.
Qed.

(** ** Bucket keys *)

Lemma Qred_inject_Z (z : Z) : Qred (inject_Z z) = inject_Z z.
Proof.
  unfold Qred, inject_Z.
  pose proof (Z.ggcd_gcd z 1) as Hg.
  pose proof (Z.ggcd_correct_divisors z 1) as Hd.
  destruct (Z.ggcd z 1) as [g [aa bb]]. cbn [fst snd] in *.
  rewrite Z.gcd_1_r in Hg. subst g. destruct Hd as [Ha Hb].
  replace aa with z by lia. replace bb with 1 by lia. reflexivity.
Qed.

Lemma mul_of_Z (a b : Z) : mul (of_Z a) (of_Z b) = of_Z (a * b).
Proof.
  unfold mul, of_Z. f_equal.
  rewrite <- (Qred_inject_Z (a * b)). apply Qred_complete.
  now rewrite inject_Z_mult.
Qed.

Lemma bucket_of_fin (q : Q) : bucket_of (Fin q) = of_Z (bucket_floor (Fin q)).
Proof.
  unfold bucket_of, bucketSize, bucket_floor, div, of_Z at 1.
  cbn [inject_Z Qnum Z.eqb]. unfold Math_floor.
  rewrite mul_of_Z. do 2 f_equal. apply Qfloor_comp, Qred_correct.
Qed.

Lemma prices_positive (fd : list PricingEntry) (p : number) :
  In p (prices fd) -> isNaN p = false /\ gt p (of_Z 0) = true.
Proof.
  unfold prices. rewrite filter_In, andb_true_iff, negb_true_iff. tauto.
Qed.

Lemma bucket_floor_range (p : number) :
  gt p (of_Z 0) = true -> small_price p -> 0 <= bucket_floor p < 10 ^ 21.
Proof.
  intros Hpos [q [-> Hq]]. cbn [gt of_Z] in Hpos. apply negb_true_iff in Hpos.
  assert (H0 : (0 < q)%Q).
  { apply Qnot_le_lt. intros H. apply Qle_bool_iff in H.
    change (inject_Z 0) with 0%Q in Hpos. congruence. }
  cbn [bucket_floor].
  assert (Hx : (0 <= q / inject_Z 500)%Q).
  { apply Qle_shift_div_l; [reflexivity |]. rewrite Qmult_0_l. now apply Qlt_le_weak. }
  assert (Hf0 : 0 <= Qfloor (q / inject_Z 500)).
  { change 0 with (Qfloor 0). now apply Qfloor_resp_le. }
  split; [lia |].
  assert (Hle : (inject_Z (Qfloor (q / inject_Z 500)) * inject_Z 500 <= q)%Q).
  { assert (E : (q == q / inject_Z 500 * inject_Z 500)%Q) by (field; discriminate).
    rewrite E at 2. apply Qmult_le_compat_r; [apply Qfloor_le | discriminate]. }
  rewrite <- inject_Z_mult in Hle.
  rewrite Zlt_Qlt. eapply Qle_lt_trans; [exact Hle | exact Hq].
Qed.

Lemma bucket_key_parse (p : number) :
  gt p (of_Z 0) = true -> small_price p ->
  parseInt (bucket_key p) = of_Z (bucket_floor p).
Proof.
  intros Hpos Hs. pose proof (bucket_floor_range p Hpos Hs) as Hr.
  destruct Hs as [q [-> _]]. unfold bucket_key.
  rewrite bucket_of_fin. now apply parseInt_ToString.
Qed.

(** ** Object.entries *)

Lemma insert_index_perm {V : Type} (i : Z) (kv : string * V)
    (l : list (Z * (string * V))) :
  Permutation (insert_index i kv l) ((i, kv) :: l).
Proof.
  induction l as [|[j kv'] l IH]; cbn [insert_index]; [reflexivity |].
  destruct (i <? j); [reflexivity |].
  rewrite IH. apply perm_swap.
Qed.

Lemma filter_split_perm {A : Type} (p : A -> bool) (l : list A) :
  Permutation (filter p l ++ filter (fun x => negb (p x)) l) l.
Proof.
  induction l as [|x l IH]; [reflexivity |]. cbn [filter].
  destruct (p x); cbn [negb app].
  - now constructor.
  - rewrite <- Permutation_middle. now constructor.
Qed.

(** [Object.entries] reorders the properties and loses none. *)
Lemma entries_perm {V : Type} (o : object V) : Permutation (entries o) o.
Proof.
  unfold entries.
  rewrite <- (filter_split_perm (fun kv => is_index (fst kv)) o) at 3.
  apply Permutation_app_tail.
  induction o as [|[k v] o IH]; [reflexivity |].
  cbn [index_entries fold_right filter fst]. fold (index_entries o).
  unfold is_index at 1. destruct (array_index k) as [i |]; [| exact IH].
  rewrite insert_index_perm. cbn [map snd]. now constructor.
Qed.

(** ** Histogram *)

Lemma buckets_gfold (ps : list number) :
  buckets_of ps = fold_left (gstep bucket_key bucket_upd) ps [].
Proof. reflexivity. Qed.

Lemma bucket_gopt (k : string) (ps : list number) :
  gopt bucket_key bucket_upd k ps
  = match List.length (filter (fun p => String.eqb (bucket_key p) k) ps) with
    | O => None
    | S n => Some (S n)
    end.
Proof.
  induction ps as [|p ps IH] using rev_ind; [reflexivity |].
  unfold gopt. rewrite fold_left_app. cbn [fold_left].
  fold (gopt bucket_key bucket_upd k ps). rewrite IH, filter_app. cbn [filter].
  destruct (String.eqb (bucket_key p) k).
  - rewrite length_app. cbn [List.length]. rewrite Nat.add_1_r.
    unfold bucket_upd.
    destruct (List.length (filter (fun p0 => String.eqb (bucket_key p0) k) ps));
      f_equal; lia.
  - now rewrite app_nil_r.
Qed.

Lemma bucket_set_sum (o : object nat) (k : string) (p : number) :
  list_sum (map snd (own_set o k (bucket_upd (own_get o k) p)))
  = S (list_sum (map snd o)).
Proof.
  induction o as [|[k0 c0] o IH]; cbn [own_set].
  - reflexivity.
  - rewrite own_get_cons.
    destruct (String.eqb k k0); cbn [map snd]; unfold list_sum in *;
      cbn [fold_right].
    + unfold bucket_upd. lia.
    + rewrite IH. lia.
Qed.

(** Every price lands in one bucket. *)
Lemma buckets_sum (ps : list number) :
  list_sum (map snd (buckets_of ps)) = List.length ps.
Proof.
  induction ps as [|p ps IH] using rev_ind; [reflexivity |].
  unfold buckets_of in *. rewrite fold_left_app. cbn [fold_left].
  rewrite length_app. cbn [List.length]. rewrite <- IH.
  etransitivity;
    [exact (bucket_set_sum _ (ToString (bucket_of p)) p) | lia].
Qed.

Lemma distribution_sum (ps : list number) :
  list_sum (map bucket_count (calc_distribution ps)) = List.length ps.
Proof.
  unfold calc_distribution, distribution_ranges.
  rewrite map_map. cbn [bucket_label bucket_count].
  rewrite <- (buckets_sum ps).
  apply Permutation_list_sum.
  etransitivity; [apply Permutation_map, sort_perm |].
  rewrite map_map. cbn [snd].
  apply Permutation_map, entries_perm.
Qed.

Lemma of_Z_inj (a b : Z) : of_Z a = of_Z b -> a = b.
Proof. unfold of_Z, inject_Z. now intros [= ->]. Qed.

Lemma int_part_of_Z (a : Z) : int_part (of_Z a) = a.
Proof. apply Qfloor_Z. Qed.

Lemma sorted_map_le {A : Type} (f : A -> Z) (l : list A) :
  StronglySorted (key_le f) l -> StronglySorted Z.le (map f l).
Proof.
  induction 1 as [|a l _ IH Ha]; cbn [map]; constructor; [exact IH |].
  rewrite Forall_forall in Ha |- *. intros z Hz.
  apply in_map_iff in Hz as [b [<- Hb]]. exact (Ha b Hb).
Qed.

Lemma sorted_le_nodup_lt (l : list Z) :
  StronglySorted Z.le l -> NoDup l -> StronglySorted Z.lt l.
Proof.
  induction 1 as [|a l _ IH Ha]; intros Hnd; constructor;
    inversion Hnd as [|? ? Hnotin Hnd']; subst; [now apply IH |].
  rewrite Forall_forall in Ha |- *. intros z Hz. specialize (Ha z Hz).
  assert (a <> z) by (intros ->; contradiction). lia.
Qed.

Section Histogram.
Variable ps : list number.
Hypothesis Hps : forall p, In p ps -> gt p (of_Z 0) = true /\ small_price p.

Lemma bucket_key_floor (p : number) :
  In p ps -> bucket_key p = ToString (of_Z (bucket_floor p)).
Proof.
  intros Hp. destruct (Hps p Hp) as [_ [q [-> _]]].
  unfold bucket_key. now rewrite bucket_of_fin.
Qed.

Lemma bucket_key_eqb (p p' : number) :
  In p ps -> In p' ps ->
  String.eqb (bucket_key p') (bucket_key p) = (bucket_floor p' =? bucket_floor p).
Proof.
  intros Hp Hp'.
  destruct (Z.eqb_spec (bucket_floor p') (bucket_floor p)) as [E | Hne].
  - rewrite !bucket_key_floor, E by assumption. apply String.eqb_refl.
  - apply String.eqb_neq. intros E. apply Hne, of_Z_inj.
    destruct (Hps p Hp) as [Hpos Hs], (Hps p' Hp') as [Hpos' Hs'].
    now rewrite <- !bucket_key_parse, E by assumption.
Qed.

Lemma buckets_keys :
  map fst (buckets_of ps) = first_seen (map bucket_key ps).
Proof. rewrite buckets_gfold. apply gfold_keys. Qed.

(** An entry of [buckets] is the bucket of some price, with its size. *)
Lemma bucket_entry (e : string * nat) :
  In e (buckets_of ps) ->
  exists p, In p ps /\ e = (bucket_key p, bucket_size (bucket_floor p) ps).
Proof.
  destruct e as [k c]. intros Hin.
  assert (Hk : In k (map bucket_key ps)).
  { rewrite <- first_seen_in, <- buckets_keys. now apply (in_map fst) in Hin. }
  apply in_map_iff in Hk as [p [<- Hp]]. exists p. split; [exact Hp |].
  f_equal.
  assert (Hget : own_get (buckets_of ps) (bucket_key p) = Some c).
  { apply own_get_in; [| exact Hin]. rewrite buckets_keys. apply first_seen_nodup. }
  rewrite buckets_gfold, gfold_get, bucket_gopt in Hget.
  unfold bucket_size.
  rewrite (filter_ext_in (fun p' => bucket_floor p' =? bucket_floor p)
             (fun p' => String.eqb (bucket_key p') (bucket_key p))).
  2:{ intros p' Hp'. symmetry. now apply bucket_key_eqb. }
  destruct (List.length (filter _ ps)); [discriminate | now injection Hget].
Qed.

Lemma parsed_entry (e : string * nat) :
  In e (buckets_of ps) ->
  exists p, In p ps
    /\ parse_entry e = (of_Z (bucket_floor p), bucket_size (bucket_floor p) ps).
Proof.
  intros Hin. destruct (bucket_entry e Hin) as [p [Hp ->]].
  exists p. split; [exact Hp |]. unfold parse_entry. cbn [fst snd].
  destruct (Hps p Hp) as [Hpos Hs]. now rewrite bucket_key_parse.
Qed.

Lemma range_entry (r : number * nat) :
  In r (map parse_entry (entries (buckets_of ps))) ->
  exists p, In p ps
    /\ r = (of_Z (bucket_floor p), bucket_size (bucket_floor p) ps).
Proof.
  intros Hr. apply in_map_iff in Hr as [e [<- He]].
  apply parsed_entry. now apply (Permutation_in _ (entries_perm _)).
Qed.

Lemma ranges_ordered :
  orders_by by_range range_key (map parse_entry (entries (buckets_of ps))).
Proof.
  intros x y Hx Hy.
  destruct (range_entry x Hx) as [px [_ ->]], (range_entry y Hy) as [py [_ ->]].
  unfold by_range, range_key. cbn [fst]. rewrite gt_sub_of_Z.
  now rewrite !int_part_of_Z.
Qed.

Lemma ranges_nodup :
  NoDup (map range_key (map parse_entry (entries (buckets_of ps)))).
Proof.
  rewrite map_map.
  apply (Permutation_NoDup
           (Permutation_map _ (Permutation_sym (entries_perm (buckets_of ps))))).
  apply Finite.Injective_map_NoDup_in.
  - intros x y Hx Hy E.
    destruct (bucket_entry x Hx) as [px [Hpx ->]].
    destruct (bucket_entry y Hy) as [py [Hpy ->]].
    unfold range_key, parse_entry in E. cbn [fst snd] in E.
    destruct (Hps px Hpx) as [Hposx Hsx], (Hps py Hpy) as [Hposy Hsy].
    rewrite !bucket_key_parse, !int_part_of_Z in E by assumption.
    rewrite E. f_equal.
    rewrite !bucket_key_floor by assumption. now rewrite E.
  - apply (NoDup_map_inv fst). rewrite buckets_keys. apply first_seen_nodup.
Qed.

(** The sorted ranges are the histogram of the prices. *)
Lemma distribution_ranges_histogram : histogram_of ps (distribution_ranges ps).
Proof.
  unfold distribution_ranges.
  change (fun e : string * nat => (parseInt (fst e), snd e)) with parse_entry.
  set (R := map parse_entry (entries (buckets_of ps))).
  pose proof (sort_perm by_range R) as Hperm.
  pose proof (sort_sorted by_range range_key R ranges_ordered) as Hsorted.
  assert (Hin : forall r, In r (sort by_range R) ->
            exists p, In p ps
              /\ r = (of_Z (bucket_floor p), bucket_size (bucket_floor p) ps)).
  { intros r Hr. apply range_entry. now apply (Permutation_in _ Hperm). }
  exists (map range_key (sort by_range R)). split; [| split].
  - rewrite map_map. rewrite <- (map_id (sort by_range R)) at 1.
    apply map_ext_in. intros r Hr. destruct (Hin r Hr) as [p [_ ->]].
    unfold range_key. cbn [fst]. now rewrite int_part_of_Z.
  - apply sorted_le_nodup_lt; [now apply sorted_map_le |].
    apply (Permutation_NoDup (Permutation_map range_key (Permutation_sym Hperm))).
    apply ranges_nodup.
  - intros k. rewrite in_map_iff. split.
    + intros [r [<- Hr]]. destruct (Hin r Hr) as [p [Hp ->]].
      exists p. split; [exact Hp |]. unfold range_key. cbn [fst].
      now rewrite int_part_of_Z.
    + intros [p [Hp <-]].
      assert (Hk : In (bucket_key p) (map fst (buckets_of ps))).
      { rewrite buckets_keys, first_seen_in. now apply in_map. }
      apply in_map_iff in Hk as [e [He Hine]].
      exists (parse_entry e). split.
      * destruct (bucket_entry e Hine) as [p' [Hp' ->]]. cbn [fst] in He.
        unfold range_key, parse_entry. cbn [fst snd]. rewrite He.
        destruct (Hps p Hp) as [Hpos Hs].
        now rewrite bucket_key_parse, int_part_of_Z.
      * apply (Permutation_in _ (Permutation_sym Hperm)).
        apply in_map. now apply (Permutation_in _ (Permutation_sym (entries_perm _))).
Qed.
End Histogram.




(** ** Numeric summary *)

(** With no positive price in a non-empty view, the minimum and the maximum
    are the infinities that [Math.min()] and [Math.max()] give for no
    argument; both are truthy, so [|| 0] leaves them; only the average,
    a NaN, falls back to 0. *)
Lemma summary_without_price (fd : list PricingEntry) (m : AnalyticsMetrics) :
  analytics fd = Some m -> prices fd = [] ->
  avgPrice m = of_Z 0 /\ minPrice m = PosInf /\ maxPrice m = NegInf.
Proof.
  intros Hm Hp. destruct (analytics_some fd m Hm) as [-> [-> [-> _]]].
  rewrite Hp. repeat split.
Qed.

(** C1 at a view whose only record is priced 0: the record is excluded from
    the summary, the average is 0, and the minimum and the maximum are
    +Infinity and -Infinity, not 0. *)
Theorem analytics_unpriced_summary :
  prices unpriced = []
  /\ exists m, analytics unpriced = Some m
       /\ avgPrice m = of_Z 0 /\ minPrice m = PosInf /\ maxPrice m = NegInf.
Proof.
  split; [reflexivity |]. eexists. split; [reflexivity |].
  apply (summary_without_price unpriced); reflexivity.
Qed.

(* ================================================================== *)
(** * The components *)
(* ================================================================== *)

(** ** PricingIntelligence: commits *)

Lemma deps_eqb_refl (d : PricingView.Deps) : PricingView.deps_eqb d d = true.
Proof.
  destruct d as [[q a] b]. unfold PricingView.deps_eqb. cbn [fst snd].
  now rewrite String.eqb_refl, !Nat.eqb_refl.
Qed.

Lemma deps_eqb_eq (a b : PricingView.Deps) :
  PricingView.deps_eqb a b = true <-> a = b.
Proof.
  destruct a as [[q1 a1] b1], b as [[q2 a2] b2].
  unfold PricingView.deps_eqb. cbn [fst snd].
  rewrite !andb_true_iff, String.eqb_eq, !Nat.eqb_eq. split.
  - intros [[-> ->] ->]. reflexivity.
  - intros [= -> -> ->]. repeat split.
Qed.

Lemma pricing_pass_stable (s : PricingView.State) :
  PricingView.stable (PricingView.pass s) = true.
Proof.
  unfold PricingView.pass. destruct (PricingView.stable s) eqn:H; [exact H |].
  unfold PricingView.stable. cbn. apply deps_eqb_refl.
Qed.

(** One round of effects settles a commit of [PricingIntelligence]. *)
Lemma pricing_settle (s : PricingView.State) :
  React.settle PricingView.stable PricingView.pass React.rounds s
  = PricingView.pass s.
Proof.
  unfold React.rounds. cbn [React.settle].
  destruct (PricingView.stable s) eqn:H.
  - unfold PricingView.pass. now rewrite H.
  - now rewrite pricing_pass_stable.
Qed.

Lemma pricing_dispatch (e : PricingView.Event) (s : PricingView.State) :
  PricingView.dispatch e s = PricingView.pass (PricingView.handle e s).
Proof. apply pricing_settle. Qed.

Lemma pricing_pass_store (s : PricingView.State) :
  PricingView.store (PricingView.pass s) = PricingView.store s.
Proof. unfold PricingView.pass. now destruct (PricingView.stable s). Qed.

Lemma pricing_pass_filters (s : PricingView.State) :
  PricingView.filters (PricingView.pass s) = PricingView.filters s.
Proof. unfold PricingView.pass. now destruct (PricingView.stable s). Qed.

Lemma pricing_pass_view (s : PricingView.State) :
  PricingView.view (PricingView.pass s) = PricingView.view s.
Proof.
  unfold PricingView.view. now rewrite pricing_pass_store, pricing_pass_filters.
Qed.

(** ** PricingIntelligence: what every reachable state satisfies *)

Lemma pricing_stable_iff (s : PricingView.State) :
  PricingView.stable s = true
  <-> PricingView.reset_deps s = Some (PricingView.deps s).
Proof.
  unfold PricingView.stable. destruct (PricingView.reset_deps s) as [d |].
  - rewrite deps_eqb_eq. split; congruence.
  - split; discriminate.
Qed.

Lemma totalPages_pos (l : list PricingEntry) : l <> [] -> 1 <= totalPages l.
Proof.
  intros H. unfold totalPages, ITEMS_PER_PAGE.
  destruct l as [|a l]; [contradiction |]. cbn [List.length].
  apply Z.div_le_lower_bound; lia.
Qed.

Lemma page_in_range_nonempty (l : list PricingEntry) (p : Z) :
  l <> [] -> p = 1 \/ 1 <= p <= totalPages l -> paginatedResults l p <> [].
Proof.
  intros Hl Hp. pose proof (totalPages_pos l Hl) as Ht.
  assert (Hp' : 1 <= p <= totalPages l) by lia. clear Hp.
  assert (Hlen : Z.of_nat (List.length (paginatedResults l p))
                 = Z.min 15 (Z.max 0 (Z.of_nat (List.length l) - (p - 1) * 15))).
  { unfold paginatedResults, ITEMS_PER_PAGE.
    replace (p * 15) with ((p - 1) * 15 + 15) by lia.
    rewrite slice_window by lia. rewrite length_firstn, length_skipn. lia. }
  intros E. rewrite E in Hlen. cbn [List.length] in Hlen.
  unfold totalPages, ITEMS_PER_PAGE in *.
  assert (Hn : 0 < Z.of_nat (List.length l)).
  { destruct l; [contradiction | cbn [List.length]; lia]. }
  assert (Hd : p * 15 <= Z.of_nat (List.length l) + 15 - 1).
  { pose proof (Z.mul_div_le (Z.of_nat (List.length l) + 15 - 1) 15). nia. }
  lia.
Qed.

Lemma nonempty_length {A : Type} (l : list A) :
  negb (List.length l =? 0)%nat = true -> l <> [].
Proof. destruct l; [discriminate | discriminate]. Qed.

Lemma paginated_nonempty_view (l : list PricingEntry) (p : Z) :
  paginatedResults l p <> [] -> l <> [].
Proof.
  intros H ->. apply H. unfold paginatedResults, slice.
  now rewrite skipn_nil, firstn_nil.
Qed.

Lemma pricing_inv_mount : PricingView.invariant PricingView.mount.
Proof.
  unfold PricingView.invariant. cbn. repeat split; lia.
Qed.

(** A commit that changes neither the filters nor the store nor the page. *)
Lemma pricing_inv_pass (s : PricingView.State) :
  (PricingView.ref (PricingView.selectedDepts (PricingView.filters s))
   < PricingView.next_ref s)%nat ->
  (PricingView.ref (PricingView.selectedCities (PricingView.filters s))
   < PricingView.next_ref s)%nat ->
  (PricingView.pending (PricingView.store s) = true
   -> PricingView.data (PricingView.store s) = []) ->
  (PricingView.stable s = true ->
   PricingView.page s = 1 \/ 1 <= PricingView.page s <= PricingView.total_pages s) ->
  PricingView.invariant (PricingView.pass s).
Proof.
  intros Hd Hc Hp Hpage. unfold PricingView.invariant.
  pose proof (pricing_pass_stable s) as Hst. apply pricing_stable_iff in Hst.
  split; [exact Hst |].
  unfold PricingView.total_pages. rewrite pricing_pass_view.
  unfold PricingView.pass in *. destruct (PricingView.stable s); cbn.
  - repeat split; auto.
  - repeat split; auto.
Qed.

Lemma pricing_inv_step (s : PricingView.State) (e : PricingView.Event) :
  PricingView.invariant s -> PricingView.invariant (PricingView.dispatch e s).
Proof.
  intros [Hdeps [Hd [Hc [Hp Hpage]]]]. rewrite pricing_dispatch.
  assert (Hst : PricingView.stable s = true) by now apply pricing_stable_iff.
  assert (Hsame : PricingView.invariant (PricingView.pass s)).
  { apply pricing_inv_pass; auto. }
  assert (Hpass : PricingView.pass s = s).
  { unfold PricingView.pass. now rewrite Hst. }
  rewrite Hpass in Hsame.
  destruct e; cbn [PricingView.handle];
    repeat match goal with
           | |- context [if ?b then _ else _] =>
               destruct b eqn:?; [| rewrite Hpass; exact Hsame]
           end.
  - (* SetQuery *)
    apply pricing_inv_pass; cbn; auto.
    intros Hst'. apply pricing_stable_iff in Hst'. cbn in Hst'.
    rewrite Hdeps in Hst'. injection Hst' as Hq.
    unfold PricingView.total_pages, PricingView.view in *. cbn.
    now rewrite <- Hq.
  - (* ToggleDept *)
    apply pricing_inv_pass; cbn; auto; try lia.
    intros Hst'. apply pricing_stable_iff in Hst'. cbn in Hst'.
    rewrite Hdeps in Hst'. unfold PricingView.deps in Hst'.
    injection Hst'; intros; lia.
  - (* ToggleCity *)
    apply pricing_inv_pass; cbn; auto; try lia.
    intros Hst'. apply pricing_stable_iff in Hst'. cbn in Hst'.
    rewrite Hdeps in Hst'. unfold PricingView.deps in Hst'.
    injection Hst'; intros; lia.
  - (* ClearFilters *)
    apply pricing_inv_pass; cbn; auto; try lia.
    intros Hst'. apply pricing_stable_iff in Hst'. cbn in Hst'.
    rewrite Hdeps in Hst'. unfold PricingView.deps in Hst'.
    injection Hst'; intros; lia.
  - (* Prev *)
    apply pricing_inv_pass; cbn; auto. intros _.
    unfold PricingView.total_pages, PricingView.view in *. cbn.
    repeat match goal with
           | H : _ && _ = true |- _ => apply andb_true_iff in H as [? ?]
           end.
    match goal with H : negb (_ =? 1) = true |- _ =>
      apply negb_true_iff, Z.eqb_neq in H end.
    lia.
  - (* Next *)
    apply pricing_inv_pass; cbn; auto. intros _.
    repeat match goal with
           | H : _ && _ = true |- _ => apply andb_true_iff in H as [? ?]
           end.
    match goal with H : negb (_ =? PricingView.total_pages s) = true |- _ =>
      apply negb_true_iff, Z.eqb_neq in H end.
    match goal with H : PricingView.pager_shown s = true |- _ =>
      apply nonempty_length, paginated_nonempty_view, totalPages_pos in H end.
    unfold PricingView.total_pages, PricingView.view in *. cbn.
    lia.
  - (* ToggleSelection *)
    apply pricing_inv_pass; cbn; auto.
  - (* ClearSelection *)
    apply pricing_inv_pass; cbn; auto.
  - (* SetComparisonSearch *)
    apply pricing_inv_pass; cbn; auto.
  - (* Settle *)
    pose proof (Hp eq_refl) as Hnil.
    assert (Hp1 : PricingView.page s = 1).
    { destruct Hpage as [H1 | H1]; [exact H1 |].
      unfold PricingView.total_pages, PricingView.view in H1.
      rewrite Hnil in H1. cbn in H1. lia. }
    apply pricing_inv_pass; cbn; auto.
    + destruct o; cbn; discriminate.
  - (* Unmount *)
    apply pricing_inv_pass; cbn; auto.
Qed.

Lemma pricing_reachable_inv (s : PricingView.State) :
  PricingView.reachable s -> PricingView.invariant s.
Proof.
  induction 1 as [|s e _ IH]; [apply pricing_inv_mount | now apply pricing_inv_step].
Qed.

(** ** TestExplorer: commits *)

Lemma filters_eqb_eq (a b : Explorer.Filters) :
  Explorer.filters_eqb a b = true <-> a = b.
Proof.
  destruct a, b. unfold Explorer.filters_eqb. cbn.
  rewrite !andb_true_iff, !String.eqb_eq. split.
  - intros [[[[-> ->] ->] ->] ->]. reflexivity.
  - intros [= -> -> -> -> ->]. repeat split.
Qed.

Lemma filters_eqb_refl (a : Explorer.Filters) : Explorer.filters_eqb a a = true.
Proof. now apply filters_eqb_eq. Qed.

Lemma explorer_pass_twice (s : Explorer.State) :
  Explorer.stable (Explorer.pass (Explorer.pass s)) = true.
Proof.
  unfold Explorer.stable, Explorer.fetch_stable, Explorer.reset_stable.
  cbn. now rewrite !filters_eqb_refl, Z.eqb_refl.
Qed.

(** At most two rounds of effects settle a commit of [TestExplorer]. *)
Lemma explorer_settle (s : Explorer.State) :
  React.settle Explorer.stable Explorer.pass React.rounds s
  = if Explorer.stable s then s
    else if Explorer.stable (Explorer.pass s) then Explorer.pass s
         else Explorer.pass (Explorer.pass s).
Proof.
  unfold React.rounds. cbn [React.settle].
  destruct (Explorer.stable s); [reflexivity |].
  destruct (Explorer.stable (Explorer.pass s)); [reflexivity |].
  now rewrite explorer_pass_twice.
Qed.

Lemma explorer_settle_stable (s : Explorer.State) :
  Explorer.stable (React.settle Explorer.stable Explorer.pass React.rounds s) = true.
Proof.
  rewrite explorer_settle.
  destruct (Explorer.stable s) eqn:H; [exact H |].
  destruct (Explorer.stable (Explorer.pass s)) eqn:H'; [exact H' |].
  apply explorer_pass_twice.
Qed.

(** Effects touch neither the store nor the fetches under way. *)
Lemma explorer_settle_store (s : Explorer.State) :
  let s' := React.settle Explorer.stable Explorer.pass React.rounds s in
  Explorer.data s' = Explorer.data s
  /\ Explorer.error s' = Explorer.error s
  /\ Explorer.loading s' = Explorer.loading s
  /\ Explorer.inflight s' = Explorer.inflight s
  /\ Explorer.filters s' = Explorer.filters s.
Proof.
  cbv zeta. rewrite explorer_settle.
  destruct (Explorer.stable s); [repeat split |].
  destruct (Explorer.stable (Explorer.pass s)); repeat split.
Qed.

Lemma explorer_reachable_stable (s : Explorer.State) :
  Explorer.reachable s -> Explorer.stable s = true.
Proof. intros [c d sp di | s' e _]; apply explorer_settle_stable. Qed.

(** After an edit of a filter the page is 1 and the armed timer will ask for
    the first page of the new filter. *)
Lemma explorer_edit_resets (s : Explorer.State) (e : Explorer.Event) :
  Explorer.stable s = true -> Explorer.filter_edit s e ->
  Explorer.page (Explorer.dispatch e s) = 1
  /\ Explorer.timer (Explorer.dispatch e s)
     = Some (1, Explorer.filters (Explorer.handle e s)).
Proof.
  intros Hst Hedit. unfold Explorer.dispatch.
  set (s0 := Explorer.handle e s).
  assert (Hf : Explorer.filters s0 <> Explorer.filters s).
  { subst s0. destruct e; cbn in Hedit |- *; try contradiction;
      intros E; apply Hedit; now rewrite <- E. }
  assert (Hdeps : Explorer.reset_deps s0 = Explorer.reset_deps s
                  /\ Explorer.fetch_deps s0 = Explorer.fetch_deps s).
  { subst s0. destruct e; cbn in Hedit |- *; try contradiction; now split. }
  destruct Hdeps as [Hr Hfd].
  unfold Explorer.stable in Hst. apply andb_true_iff in Hst as [Hfs Hrs].
  unfold Explorer.reset_stable in Hrs. unfold Explorer.fetch_stable in Hfs.
  destruct (Explorer.reset_deps s) as [f |] eqn:Er; [| discriminate].
  destruct (Explorer.fetch_deps s) as [[p f'] |] eqn:Ef; [| discriminate].
  apply filters_eqb_eq in Hrs. subst f.
  apply andb_true_iff in Hfs as [_ Hfs]. apply filters_eqb_eq in Hfs. subst f'.
  assert (Hrs0 : Explorer.reset_stable s0 = false).
  { unfold Explorer.reset_stable. rewrite Hr.
    apply not_true_iff_false. intros E. apply filters_eqb_eq in E. congruence. }
  assert (Hfs0 : Explorer.fetch_stable s0 = false).
  { unfold Explorer.fetch_stable. rewrite Hfd.
    apply not_true_iff_false. intros E. apply andb_true_iff in E as [_ E].
    apply filters_eqb_eq in E. congruence. }
  assert (Hst0 : Explorer.stable s0 = false).
  { unfold Explorer.stable. now rewrite Hfs0. }
  assert (Hp1 : Explorer.page (Explorer.pass s0) = 1).
  { unfold Explorer.pass. cbn. now rewrite Hrs0. }
  assert (Ht1 : Explorer.timer (Explorer.pass s0)
                = Some (Explorer.page s0, Explorer.filters s0)).
  { unfold Explorer.pass. cbn. now rewrite Hfs0. }
  assert (Hrs1 : Explorer.reset_stable (Explorer.pass s0) = true).
  { unfold Explorer.reset_stable. cbn. apply filters_eqb_refl. }
  rewrite explorer_settle, Hst0.
  destruct (Explorer.stable (Explorer.pass s0)) eqn:Hst1.
  - split; [exact Hp1 |]. rewrite Ht1.
    unfold Explorer.stable, Explorer.fetch_stable in Hst1. cbn in Hst1.
    rewrite Hrs0 in Hst1.
    apply andb_true_iff in Hst1 as [Hst1 _].
    apply andb_true_iff in Hst1 as [Hst1 _]. apply Z.eqb_eq in Hst1.
    now rewrite Hst1.
  - unfold Explorer.stable in Hst1. rewrite Hrs1, andb_true_r in Hst1.
    split.
    + unfold Explorer.pass at 1. cbn [Explorer.page]. now rewrite Hrs1.
    + unfold Explorer.pass at 1. cbn [Explorer.timer]. rewrite Hst1.
      now rewrite Hp1.
Qed.

(** ** Page reset *)

Lemma pricing_edit_unstable (s : PricingView.State) (e : PricingView.Event) :
  PricingView.invariant s -> PricingView.filter_edit s e ->
  PricingView.stable (PricingView.handle e s) = false.
Proof.
  intros [Hdeps [Hd [Hc _]]] [Hr Hedit].
  apply not_true_iff_false. intros Hst. apply pricing_stable_iff in Hst.
  destruct e; cbn in Hedit; try contradiction;
    cbn [PricingView.handle] in Hst; rewrite Hr in Hst;
    try (rewrite Hedit in Hst); cbn in Hst; rewrite Hdeps in Hst;
    unfold PricingView.deps in Hst; injection Hst; intros; try lia.
  congruence.
Qed.

(** C7. In [PricingIntelligence], after every edit of the query, of the
    selected departments or of the selected cities the page is 1, and in
    every reachable state a non-empty filtered view shows a non-empty page.
    In [TestExplorer], after every edit of a filter the page is 1 and the
    request being debounced asks for the first page. *)
Theorem page_reset_on_filter_edit :
  (forall s e,
      PricingView.reachable s -> PricingView.filter_edit s e ->
      PricingView.page (PricingView.dispatch e s) = 1)
  /\ (forall s,
         PricingView.reachable s -> PricingView.view s <> [] ->
         PricingView.visible_page s <> [])
  /\ (forall s e,
         Explorer.reachable s -> Explorer.filter_edit s e ->
         Explorer.page (Explorer.dispatch e s) = 1
         /\ Explorer.timer (Explorer.dispatch e s)
            = Some (1, Explorer.filters (Explorer.dispatch e s))).
Proof.
  split; [| split].
  - intros s e Hreach Hedit. apply pricing_reachable_inv in Hreach.
    rewrite pricing_dispatch. unfold PricingView.pass.
    now rewrite (pricing_edit_unstable s e Hreach Hedit).
  - intros s Hreach Hview. apply pricing_reachable_inv in Hreach.
    destruct Hreach as [_ [_ [_ [_ Hpage]]]].
    now apply page_in_range_nonempty.
  - intros s e Hreach Hedit. apply explorer_reachable_stable in Hreach.
    destruct (explorer_edit_resets s e Hreach Hedit) as [Hp Ht].
    split; [exact Hp |]. rewrite Ht. do 2 f_equal.
    symmetry. apply explorer_settle_store.
Qed.

(** ** Failed fetches *)

(** C9. A fetch that fails leaves the data of its component as it was and
    leaves the other component untouched; the component that was waiting for
    it (and is still mounted) shows its error message. *)
Theorem transport_failure_keeps_store :
  (forall a,
      App.pricing_data (App.pricing_fetch_fails a) = App.pricing_data a
      /\ App.tests (App.pricing_fetch_fails a) = App.tests a
      /\ (App.pricing_awaited a ->
          App.pricing_error (App.pricing_fetch_fails a)
          = Some PricingView.fetch_error))
  /\ (forall a fetch o,
         Explorer.failed o = true ->
         Explorer.data (App.tests (App.tests_fetch_ends fetch o a))
         = Explorer.data (App.tests a)
         /\ App.pricing (App.tests_fetch_ends fetch o a) = App.pricing a
         /\ (Explorer.is_inflight (App.tests a) fetch = true ->
             Explorer.error (App.tests (App.tests_fetch_ends fetch o a))
             = Some Explorer.fetch_error)).
Proof.
  split.
  - intros a.
    unfold App.pricing_data, App.pricing_error, App.pricing_fetch_fails,
      App.pricing_awaited.
    cbn [App.dispatch App.pricing App.tests].
    rewrite pricing_dispatch, pricing_pass_store. cbn [PricingView.handle].
    split; [| split; [reflexivity |]].
    + now destruct (PricingView.pending (PricingView.store (App.pricing a))).
    + intros [-> Hab]. cbn. now rewrite Hab.
  - intros a fetch o Hfail. unfold App.tests_fetch_ends.
    cbn [App.dispatch App.pricing App.tests].
    unfold Explorer.dispatch.
    destruct (explorer_settle_store
                (Explorer.handle (Explorer.Settle fetch o) (App.tests a)))
      as [-> [-> _]].
    cbn [Explorer.handle]. split; [| split; [reflexivity |]].
    + destruct (Explorer.is_inflight (App.tests a) fetch); [| reflexivity].
      now destruct o.
    + intros ->. now destruct o.
Qed.

(** ** Responses out of order *)

(** A successful response replaces the store whenever its fetch is still
    under way, whether or not a later fetch has been issued or has settled. *)
Lemma response_replaces_store (s : Explorer.State) (fetch : nat)
    (json : Explorer.PaginationEnvelope) :
  Explorer.is_inflight s fetch = true ->
  Explorer.data (Explorer.dispatch (Explorer.Settle fetch (Explorer.Ok json)) s)
  = Some json.
Proof.
  intros H. unfold Explorer.dispatch.
  destruct (explorer_settle_store
              (Explorer.handle (Explorer.Settle fetch (Explorer.Ok json)) s))
    as [-> _].
  cbn [Explorer.handle]. now rewrite H.
Qed.

(** C2 on the race of [Scenarios]: once the query is edited, fetch 0 is not
    cancelled and both fetches are under way; the answer to the superseded
    fetch 0, arriving last, replaces the answer to fetch 1, so the store
    holds the unfiltered catalogue under the query [cbc]. *)
Theorem late_response_overwrites :
  Explorer.inflight (Explorer.run Scenarios.supersede Scenarios.start)
  = [(0%nat, [("limit", "15"); ("offset", "0"); ("cityId", "GRL0001")]);
     (1%nat, [("limit", "15"); ("offset", "0"); ("q", "cbc");
              ("cityId", "GRL0001")])]%string
  /\ Explorer.query (Explorer.filters (Explorer.run Scenarios.race Scenarios.start))
     = "cbc"%string
  /\ Explorer.data (Explorer.run Scenarios.race Scenarios.start)
     = Some Scenarios.unfiltered
  /\ Explorer.data (Explorer.run Scenarios.race Scenarios.start)
     <> Some Scenarios.for_cbc.
Proof.
  repeat split; try reflexivity. vm_compute. discriminate.
Qed.

(** ** The theorems at work on the sample sessions *)

Lemma page_reset_on_filter_edit_witness :
  PricingView.page Scenarios.browsing = 2
  /\ PricingView.page
       (PricingView.dispatch (PricingView.SetQuery "cbc") Scenarios.browsing) = 1.
Proof.
  split; [reflexivity |].
  apply (proj1 page_reset_on_filter_edit).
  - unfold Scenarios.browsing. repeat constructor.
  - split; [reflexivity | discriminate].
Defined.

Lemma toggleSelection_involution_witness :
  toggleSelection "LFT01" ["CBC01"%string] = ["CBC01"; "LFT01"]%string
  /\ toggleSelection "LFT01" (toggleSelection "LFT01" ["CBC01"%string])
     = ["CBC01"%string].
Proof.
  apply (proj2 (proj2 toggleSelection_involution) ["CBC01"%string] "LFT01"%string).
  reflexivity.
Defined.

Lemma transport_failure_keeps_store_witness :
  Explorer.error
    (App.tests
       (App.tests_fetch_ends 0 (Explorer.HttpError 500) Scenarios.both_pages))
  = Some Explorer.fetch_error.
Proof.
  apply (proj2 transport_failure_keeps_store Scenarios.both_pages 0%nat
           (Explorer.HttpError 500) eq_refl).
  reflexivity.
Defined.

(** ** Numeric summary over at least one price *)

Lemma positive_shape (p : number) :
  positive p -> p = PosInf \/ exists q, p = Fin q /\ (0 < q)%Q.
Proof.
  unfold positive. destruct p as [| | |q]; cbn; try discriminate; [now left |].
  intros H. right. exists q. split; [reflexivity |].
  apply negb_true_iff in H. apply Qnot_le_lt. intros Hle.
  apply Qle_bool_iff in Hle. change (inject_Z 0) with 0%Q in H. congruence.
Qed.

Lemma positive_truthy (p : number) : positive p -> truthy p = true.
Proof.
  intros H. destruct (positive_shape p H) as [-> | [q [-> Hq]]]; [reflexivity |].
  cbn. apply negb_true_iff, Z.eqb_neq. intros E.
  unfold Qlt in Hq. cbn in Hq. lia.
Qed.

Lemma positive_not_nan (p : number) : positive p -> isNaN p = false.
Proof. unfold positive. now destruct p. Qed.

Lemma prices_included (fd : list PricingEntry) (p : number) :
  In p (prices fd) <-> included fd p.
Proof.
  unfold prices, included. rewrite filter_In, in_map_iff, andb_true_iff. split.
  - intros [[d [E Hd]] [_ Hpos]]. exists d. split; [exact Hd |].
    split; [| exact Hpos]. subst p. unfold price_of, or_else in *.
    destruct (truthy (parseFloat (mrp d))); [reflexivity | discriminate].
  - intros [d [Hd [E Hpos]]]. split; [| split].
    + exists d. split; [| exact Hd]. unfold price_of, or_else.
      rewrite E. now rewrite (positive_truthy p Hpos).
    + apply negb_true_iff. now apply positive_not_nan.
    + exact Hpos.
Qed.

Lemma gt_asym (a b : number) : gt a b = true -> gt b a = false.
Proof.
  destruct a as [| | |x], b as [| | |y]; cbn; try reflexivity; try discriminate.
  intros H. apply negb_true_iff in H. apply negb_false_iff, Qle_bool_iff.
  apply Qlt_le_weak, Qnot_le_lt. intros Hle. apply Qle_bool_iff in Hle. congruence.
Qed.

Lemma not_above_trans (a b c : number) :
  isNaN b = false -> not_above a b -> not_above b c -> not_above a c.
Proof.
  unfold not_above.
  destruct a as [| | |x], b as [| | |y], c as [| | |z]; cbn;
    try reflexivity; try discriminate.
  intros _ H1 H2. apply negb_false_iff in H1, H2. apply negb_false_iff.
  apply Qle_bool_iff in H1, H2. apply Qle_bool_iff. now apply Qle_trans with y.
Qed.

Lemma not_above_refl (a : number) : not_above a a.
Proof.
  unfold not_above. destruct a as [| | |x]; cbn; try reflexivity.
  apply negb_false_iff, Qle_bool_iff, Qle_refl.
Qed.

Lemma min2_spec (a x : number) :
  isNaN a = false -> isNaN x = false ->
  (min2 a x = a \/ min2 a x = x)
  /\ isNaN (min2 a x) = false
  /\ not_above (min2 a x) a /\ not_above (min2 a x) x.
Proof.
  intros Ha Hx. unfold min2. rewrite Ha, Hx. cbn [orb].
  destruct (gt a x) eqn:H.
  - repeat split; [now right | exact Hx | now apply gt_asym | apply not_above_refl].
  - repeat split; [now left | exact Ha | apply not_above_refl | exact H].
Qed.

Lemma max2_spec (a x : number) :
  isNaN a = false -> isNaN x = false ->
  (max2 a x = a \/ max2 a x = x)
  /\ isNaN (max2 a x) = false
  /\ not_above a (max2 a x) /\ not_above x (max2 a x).
Proof.
  intros Ha Hx. unfold max2. rewrite Ha, Hx. cbn [orb].
  destruct (gt x a) eqn:H.
  - repeat split; [now right | exact Hx | now apply gt_asym | apply not_above_refl].
  - repeat split; [now left | exact Ha | apply not_above_refl | exact H].
Qed.

Lemma min_fold (l : list number) (a : number) :
  isNaN a = false -> Forall (fun x => isNaN x = false) l ->
  In (fold_left min2 l a) (a :: l)
  /\ not_above (fold_left min2 l a) a
  /\ forall x, In x l -> not_above (fold_left min2 l a) x.
Proof.
  intros Ha Hl. revert a Ha.
  induction Hl as [|x l Hx _ IH]; intros a Ha; cbn [fold_left].
  - split; [now left | split; [apply not_above_refl | intros x []]].
  - destruct (min2_spec a x Ha Hx) as [Hsel [Hn [Hle_a Hle_x]]].
    destruct (IH (min2 a x) Hn) as [Hin [Hle Hall]].
    split; [| split].
    + destruct Hin as [E | Hin]; [| right; now right].
      rewrite <- E. destruct Hsel as [-> | ->]; [now left | right; now left].
    + now apply not_above_trans with (min2 a x).
    + intros y [<- | Hy]; [now apply not_above_trans with (min2 a x) | now apply Hall].
Qed.

Lemma max_fold (l : list number) (a : number) :
  isNaN a = false -> Forall (fun x => isNaN x = false) l ->
  In (fold_left max2 l a) (a :: l)
  /\ not_above a (fold_left max2 l a)
  /\ forall x, In x l -> not_above x (fold_left max2 l a).
Proof.
  intros Ha Hl. revert a Ha.
  induction Hl as [|x l Hx _ IH]; intros a Ha; cbn [fold_left].
  - split; [now left | split; [apply not_above_refl | intros x []]].
  - destruct (max2_spec a x Ha Hx) as [Hsel [Hn [Hle_a Hle_x]]].
    destruct (IH (max2 a x) Hn) as [Hin [Hle Hall]].
    split; [| split].
    + destruct Hin as [E | Hin]; [| right; now right].
      rewrite <- E. destruct Hsel as [-> | ->]; [now left | right; now left].
    + now apply not_above_trans with (max2 a x).
    + intros y [<- | Hy]; [now apply not_above_trans with (max2 a x) | now apply Hall].
Qed.

(** Over a non-empty list of numbers, [Math.min] picks a least member. *)
Lemma Math_min_least (l : list number) :
  l <> [] -> Forall (fun x => isNaN x = false) l ->
  In (Math_min l) l /\ forall x, In x l -> not_above (Math_min l) x.
Proof.
  intros Hne Hl. destruct l as [|x l]; [contradiction |].
  inversion Hl as [|? ? Hx Hl']; subst.
  assert (E : Math_min (x :: l) = fold_left min2 l x).
  { unfold Math_min. cbn [fold_left]. f_equal. unfold min2. rewrite Hx. cbn.
    now destruct x. }
  rewrite E. destruct (min_fold l x Hx Hl') as [Hin [Hle Hall]].
  split; [exact Hin |]. intros y [<- | Hy]; [exact Hle | now apply Hall].
Qed.

Lemma Math_max_greatest (l : list number) :
  l <> [] -> Forall (fun x => isNaN x = false) l ->
  In (Math_max l) l /\ forall x, In x l -> not_above x (Math_max l).
Proof.
  intros Hne Hl. destruct l as [|x l]; [contradiction |].
  inversion Hl as [|? ? Hx Hl']; subst.
  assert (E : Math_max (x :: l) = fold_left max2 l x).
  { unfold Math_max. cbn [fold_left]. f_equal. unfold max2. rewrite Hx. cbn.
    now destruct x. }
  rewrite E. destruct (max_fold l x Hx Hl') as [Hin [Hle Hall]].
  split; [exact Hin |]. intros y [<- | Hy]; [exact Hle | now apply Hall].
Qed.

(** A sum of positive numbers is finite or +Infinity. *)
Lemma sum_shape (l : list number) (a : number) :
  (a = PosInf \/ exists q, a = Fin q) -> Forall positive l ->
  fold_left add l a = PosInf \/ exists q, fold_left add l a = Fin q.
Proof.
  intros Ha Hl. revert a Ha. induction Hl as [|x l Hx _ IH]; intros a Ha;
    cbn [fold_left]; [exact Ha |].
  apply IH.
  destruct (positive_shape x Hx) as [-> | [q [-> _]]],
    Ha as [-> | [r ->]]; cbn; eauto.
Qed.

Lemma avg_fallback_idle (l : list number) :
  l <> [] -> Forall positive l ->
  calc_avgPrice l = Math_round (div (sum l) (of_nat (List.length l))).
Proof.
  intros Hne Hl. unfold calc_avgPrice, sum.
  assert (Hn : (Z.of_nat (List.length l) =? 0) = false).
  { apply Z.eqb_neq. destruct l; [contradiction | cbn [List.length]; lia]. }
  assert (Hpos : 0 < Z.of_nat (List.length l)).
  { apply Z.eqb_neq in Hn. lia. }
  set (n := Z.of_nat (List.length l)) in *.
  destruct (sum_shape l (of_Z 0)) as [E | [q E]];
    [right; now exists (inject_Z 0) | exact Hl | |]; rewrite E.
  - unfold of_nat, of_Z, div. fold n. cbn [inject_Z Qnum sign].
    rewrite Hn. replace (Z.sgn n) with 1 by lia. reflexivity.
  - unfold of_nat, of_Z, div. fold n. cbn [inject_Z Qnum]. rewrite Hn.
    cbn [Math_round]. unfold or_else, of_Z, truthy. cbn [inject_Z Qnum].
    destruct (Z.eqb_spec (Qfloor (Qred (q / inject_Z n) + (1 # 2))) 0) as [-> | _];
      reflexivity.
Qed.



(** ** The scenarios of the specification *)

(** The query [cbc] with the department [Hematology] selected keeps the one
    matching record; its summary is 350 three times and its histogram is the
    single bucket from 0. *)
Theorem scenario_cbc_hematology :
  filteredData catalog "cbc" ["Hematology"%string] []
  = [entry "CBC01" "Complete Blood Count" "Hematology" "350"]
  /\ exists m,
       analytics (filteredData catalog "cbc" ["Hematology"%string] []) = Some m
       /\ avgPrice m = of_Z 350 /\ minPrice m = of_Z 350 /\ maxPrice m = of_Z 350
       /\ map bucket_count (distribution m) = [1%nat]
       /\ distribution_ranges
            (prices (filteredData catalog "cbc" ["Hematology"%string] []))
          = [(of_Z 0, 1%nat)].
Proof.
  split; [reflexivity |]. eexists. split; [reflexivity |].
  repeat split; reflexivity.
Qed.

(** An empty filtered view has no analytics and an empty page, whatever the
    page number. *)
Theorem empty_view_views :
  analytics [] = None /\ forall page, paginatedResults [] page = [].
Proof.
  split; [reflexivity |]. intros page. unfold paginatedResults, slice.
  now rewrite skipn_nil, firstn_nil.
Qed.

(** ** The page stays within the pages of the view *)

(** X4. In every reachable state of [PricingIntelligence] the page is at least 1
    and, unless it is 1, at most the number of pages of the filtered view. *)
Theorem pricing_page_in_range (s : PricingView.State) :
  PricingView.reachable s ->
  1 <= PricingView.page s
  /\ (PricingView.page s = 1 \/ PricingView.page s <= PricingView.total_pages s).
Proof.
  intros H. apply pricing_reachable_inv in H.
  destruct H as [_ [_ [_ [_ [H | H]]]]]; split; try lia.
Qed.

Lemma pricing_page_in_range_witness :
  1 <= PricingView.page Scenarios.browsing
  /\ (PricingView.page Scenarios.browsing = 1
      \/ PricingView.page Scenarios.browsing
         <= PricingView.total_pages Scenarios.browsing).
Proof.
  apply (pricing_page_in_range Scenarios.browsing).
  unfold Scenarios.browsing. repeat constructor.
Defined.

(** ** The filter check boxes *)

(** X5. Toggling a value in a selected list appends it when absent, removes it
    when present, and leaves the membership of every other value alone. *)
Theorem toggleFilter_membership :
  (forall l x, ~ In x l -> toggleFilter l x = l ++ [x])
  /\ (forall l x, In x l -> ~ In x (toggleFilter l x))
  /\ (forall l x y, y <> x -> (In y (toggleFilter l x) <-> In y l)).
Proof.
  split; [| split].
  - intros l x H. unfold toggleFilter.
    destruct (arr_includes l x) eqn:E; [| reflexivity].
    apply arr_includes_iff in E. contradiction.
  - intros l x H. unfold toggleFilter.
    apply arr_includes_iff in H. rewrite H. rewrite filter_In.
    intros [_ E]. apply negb_true_iff in E. now rewrite String.eqb_refl in E.
  - intros l x y Hyx. unfold toggleFilter. destruct (arr_includes l x).
    + rewrite filter_In, negb_true_iff. split; [tauto |].
      intros H. split; [exact H | now apply String.eqb_neq].
    + rewrite in_app_iff. cbn [In]. split; [| tauto].
      intros [H | [E | []]]; [exact H | congruence].
Qed.

(** ** The debounced request *)

Lemma explorer_handle_deps (e : Explorer.Event) (s : Explorer.State) :
  Explorer.fetch_deps (Explorer.handle e s) = Explorer.fetch_deps s
  /\ (Explorer.timer (Explorer.handle e s) = Explorer.timer s
      \/ Explorer.timer (Explorer.handle e s) = None).
Proof.
  destruct e; cbn [Explorer.handle];
    repeat match goal with
           | |- context [if ?b then _ else _] => destruct b
           | |- context [match Explorer.timer s with _ => _ end] =>
               destruct (Explorer.timer s) as [[? ?] |] eqn:?
           end; cbn; auto.
Qed.

Lemma explorer_settle_timer (s0 : Explorer.State) :
  (Explorer.fetch_stable s0 = true -> Scenarios.timer_current s0) ->
  Scenarios.timer_current
    (React.settle Explorer.stable Explorer.pass React.rounds s0).
Proof.
  intros H0. rewrite explorer_settle.
  destruct (Explorer.stable s0) eqn:Hst.
  - apply H0. unfold Explorer.stable in Hst. now apply andb_true_iff in Hst.
  - assert (Hrs1 : Explorer.reset_stable (Explorer.pass s0) = true).
    { unfold Explorer.reset_stable. cbn. apply filters_eqb_refl. }
    destruct (Explorer.stable (Explorer.pass s0)) eqn:Hst1.
    + unfold Explorer.stable in Hst1. rewrite Hrs1, andb_true_r in Hst1.
      unfold Explorer.fetch_stable in Hst1. cbn in Hst1.
      apply andb_true_iff in Hst1 as [Hp _]. apply Z.eqb_eq in Hp.
      intros p f Ht. cbn in Ht |- *. rewrite <- Hp.
      destruct (Explorer.fetch_stable s0) eqn:Hfs.
      * now apply H0.
      * injection Ht as <- <-. now split.
    + unfold Explorer.stable in Hst1. rewrite Hrs1, andb_true_r in Hst1.
      intros p f Ht. unfold Explorer.pass at 1 in Ht. cbn [Explorer.timer] in Ht.
      rewrite Hst1 in Ht. injection Ht as <- <-.
      unfold Explorer.pass at 1 3. cbn [Explorer.page Explorer.filters].
      rewrite Hrs1. now split.
Qed.

(** X6. In every reachable state of [TestExplorer] the armed timer carries the
    current page and filters, so the request that leaves when it fires is
    the one for the filter state of that moment. *)
Theorem explorer_timer_current (s : Explorer.State) :
  Explorer.reachable s ->
  Scenarios.timer_current s
  /\ forall p f,
       Explorer.timer s = Some (p, f) ->
       Explorer.inflight (Explorer.dispatch Explorer.TimerFires s)
       = Explorer.inflight s
         ++ [(Explorer.next_id s,
              Explorer.request_of (Explorer.page s) (Explorer.filters s))].
Proof.
  intros Hreach.
  assert (Hcur : Scenarios.timer_current s).
  { induction Hreach as [c d sp di | s e Hreach IH].
    - apply explorer_settle_timer. discriminate.
    - apply explorer_settle_timer. intros Hfs.
      apply explorer_reachable_stable in Hreach.
      unfold Explorer.stable in Hreach. apply andb_true_iff in Hreach as [Hs _].
      destruct (explorer_handle_deps e s) as [Hd Ht].
      unfold Explorer.fetch_stable in Hfs, Hs. rewrite Hd in Hfs.
      destruct (Explorer.fetch_deps s) as [[p0 f0] |]; [| discriminate].
      apply andb_true_iff in Hfs as [Hp Hf], Hs as [Hp' Hf'].
      apply Z.eqb_eq in Hp, Hp'. apply filters_eqb_eq in Hf, Hf'.
      intros p f Htimer. rewrite <- Hp, <- Hf, Hp', Hf'.
      destruct Ht as [Ht | Ht]; rewrite Ht in Htimer; [now apply IH | discriminate]. }
  split; [exact Hcur |].
  intros p f Ht. destruct (Hcur p f Ht) as [-> ->].
  unfold Explorer.dispatch.
  destruct (explorer_settle_store (Explorer.handle Explorer.TimerFires s))
    as [_ [_ [_ [-> _]]]].
  cbn [Explorer.handle]. now rewrite Ht.
Qed.

Lemma explorer_timer_current_witness :
  Explorer.inflight (Explorer.dispatch Explorer.TimerFires Scenarios.start)
  = [(0%nat, Explorer.request_of 1 (Explorer.filters Scenarios.start))].
Proof.
  apply (proj2 (explorer_timer_current Scenarios.start (Explorer.reach_mount _ _ _ _))
           1 (Explorer.filters Scenarios.start)).
  reflexivity.
Defined.

(* ================================================================== *)
(** * The remaining views: pages, vocabularies, comparison, centers *)
(* ================================================================== *)

(** ** Strings *)

Lemma string_app_assoc (a b c : string) :
  ((a ++ b) ++ c = a ++ (b ++ c))%string.
Proof. induction a as [|x a IH]; simpl; [reflexivity | now rewrite IH]. Qed.

Lemma string_length_app (a b : string) :
  String.length (a ++ b) = (String.length a + String.length b)%nat.
Proof. induction a as [|x a IH]; simpl; [reflexivity | now rewrite IH]. Qed.

Lemma includes_trans (s m q : string) :
  includes s m = true -> includes m q = true -> includes s q = true.
Proof.
  rewrite !includes_iff. intros [a [b ->]] [c [d ->]].
  exists (a ++ c)%string, (d ++ b)%string.
  now rewrite !string_app_assoc.
Qed.

Lemma substring0_length (n : nat) (s : string) :
  (n <= String.length s)%nat -> String.length (JSMore.substring0 n s) = n.
Proof.
  unfold JSMore.substring0. revert s. induction n as [|n IH]; intros s H.
  - destruct s; reflexivity.
  - destruct s as [|c s]; simpl in *; [lia |]. rewrite IH by lia. reflexivity.
Qed.

Lemma substring0_prefix (n : nat) (s : string) :
  exists rest, s = (JSMore.substring0 n s ++ rest)%string.
Proof.
  unfold JSMore.substring0. revert s. induction n as [|n IH]; intros s.
  - exists s. destruct s; reflexivity.
  - destruct s as [|c s]; simpl.
    + now exists EmptyString.
    + destruct (IH s) as [rest H]. exists rest. now rewrite <- H.
Qed.

(** ** The pages of a view *)

Lemma firstn_add_skipn {A : Type} (a b : nat) (l : list A) :
  firstn (a + b) l = firstn a l ++ firstn b (skipn a l).
Proof.
  revert l. induction a as [|a IH]; intros l; [reflexivity |].
  destruct l as [|x l]; simpl.
  - now rewrite firstn_nil.
  - now rewrite IH.
Qed.

Lemma skipn_add {A : Type} (a b : nat) (l : list A) :
  skipn (a + b) l = skipn b (skipn a l).
Proof.
  revert l. induction a as [|a IH]; intros l; [reflexivity |].
  destruct l as [|x l]; simpl; [now rewrite skipn_nil | apply IH].
Qed.

Lemma paginatedResults_nat (view : list PricingEntry) (p : nat) :
  paginatedResults view (Z.of_nat (S p)) = firstn 15 (skipn (p * 15) view).
Proof.
  unfold paginatedResults, ITEMS_PER_PAGE.
  replace (Z.of_nat (S p) * 15) with ((Z.of_nat (S p) - 1) * 15 + 15) by lia.
  rewrite slice_window by lia. do 2 f_equal. lia.
Qed.

Lemma pages_from (view : list PricingEntry) (n k : nat) :
  flat_map (paginatedResults view) (map Z.of_nat (seq (S k) n))
  = firstn (n * 15) (skipn (k * 15) view).
Proof.
  revert k. induction n as [|n IH]; intros k; [reflexivity |].
  cbn [seq map flat_map]. rewrite IH, paginatedResults_nat.
  replace (S n * 15)%nat with (15 + n * 15)%nat by lia.
  rewrite firstn_add_skipn. f_equal. f_equal.
  replace (S k * 15)%nat with (k * 15 + 15)%nat by lia.
  apply skipn_add.
Qed.

(** X7. The pages 1 to [totalPages] cut the filtered view without loss or
    overlap: read one after the other they give back the view, record for
    record and in order, and none of them is empty. *)
Theorem pages_partition (view : list PricingEntry) :
  flat_map (paginatedResults view) (PricingMore.all_pages view) = view
  /\ forall p, In p (PricingMore.all_pages view) -> paginatedResults view p <> [].
Proof.
  unfold PricingMore.all_pages. split.
  - rewrite (pages_from view _ 0). cbn [Nat.mul skipn].
    apply firstn_all2. unfold totalPages, ITEMS_PER_PAGE.
    pose proof (Z.mul_succ_div_gt (Z.of_nat (List.length view) + 15 - 1) 15).
    pose proof (Z.div_pos (Z.of_nat (List.length view) + 15 - 1) 15).
    lia.
  - intros p Hp. apply in_map_iff in Hp. destruct Hp as [n [<- Hn]].
    apply in_seq in Hn.
    assert (Hne : view <> []).
    { intros ->. cbn in Hn. lia. }
    apply page_in_range_nonempty; [assumption | right].
    pose proof (totalPages_pos view Hne). lia.
Qed.

(** ** Refining a filter *)

Lemma filter_all {A : Type} (p : A -> bool) (l : list A) :
  (forall x, In x l -> p x = true) -> filter p l = l.
Proof.
  induction l as [|a l IH]; intros H; [reflexivity |]. cbn [filter].
  rewrite (H a (or_introl eq_refl)). f_equal. apply IH.
  intros x Hx. apply H. now right.
Qed.

Lemma filter_refine {A : Type} (p p' : A -> bool) (l : list A) :
  (forall x, p' x = true -> p x = true) ->
  filter p' l = filter p' (filter p l).
Proof.
  intros H. induction l as [|a l IH]; [reflexivity |]. cbn [filter].
  destruct (p' a) eqn:E'.
  - rewrite (H a E'). cbn [filter]. rewrite E'. now f_equal.
  - destruct (p a); [cbn [filter]; rewrite E' |]; exact IH.
Qed.

Lemma matchesSearch_longer (q q' : string) (item : PricingEntry) :
  includes (toLowerCase q') (toLowerCase q) = true ->
  matchesSearch q' item = true -> matchesSearch q item = true.
Proof.
  intros Hq. unfold matchesSearch. rewrite !orb_true_iff.
  intros [H | H]; [left | right]; exact (includes_trans _ _ _ H Hq).
Qed.

Lemma matchesDept_more (depts : list string) (d : string) (item : PricingEntry) :
  depts <> [] ->
  matchesDept depts item = true -> matchesDept (depts ++ [d]) item = true.
Proof.
  intros Hne. unfold matchesDept. rewrite !orb_true_iff, !arr_includes_iff.
  intros [H | H].
  - apply length_zero_iff in H. contradiction.
  - right. apply in_or_app. now left.
Qed.

Lemma matchesCity_more (cities : list string) (c : string) (item : PricingEntry) :
  cities <> [] ->
  matchesCity cities item = true -> matchesCity (cities ++ [c]) item = true.
Proof.
  intros Hne. unfold matchesCity. rewrite !orb_true_iff, !arr_includes_iff.
  intros [H | H].
  - apply length_zero_iff in H. contradiction.
  - right. apply in_or_app. now left.
Qed.


(** ** The comparison chart and its chips *)

Lemma comparisonData_codes (data : list PricingEntry) (selected : StrSet) :
  map PricingMore.row_code (PricingMore.comparisonData data selected)
  = filter (set_has selected) (map test_code data).
Proof.
  unfold PricingMore.comparisonData.
  destruct (set_size selected =? 0)%nat eqn:E.
  - apply length_zero_iff in E. subst selected.
    induction data as [|d data IH]; [reflexivity | exact IH].
  - clear E. induction data as [|d data IH]; [reflexivity |].
    cbn [filter map]. destruct (set_has selected (test_code d)); cbn [map].
    + now rewrite IH.
    + exact IH.
Qed.

Lemma comparisonData_in (data : list PricingEntry) (selected : StrSet)
    (r : PricingMore.ComparisonRow) :
  In r (PricingMore.comparisonData data selected) ->
  exists d, In d data /\ set_has selected (test_code d) = true
            /\ r = PricingMore.comparison_row d.
Proof.
  unfold PricingMore.comparisonData.
  destruct (set_size selected =? 0)%nat; [intros [] |].
  rewrite in_map_iff. intros [d [<- Hd]]. apply filter_In in Hd.
  exists d. now repeat split.
Qed.

Lemma or_else_not_nan (x : number) : isNaN (or_else x (of_Z 0)) = false.
Proof. unfold or_else. destruct x; cbn; try reflexivity. now destruct (negb _). Qed.


(** X10. Picking a suggestion of the typeahead: a record is offered only
    while its code is unselected; once its code is toggled, the record is a
    row of the comparison chart and no record of that code is offered any
    more. *)
Theorem suggestion_pick (data : list PricingEntry) (search : string)
    (selected : StrSet) (d : PricingEntry) :
  In d (comparisonResults data search selected) ->
  set_has selected (test_code d) = false
  /\ In (PricingMore.comparison_row d)
        (PricingMore.comparisonData data (toggleSelection (test_code d) selected))
  /\ forall r,
       In r (comparisonResults data search (toggleSelection (test_code d) selected)) ->
       test_code r <> test_code d.
Proof.
  intros Hd.
  assert (Hin : forall sel r, In r (comparisonResults data search sel) ->
                  In r data /\ set_has sel (test_code r) = false).
  { intros sel r. unfold comparisonResults.
    destruct (negb (str_truthy (trim search))); [intros [] |].
    rewrite slice_from_zero by lia. intros H. apply firstn_in in H.
    apply filter_In in H. destruct H as [H1 H2].
    apply andb_true_iff in H2. destruct H2 as [_ H2].
    apply negb_true_iff in H2. now split. }
  destruct (Hin _ _ Hd) as [Hdata Hfree].
  assert (Hsel : toggleSelection (test_code d) selected = selected ++ [test_code d]).
  { unfold toggleSelection, set_add. now rewrite Hfree. }
  assert (Hhas : set_has (selected ++ [test_code d]) (test_code d) = true).
  { apply set_has_iff, in_or_app. right. now left. }
  split; [exact Hfree |]. rewrite Hsel. split.
  - unfold PricingMore.comparisonData, set_size. rewrite length_app.
    cbn [List.length]. replace (_ =? 0)%nat with false
      by (symmetry; apply Nat.eqb_neq; lia).
    apply in_map, filter_In. now split.
  - intros r Hr E. destruct (Hin _ _ Hr) as [_ Hr']. rewrite E in Hr'. congruence.
Qed.

Lemma suggestion_pick_witness :
  In (entry "CBC01" "Complete Blood Count" "Hematology" "350")
     (comparisonResults catalog "cbc" set_new)
  /\ In (PricingMore.comparison_row (entry "CBC01" "Complete Blood Count" "Hematology" "350"))
        (PricingMore.comparisonData catalog (toggleSelection "CBC01" set_new)).
Proof.
  assert (H : In (entry "CBC01" "Complete Blood Count" "Hematology" "350")
                 (comparisonResults catalog "cbc" set_new)) by (left; reflexivity).
  split; [exact H |].
  apply (suggestion_pick catalog "cbc" set_new _ H).
Defined.

(** X11. The chips above the chart: one per selected code that some stored
    record carries, in selection order, each showing the first stored record
    of its code; a selected code without a record shows no chip.  The chips
    and the rows of the chart cover the same codes. *)
Theorem chips_resolve (data : list PricingEntry) (selected : StrSet) :
  map fst (PricingMore.chips data selected)
  = filter (fun c => existsb (fun d => String.eqb (test_code d) c) data) selected
  /\ (forall c t, In (c, t) (PricingMore.chips data selected) ->
        In c selected
        /\ find (fun d => String.eqb (test_code d) c) data = Some t
        /\ In t data /\ test_code t = c)
  /\ (forall c, In c (map fst (PricingMore.chips data selected))
                <-> In c (map PricingMore.row_code
                            (PricingMore.comparisonData data selected))).
Proof.
  assert (H1 : map fst (PricingMore.chips data selected)
               = filter (fun c => existsb (fun d => String.eqb (test_code d) c) data)
                   selected).
  { unfold PricingMore.chips. induction selected as [|c sel IH]; [reflexivity |].
    cbn [flat_map filter]. rewrite map_app, IH.
    destruct (find (fun d => String.eqb (test_code d) c) data) as [t|] eqn:F.
    - apply find_some in F. destruct F as [Ht Hc].
      replace (existsb _ data) with true
        by (symmetry; apply existsb_exists; now exists t).
      reflexivity.
    - replace (existsb (fun d => String.eqb (test_code d) c) data) with false;
        [reflexivity |].
      symmetry. apply not_true_iff_false. intros Hex.
      apply existsb_exists in Hex. destruct Hex as [t [Ht Hc]].
      now rewrite (find_none _ _ F t Ht) in Hc. }
  split; [exact H1 |]. split.
  - intros c t Hin. unfold PricingMore.chips in Hin.
    apply in_flat_map in Hin. destruct Hin as [c' [Hc' Hin]].
    destruct (find (fun d => String.eqb (test_code d) c') data) as [t'|] eqn:F;
      [| destruct Hin].
    destruct Hin as [E | []]. injection E as <- <-.
    pose proof (find_some _ _ F) as [Ht Hc]. apply String.eqb_eq in Hc.
    now repeat split.
  - intros c. rewrite H1, comparisonData_codes, !filter_In, existsb_exists.
    rewrite in_map_iff, set_has_iff. split.
    + intros [Hsel [t [Ht Hc]]]. apply String.eqb_eq in Hc.
      split; [now exists t | assumption].
    + intros [[t [Hc Ht]] Hsel]. split; [assumption |]. exists t.
      split; [assumption | now apply String.eqb_eq].
Qed.

(** ** The filter vocabularies *)

Lemma ltb_lt (a b : string) :
  String.ltb a b = true <-> OrderedTypeEx.String_as_OT.lt a b.
Proof.
  rewrite <- OrderedTypeEx.String_as_OT.cmp_lt.
  unfold String.ltb, OrderedTypeEx.String_as_OT.cmp.
  destruct (String.compare a b); split; congruence.
Qed.

Lemma ltb_trans (a b c : string) :
  String.ltb a b = true -> String.ltb b c = true -> String.ltb a c = true.
Proof.
  rewrite !ltb_lt. apply OrderedTypeEx.String_as_OT.lt_trans.
Qed.

Lemma ltb_asym (a b : string) : String.ltb a b = true -> String.ltb b a = false.
Proof.
  unfold String.ltb. rewrite (String.compare_antisym a b).
  destruct (String.compare b a); cbn; congruence.
Qed.

Lemma ltb_total (a b : string) :
  String.ltb a b = false -> String.ltb b a = false -> a = b.
Proof.
  unfold String.ltb. rewrite (String.compare_antisym a b).
  destruct (String.compare b a) eqn:E; cbn; try congruence.
  intros _ _. symmetry. now apply String.compare_eq_iff.
Qed.

Lemma gt_default_compare (x y : string) :
  gt (JSMore.default_compare x y) (of_Z 0) = String.ltb y x.
Proof.
  unfold JSMore.default_compare.
  destruct (String.ltb x y) eqn:E.
  - now rewrite (ltb_asym x y E).
  - destruct (String.ltb y x); reflexivity.
Qed.

Lemma insert_strings_sorted (x : string) (l : list string) :
  ~ In x l ->
  StronglySorted (fun a b => String.ltb a b = true) l ->
  StronglySorted (fun a b => String.ltb a b = true)
    (insert JSMore.default_compare x l).
Proof.
  intros Hx Hs. induction Hs as [|y l Hs IH Hy]; cbn [insert].
  - repeat constructor.
  - rewrite gt_default_compare. destruct (String.ltb y x) eqn:E.
    + constructor.
      * apply IH. intros H. apply Hx. now right.
      * rewrite (insert_perm JSMore.default_compare x l).
        constructor; assumption.
    + assert (Hxy : String.ltb x y = true).
      { destruct (String.ltb x y) eqn:E'; [reflexivity |].
        exfalso. apply Hx. left. symmetry. exact (ltb_total x y E' E). }
      constructor; [now constructor |].
      constructor; [exact Hxy |].
      rewrite Forall_forall in Hy |- *. intros z Hz.
      exact (ltb_trans x y z Hxy (Hy z Hz)).
Qed.

Lemma sort_strings_sorted (l : list string) :
  NoDup l ->
  StronglySorted (fun a b => String.ltb a b = true) (sort JSMore.default_compare l).
Proof.
  induction 1 as [|x l Hx Hl IH]; cbn [sort fold_right]; [constructor |].
  apply insert_strings_sorted; [| exact IH].
  intros H. apply Hx. exact (Permutation_in _ (sort_perm _ l) H).
Qed.

Lemma set_add_nodup (s : StrSet) (x : string) : NoDup s -> NoDup (set_add s x).
Proof.
  intros H. unfold set_add. destruct (set_has s x) eqn:E; [assumption |].
  apply NoDup_app; [assumption | repeat constructor; intros [] |].
  intros y Hy [<- | []]. apply set_has_iff in Hy. congruence.
Qed.

Lemma set_add_in (s : StrSet) (x y : string) :
  In y (set_add s x) <-> In y s \/ y = x.
Proof.
  unfold set_add. destruct (set_has s x) eqn:E.
  - apply set_has_iff in E. split; [now left | intros [H | ->]; assumption].
  - rewrite in_app_iff. cbn. intuition congruence.
Qed.

Lemma str_truthy_iff (s : string) : str_truthy s = true <-> s <> EmptyString.
Proof. destruct s; cbn; split; congruence. Qed.

Section Vocabulary.
Context {X : Type} (field : X -> string).

Lemma collect_nodup (l : list X) (s : StrSet) :
  NoDup s ->
  NoDup (fold_left
           (fun acc d => if str_truthy (field d) then set_add acc (field d) else acc)
           l s).
Proof.
  revert s. induction l as [|d l IH]; intros s Hs; [exact Hs |].
  cbn [fold_left]. apply IH.
  destruct (str_truthy (field d)); [now apply set_add_nodup | exact Hs].
Qed.

Lemma collect_in (l : list X) (s : StrSet) (v : string) :
  In v (fold_left
          (fun acc d => if str_truthy (field d) then set_add acc (field d) else acc)
          l s)
  <-> In v s \/ (v <> EmptyString /\ exists d, In d l /\ field d = v).
Proof.
  revert s. induction l as [|d l IH]; intros s; cbn [fold_left].
  - split; [now left | intros [H | [_ [d [[] _]]]]; exact H].
  - rewrite IH. destruct (str_truthy (field d)) eqn:E.
    + apply str_truthy_iff in E. rewrite set_add_in. split.
      * intros [[H | ->] | [Hv [r [Hr Hf]]]].
        -- now left.
        -- right. split; [exact E |]. exists d. split; [now left | reflexivity].
        -- right. split; [exact Hv |]. exists r. split; [now right | exact Hf].
      * intros [H | [Hv [r [[<- | Hr] Hf]]]].
        -- left. now left.
        -- left. right. now symmetry.
        -- right. split; [exact Hv |]. now exists r.
    + split.
      * intros [H | [Hv [r [Hr Hf]]]]; [now left |].
        right. split; [exact Hv |]. exists r. split; [now right | exact Hf].
      * intros [H | [Hv [r [[<- | Hr] Hf]]]]; [now left | |].
        -- exfalso. apply Hv. rewrite <- Hf. destruct (field d); [reflexivity | discriminate].
        -- right. split; [exact Hv |]. now exists r.
Qed.
End Vocabulary.

Lemma vocab_sets_fold (data : list PricingEntry) (acc : StrSet * StrSet) :
  fold_left PricingMore.vocab_step data acc
  = (fold_left
       (fun s d => if str_truthy (department d) then set_add s (department d) else s)
       data (fst acc),
     fold_left
       (fun s d => if str_truthy (city d) then set_add s (city d) else s)
       data (snd acc)).
Proof.
  revert acc. induction data as [|d data IH]; intros acc; cbn [fold_left].
  - now destruct acc.
  - rewrite IH. reflexivity.
Qed.

Lemma vocabulary_sorted (l : list string) (v : string) :
  In v (sort JSMore.default_compare l) <-> In v l.
Proof.
  split; intros H.
  - exact (Permutation_in _ (sort_perm _ l) H).
  - exact (Permutation_in _ (Permutation_sym (sort_perm _ l)) H).
Qed.

(** X12. The values the two filter panels offer.  The department list holds
    exactly the non-empty departments of the stored records, the city list
    exactly their non-empty cities; each list is in strictly ascending order
    of code units, so no value is offered twice.  Ticking an offered value
    alone never gives an empty view. *)
Theorem filter_vocabularies (data : list PricingEntry) :
  StronglySorted (fun a b => String.ltb a b = true) (PricingMore.uniqueDepts data)
  /\ StronglySorted (fun a b => String.ltb a b = true) (PricingMore.uniqueCities data)
  /\ (forall v, In v (PricingMore.uniqueDepts data)
                <-> v <> EmptyString /\ exists d, In d data /\ department d = v)
  /\ (forall v, In v (PricingMore.uniqueCities data)
                <-> v <> EmptyString /\ exists d, In d data /\ city d = v)
  /\ (forall v, In v (PricingMore.uniqueDepts data) ->
                filteredData data "" [v] [] <> [])
  /\ (forall v, In v (PricingMore.uniqueCities data) ->
                filteredData data "" [] [v] <> []).
Proof.
  unfold PricingMore.uniqueDepts, PricingMore.uniqueCities, PricingMore.vocab_sets.
  rewrite vocab_sets_fold. cbn [fst snd].
  assert (Hd : forall v,
             In v (sort JSMore.default_compare
                     (fold_left
                        (fun s d => if str_truthy (department d)
                                    then set_add s (department d) else s)
                        data set_new))
             <-> v <> EmptyString /\ exists d, In d data /\ department d = v).
  { intros v. rewrite vocabulary_sorted, (collect_in department). cbn. tauto. }
  assert (Hc : forall v,
             In v (sort JSMore.default_compare
                     (fold_left
                        (fun s d => if str_truthy (city d)
                                    then set_add s (city d) else s)
                        data set_new))
             <-> v <> EmptyString /\ exists d, In d data /\ city d = v).
  { intros v. rewrite vocabulary_sorted, (collect_in city). cbn. tauto. }
  split; [apply sort_strings_sorted, collect_nodup; constructor |].
  split; [apply sort_strings_sorted, collect_nodup; constructor |].
  split; [exact Hd |]. split; [exact Hc |]. split.
  - intros v Hv. apply Hd in Hv. destruct Hv as [_ [d [Hin Hf]]].
    assert (H : In d (filteredData data "" [v] [])).
    { unfold filteredData. apply filter_In. split; [exact Hin |].
      unfold matchesSearch, matchesDept, matchesCity. cbn [toLowerCase].
      rewrite !includes_empty, Hf. cbn. now rewrite String.eqb_refl. }
    intros E. now rewrite E in H.
  - intros v Hv. apply Hc in Hv. destruct Hv as [_ [d [Hin Hf]]].
    assert (H : In d (filteredData data "" [] [v])).
    { unfold filteredData. apply filter_In. split; [exact Hin |].
      unfold matchesSearch, matchesDept, matchesCity. cbn [toLowerCase].
      rewrite !includes_empty, Hf. cbn. now rewrite String.eqb_refl. }
    intros E. now rewrite E in H.
Qed.

(** ** The range of a histogram bucket *)

Lemma Qfloor_unique (x : Q) (k : Z) :
  Qfloor x = k <-> (inject_Z k <= x)%Q /\ (x < inject_Z (k + 1))%Q.
Proof.
  split.
  - intros <-. split; [apply Qfloor_le | apply Qlt_floor].
  - intros [Hlo Hhi].
    assert (H1 : k <= Qfloor x).
    { rewrite <- (Qfloor_Z k). now apply Qfloor_resp_le. }
    assert (H2 : Qfloor x < k + 1).
    { rewrite Zlt_Qlt. eapply Qle_lt_trans; [apply Qfloor_le | exact Hhi]. }
    lia.
Qed.


(** ** Centers: search and city statistics *)

Lemma proto_inherited (k : string) :
  String.eqb k "__proto__" = true -> is_inherited k = true.
Proof. intros H. apply String.eqb_eq in H. now subst. Qed.

Lemma tally_step_gstep (o : object JSMore.Tally) (c : CentersView.DiagnosticCenter) :
  is_inherited (CentersView.city_of c) = false ->
  JSMore.tally_step o (CentersView.city_of c)
  = gstep CentersView.city_of CentersView.tally_upd o c.
Proof.
  intros H. unfold JSMore.tally_step, gstep, CentersView.tally_upd.
  destruct (own_get o (CentersView.city_of c)) as [[n|]|]; try reflexivity.
  destruct (String.eqb (CentersView.city_of c) "__proto__") eqn:E.
  - apply proto_inherited in E. congruence.
  - now rewrite H.
Qed.

Lemma centers_in_snoc (k : string) (l : list CentersView.DiagnosticCenter)
    (c : CentersView.DiagnosticCenter) :
  CentersView.centers_in k (l ++ [c])
  = CentersView.centers_in k l
    ++ (if String.eqb (CentersView.city_of c) k then [c] else []).
Proof. unfold CentersView.centers_in. rewrite filter_app. reflexivity. Qed.

Lemma tally_gopt (k : string) (l : list CentersView.DiagnosticCenter) :
  gopt CentersView.city_of CentersView.tally_upd k l
  = match CentersView.centers_in k l with
    | [] => None
    | g => Some (JSMore.Counted (List.length g))
    end.
Proof.
  induction l as [|c l IH] using rev_ind; [reflexivity |].
  unfold gopt. rewrite fold_left_app. cbn [fold_left].
  fold (gopt CentersView.city_of CentersView.tally_upd k l).
  rewrite IH, centers_in_snoc.
  destruct (String.eqb (CentersView.city_of c) k).
  - destruct (CentersView.centers_in k l) as [|a g]; [reflexivity |].
    cbn [app CentersView.tally_upd]. do 2 f_equal.
    cbn [List.length]. rewrite length_app. cbn [List.length]. lia.
  - now rewrite app_nil_r.
Qed.

(** The tally holds one entry per city, in first-seen order. *)
Lemma counts_groups (centers : list CentersView.DiagnosticCenter) :
  (forall c, In c centers -> plain_key (CentersView.city_of c)) ->
  map (fun e : string * JSMore.Tally =>
         {| CentersView.stat_city := fst e; CentersView.stat_centers := snd e |})
      (entries (CentersView.counts_of centers))
  = CentersView.city_groups centers.
Proof.
  intros Hplain.
  assert (Hfold : CentersView.counts_of centers
                  = fold_left (gstep CentersView.city_of CentersView.tally_upd)
                      centers []).
  { unfold CentersView.counts_of. apply fold_left_ext_in. intros acc c Hc.
    apply tally_step_gstep. now apply Hplain. }
  assert (Hkeys : map fst (CentersView.counts_of centers)
                  = first_seen (map CentersView.city_of centers)).
  { rewrite Hfold. apply gfold_keys. }
  rewrite entries_plain.
  2:{ intros k Hk. rewrite Hkeys, first_seen_in, in_map_iff in Hk.
      destruct Hk as [c [<- Hc]]. now apply Hplain. }
  unfold CentersView.city_groups. rewrite <- Hkeys, map_map.
  apply map_ext_in. intros [k t] Hin. cbn [fst snd].
  assert (Hget : own_get (CentersView.counts_of centers) k = Some t).
  { apply own_get_in; [| exact Hin]. rewrite Hkeys. apply first_seen_nodup. }
  rewrite Hfold, gfold_get, tally_gopt in Hget.
  destruct (CentersView.centers_in k centers) as [|a g]; [discriminate |].
  now injection Hget as <-.
Qed.

Lemma city_groups_in (centers : list CentersView.DiagnosticCenter)
    (g : CentersView.CityStat) :
  In g (CentersView.city_groups centers)
  <-> (exists c, In c centers /\ CentersView.city_of c = CentersView.stat_city g)
      /\ CentersView.stat_centers g
         = JSMore.Counted
             (List.length (CentersView.centers_in (CentersView.stat_city g) centers)).
Proof.
  unfold CentersView.city_groups. rewrite in_map_iff. split.
  - intros [k [<- Hk]]. cbn. rewrite first_seen_in, in_map_iff in Hk.
    destruct Hk as [c [Hc Hin]]. split; [now exists c | reflexivity].
  - intros [[c [Hin Hc]] Hg]. exists (CentersView.stat_city g). split.
    + destruct g as [k t]. cbn in *. now rewrite Hg.
    + rewrite first_seen_in, in_map_iff. now exists c.
Qed.

Lemma gt_by_centers_desc (x y : CentersView.CityStat) (n m : nat) :
  CentersView.stat_centers x = JSMore.Counted n ->
  CentersView.stat_centers y = JSMore.Counted m ->
  gt (CentersView.by_centers_desc x y) (of_Z 0)
  = (- Z.of_nat (CentersView.stat_size y) <? - Z.of_nat (CentersView.stat_size x)).
Proof.
  intros Hx Hy. unfold CentersView.by_centers_desc, CentersView.stat_size.
  rewrite Hx, Hy. cbn [JSMore.tally_number]. unfold of_nat. rewrite gt_sub_of_Z.
  destruct (Z.ltb_spec (Z.of_nat n) (Z.of_nat m)),
    (Z.ltb_spec (- Z.of_nat m) (- Z.of_nat n)); try reflexivity; lia.
Qed.

Lemma centers_desc_orders (centers : list CentersView.DiagnosticCenter) :
  orders_by CentersView.by_centers_desc
    (fun g => - Z.of_nat (CentersView.stat_size g))
    (CentersView.city_groups centers).
Proof.
  intros x y Hx Hy. apply city_groups_in in Hx, Hy.
  destruct Hx as [_ Hx], Hy as [_ Hy].
  exact (gt_by_centers_desc x y _ _ Hx Hy).
Qed.

Lemma sorted_app_le {A : Type} (R : A -> A -> Prop) (l1 l2 : list A) :
  StronglySorted R (l1 ++ l2) ->
  forall a b, In a l1 -> In b l2 -> R a b.
Proof.
  induction l1 as [|x l1 IH]; intros Hs a b Ha Hb; [contradiction |].
  cbn [app] in Hs. inversion Hs as [|? ? Hs' Hx]; subst.
  destruct Ha as [<- | Ha].
  - rewrite Forall_forall in Hx. apply Hx, in_or_app. now right.
  - now apply IH.
Qed.

Lemma firstn_nodup {A : Type} (n : nat) (l : list A) :
  NoDup l -> NoDup (firstn n l).
Proof.
  intros H. revert n. induction H as [|a l Ha _ IH]; intros [|n]; cbn [firstn];
    try constructor; [| apply IH].
  intros Hin. apply Ha. exact (firstn_in n l a Hin).
Qed.

Lemma cityStats_length (centers : list CentersView.DiagnosticCenter) :
  (List.length (CentersView.cityStats centers) <= 10)%nat.
Proof.
  unfold CentersView.cityStats. rewrite slice_from_zero by lia.
  apply firstn_le_length.
Qed.

Lemma cityStats_ranked (centers : list CentersView.DiagnosticCenter) :
  (forall c, In c centers -> plain_key (CentersView.city_of c)) ->
  CentersView.cityStats centers
  = firstn 10 (sort CentersView.by_centers_desc (CentersView.city_groups centers)).
Proof.
  intros Hplain. unfold CentersView.cityStats.
  rewrite counts_groups by assumption. now rewrite slice_from_zero by lia.
Qed.

Lemma ranked_sorted (centers : list CentersView.DiagnosticCenter) :
  StronglySorted
    (fun a b => (CentersView.stat_size b <= CentersView.stat_size a)%nat)
    (sort CentersView.by_centers_desc (CentersView.city_groups centers)).
Proof.
  pose proof (sort_sorted _ _ _ (centers_desc_orders centers)) as H.
  induction H as [|a r _ IH Ha]; constructor; [exact IH |].
  rewrite Forall_forall in Ha |- *. intros b Hb. specialize (Ha b Hb).
  unfold key_le in Ha. lia.
Qed.

(** X14. The city chart of the centers page, for city names that are neither
    an array index nor the name of an inherited property (a center without
    a city counts under [Unknown]).  Each bar is a city of some center with
    the number of its centers; no city has two bars; the bars are in
    descending order of their counts; a city left off the chart has no more
    centers than any city on it; and with at most 10 cities every city is on
    the chart. *)
Theorem cityStats_top10 (centers : list CentersView.DiagnosticCenter) :
  (forall c, In c centers -> plain_key (CentersView.city_of c)) ->
  (forall g, In g (CentersView.cityStats centers) ->
     (exists c, In c centers /\ CentersView.city_of c = CentersView.stat_city g)
     /\ CentersView.stat_centers g
        = JSMore.Counted
            (List.length (CentersView.centers_in (CentersView.stat_city g) centers)))
  /\ NoDup (map CentersView.stat_city (CentersView.cityStats centers))
  /\ StronglySorted
       (fun a b => (CentersView.stat_size b <= CentersView.stat_size a)%nat)
       (CentersView.cityStats centers)
  /\ (forall c g,
        In c centers ->
        ~ In (CentersView.city_of c)
             (map CentersView.stat_city (CentersView.cityStats centers)) ->
        In g (CentersView.cityStats centers) ->
        (List.length (CentersView.centers_in (CentersView.city_of c) centers)
         <= CentersView.stat_size g)%nat)
  /\ ((List.length (first_seen (map CentersView.city_of centers)) <= 10)%nat ->
      forall c, In c centers ->
        In (CentersView.city_of c)
           (map CentersView.stat_city (CentersView.cityStats centers))).
Proof.
  intros Hplain. rewrite (cityStats_ranked centers Hplain).
  set (ranked := sort CentersView.by_centers_desc (CentersView.city_groups centers)).
  assert (Hperm : Permutation ranked (CentersView.city_groups centers))
    by apply sort_perm.
  assert (Hsorted := ranked_sorted centers). fold ranked in Hsorted.
  assert (Hmine : forall c, In c centers ->
            In {| CentersView.stat_city := CentersView.city_of c;
                  CentersView.stat_centers :=
                    JSMore.Counted
                      (List.length
                         (CentersView.centers_in (CentersView.city_of c) centers)) |}
               ranked).
  { intros c Hc. apply (Permutation_in _ (Permutation_sym Hperm)).
    apply city_groups_in. cbn. split; [now exists c | reflexivity]. }
  split; [| split; [| split; [| split]]].
  - intros g Hg. apply firstn_in in Hg.
    apply (Permutation_in _ Hperm) in Hg. now apply city_groups_in.
  - rewrite <- firstn_map. apply firstn_nodup.
    apply (Permutation_NoDup (Permutation_sym (Permutation_map _ Hperm))).
    unfold CentersView.city_groups. rewrite map_map. cbn. rewrite map_id.
    apply first_seen_nodup.
  - now apply sorted_firstn.
  - intros c g Hc Hout Hg. specialize (Hmine c Hc).
    rewrite <- (firstn_skipn 10 ranked) in Hmine, Hsorted.
    apply in_app_or in Hmine. destruct Hmine as [Hin | Hin].
    + exfalso. apply Hout. apply in_map_iff. eexists. split; [| exact Hin].
      reflexivity.
    + exact (sorted_app_le _ _ _ Hsorted _ _ Hg Hin).
  - intros Hfew c Hc. rewrite firstn_all2.
    + apply in_map_iff. eexists. split; [| exact (Hmine c Hc)]. reflexivity.
    + rewrite (Permutation_length Hperm). unfold CentersView.city_groups.
      now rewrite length_map.
Qed.

Lemma cityStats_top10_witness :
  CentersView.cityStats Network.centers
  = [ {| CentersView.stat_city := "Delhi"; CentersView.stat_centers := JSMore.Counted 2 |};
      {| CentersView.stat_city := "Pune"; CentersView.stat_centers := JSMore.Counted 1 |};
      {| CentersView.stat_city := "Unknown"; CentersView.stat_centers := JSMore.Counted 1 |} ]
  /\ StronglySorted
       (fun a b => (CentersView.stat_size b <= CentersView.stat_size a)%nat)
       (CentersView.cityStats Network.centers).
Proof.
  split; [reflexivity |].
  refine (proj1 (proj2 (proj2 (cityStats_top10 Network.centers _)))).
  intros c [<- | [<- | [<- | [<- | []]]]]; split; reflexivity.
Defined.

(** X15. The header of the centers page never shows a count of cities with
    a plus sign: the chart keeps at most 10 cities, so the test for more
    than 10 never holds and the header shows the length of the chart, 10
    for a network of more than 10 cities. *)
Theorem cities_label_plain (centers : list CentersView.DiagnosticCenter) :
  (List.length (CentersView.cityStats centers) <= 10)%nat
  /\ CentersView.cities_label centers
     = ToString (of_nat (List.length (CentersView.cityStats centers))).
Proof.
  pose proof (cityStats_length centers) as H. split; [exact H |].
  unfold CentersView.cities_label. cbv zeta.
  destruct (Nat.ltb_spec 10 (List.length (CentersView.cityStats centers)));
    [lia | reflexivity].
Qed.


(** ** TestExplorer: the request of a filter state *)

Lemma trimStart_split (s : string) :
  exists lead, s = (lead ++ trimStart s)%string /\ all_chars is_ws lead = true.
Proof.
  induction s as [|c s [lead [IH Hb]]]; [now exists EmptyString |].
  cbn [trimStart]. destruct (is_ws c) eqn:E.
  - exists (String c lead). cbn. rewrite E, Hb. now rewrite <- IH.
  - now exists EmptyString.
Qed.

Lemma trimStart_head (s : string) (c : ascii) (rest : string) :
  trimStart s = String c rest -> is_ws c = false.
Proof.
  induction s as [|a s IH]; [discriminate |]. cbn [trimStart].
  destruct (is_ws a) eqn:E; [exact IH |]. intros [= <- _]. exact E.
Qed.

Lemma trimEnd_split (s : string) :
  exists trail, s = (trimEnd s ++ trail)%string /\ all_chars is_ws trail = true.
Proof.
  induction s as [|c s [trail [IH Hb]]]; [now exists EmptyString |].
  cbn [trimEnd]. destruct (trimEnd s) as [|a t] eqn:E.
  - cbn in IH. subst trail. destruct (is_ws c) eqn:Ec.
    + exists (String c s). cbn. now rewrite Ec, Hb.
    + now exists s.
  - exists trail. cbn. now rewrite IH at 1.
Qed.

Lemma trimEnd_last (s init : string) (c : ascii) :
  trimEnd s = (init ++ String c EmptyString)%string -> is_ws c = false.
Proof.
  revert init. induction s as [|a s IH]; intros init H.
  - destruct init; discriminate.
  - cbn [trimEnd] in H. destruct (trimEnd s) as [|b t] eqn:E.
    + destruct (is_ws a) eqn:Ea.
      * destruct init; discriminate.
      * destruct init as [|x init]; cbn in H.
        -- now injection H as <-.
        -- injection H as _ H. destruct init; discriminate.
    + destruct init as [|x init]; cbn in H.
      * discriminate.
      * injection H as _ H. exact (IH init H).
Qed.

Lemma trimEnd_head (s : string) (c : ascii) (rest : string) :
  trimEnd s = String c rest -> exists rest', s = String c rest'.
Proof.
  destruct s as [|a s]; [discriminate |]. cbn [trimEnd].
  destruct (trimEnd s); [destruct (is_ws a) |]; intros [= <- _]; now eexists.
Qed.

Lemma trim_trimmed (s : string) : ExplorerMore.trimmed_of s (trim s).
Proof.
  unfold ExplorerMore.trimmed_of, trim. split; [| split].
  - destruct (trimStart_split s) as [lead [Hl Hlb]].
    destruct (trimEnd_split (trimStart s)) as [trail [Ht Htb]].
    exists lead, trail. split; [| now split]. now rewrite <- Ht.
  - intros c rest H. destruct (trimEnd_head _ _ _ H) as [rest' H'].
    exact (trimStart_head s c rest' H').
  - intros init c H. exact (trimEnd_last _ _ _ H).
Qed.

Lemma trimmed_param (s : string) :
  (if str_truthy (trim s) then Some (trim s) else None)
  = (if blank s then None else Some (trim s))
  /\ forall v, (if str_truthy (trim s) then Some (trim s) else None) = Some v ->
       v <> EmptyString /\ ExplorerMore.trimmed_of s v.
Proof.
  split.
  - rewrite trim_truthy. now destruct (blank s).
  - intros v. destruct (str_truthy (trim s)) eqn:E; [| discriminate].
    intros [= <-]. split; [| apply trim_trimmed].
    intros H. now rewrite H in E.
Qed.

Lemma request_get (p : Z) (f : Explorer.Filters) :
  ExplorerMore.param_get (Explorer.request_of p f) "limit" = Some "15"%string
  /\ ExplorerMore.param_get (Explorer.request_of p f) "offset"
     = Some (ToString (of_Z ((p - 1) * 15)))
  /\ ExplorerMore.param_get (Explorer.request_of p f) "q"
     = (if str_truthy (trim (Explorer.query f))
        then Some (trim (Explorer.query f)) else None)
  /\ ExplorerMore.param_get (Explorer.request_of p f) "cityId"
     = (if str_truthy (trim (Explorer.cityId f))
        then Some (trim (Explorer.cityId f)) else None)
  /\ ExplorerMore.param_get (Explorer.request_of p f) "department"
     = (if str_truthy (Explorer.department f)
        then Some (Explorer.department f) else None)
  /\ ExplorerMore.param_get (Explorer.request_of p f) "specimenId"
     = (if str_truthy (Explorer.specimen f)
        then Some (Explorer.specimen f) else None)
  /\ ExplorerMore.param_get (Explorer.request_of p f) "diseaseId"
     = (if str_truthy (Explorer.disease f)
        then Some (Explorer.disease f) else None).
Proof.
  assert (Hlim : ToString (of_Z Explorer.page_limit) = "15"%string) by reflexivity.
  unfold Explorer.request_of, Explorer.param. rewrite Hlim.
  change ((p - 1) * Explorer.page_limit) with ((p - 1) * 15).
  generalize (ToString (of_Z ((p - 1) * 15))). intros off.
  destruct (str_truthy (trim (Explorer.query f)));
    destruct (str_truthy (trim (Explorer.cityId f)));
    destruct (str_truthy (Explorer.department f));
    destruct (str_truthy (Explorer.specimen f));
    destruct (str_truthy (Explorer.disease f)); repeat split; reflexivity.
Qed.


(** ** TestExplorer: pages and the debounce *)

Lemma explorer_reachable_timer (s : Explorer.State) :
  Explorer.reachable s -> Scenarios.timer_current s.
Proof.
  intros Hreach. induction Hreach as [c d sp di | s e Hreach IH].
  - apply explorer_settle_timer. discriminate.
  - apply explorer_settle_timer. intros Hfs.
    apply explorer_reachable_stable in Hreach.
    unfold Explorer.stable in Hreach. apply andb_true_iff in Hreach as [Hs _].
    destruct (explorer_handle_deps e s) as [Hd Ht].
    unfold Explorer.fetch_stable in Hfs, Hs. rewrite Hd in Hfs.
    destruct (Explorer.fetch_deps s) as [[p0 f0] |]; [| discriminate].
    apply andb_true_iff in Hfs as [Hp Hf], Hs as [Hp' Hf'].
    apply Z.eqb_eq in Hp, Hp'. apply filters_eqb_eq in Hf, Hf'.
    intros p f Htimer. rewrite <- Hp, <- Hf, Hp', Hf'.
    destruct Ht as [Ht | Ht]; rewrite Ht in Htimer; [now apply IH | discriminate].
Qed.

Lemma explorer_settle_next_id (s : Explorer.State) :
  Explorer.next_id (React.settle Explorer.stable Explorer.pass React.rounds s)
  = Explorer.next_id s.
Proof.
  rewrite explorer_settle.
  destruct (Explorer.stable s); [reflexivity |].
  destruct (Explorer.stable (Explorer.pass s)); reflexivity.
Qed.

Lemma explorer_positive_pass (s : Explorer.State) :
  ExplorerMore.pages_positive s -> ExplorerMore.pages_positive (Explorer.pass s).
Proof.
  intros [Hp [Ht Hi]]. unfold ExplorerMore.pages_positive, Explorer.pass.
  cbn [Explorer.page Explorer.timer Explorer.inflight].
  split; [destruct (Explorer.reset_stable s); lia |]. split; [| exact Hi].
  intros p f. destruct (Explorer.fetch_stable s); [apply Ht |].
  intros [= <- _]. exact Hp.
Qed.

Lemma explorer_positive_settle (s : Explorer.State) :
  ExplorerMore.pages_positive s ->
  ExplorerMore.pages_positive
    (React.settle Explorer.stable Explorer.pass React.rounds s).
Proof.
  intros H. rewrite explorer_settle.
  destruct (Explorer.stable s); [exact H |].
  destruct (Explorer.stable (Explorer.pass s));
    repeat apply explorer_positive_pass; exact H.
Qed.

Lemma explorer_totalPages_pos (s : Explorer.State) :
  Explorer.pager_shown s = true -> 1 <= Explorer.totalPages s.
Proof.
  unfold Explorer.pager_shown, Explorer.totalPages, Explorer.page_limit.
  rewrite andb_true_iff. intros [_ H].
  destruct (Explorer.data s) as [d |]; [| discriminate].
  apply Z.ltb_lt in H. apply Z.div_le_lower_bound; lia.
Qed.

Lemma explorer_positive_handle (e : Explorer.Event) (s : Explorer.State) :
  ExplorerMore.pages_positive s ->
  ExplorerMore.pages_positive (Explorer.handle e s).
Proof.
  intros [Hp [Ht Hi]]. unfold ExplorerMore.pages_positive.
  destruct e; cbn [Explorer.handle];
    try (split; [exact Hp | split; [exact Ht | exact Hi]]).
  - destruct (Explorer.pager_shown s && negb (Explorer.page s =? 1));
      [| split; [exact Hp | split; [exact Ht | exact Hi]]].
    cbn. split; [lia | split; [exact Ht | exact Hi]].
  - destruct (Explorer.pager_shown s) eqn:Hs; cbn [andb];
      [| split; [exact Hp | split; [exact Ht | exact Hi]]].
    destruct (negb (Explorer.page s =? Explorer.totalPages s));
      [| split; [exact Hp | split; [exact Ht | exact Hi]]].
    pose proof (explorer_totalPages_pos s Hs).
    cbn. split; [lia | split; [exact Ht | exact Hi]].
  - destruct (Explorer.timer s) as [[p f] |] eqn:E;
      [| split; [exact Hp | split; [congruence | exact Hi]]].
    cbn. split; [exact Hp |]. split; [discriminate |].
    intros r Hr. apply in_app_or in Hr. destruct Hr as [Hr | [<- | []]].
    + now apply Hi.
    + exists p, f. split; [exact (Ht p f eq_refl) | reflexivity].
  - destruct (Explorer.is_inflight s fetch);
      [| split; [exact Hp | split; [exact Ht | exact Hi]]].
    cbn. split; [exact Hp |]. split; [exact Ht |].
    intros r Hr. apply filter_In in Hr. now apply Hi.
Qed.

Lemma explorer_positive_first (c d sp di : string) :
  ExplorerMore.pages_positive (Explorer.first_render c d sp di).
Proof.
  unfold ExplorerMore.pages_positive. cbn.
  split; [lia |]. split; [discriminate | intros r []].
Qed.

(** X18. In every state [TestExplorer] can reach, the page is 1 or more, and
    every request under way was built for a page from 1 on, so no request
    is ever sent with a negative offset. *)
Theorem explorer_pages_positive (s : Explorer.State) :
  Explorer.reachable s ->
  1 <= Explorer.page s
  /\ forall id r, In (id, r) (Explorer.inflight s) ->
       exists p f, 1 <= p /\ r = Explorer.request_of p f.
Proof.
  intros Hreach.
  assert (H : ExplorerMore.pages_positive s).
  { induction Hreach as [c d sp di | s e _ IH].
    - apply explorer_positive_settle, explorer_positive_first.
    - apply explorer_positive_settle, explorer_positive_handle, IH. }
  destruct H as [Hp [_ Hi]]. split; [exact Hp |].
  intros id r Hr. exact (Hi (id, r) Hr).
Qed.

Lemma explorer_pages_positive_witness :
  1 <= Explorer.page (Explorer.run Scenarios.supersede Scenarios.start)
  /\ forall id r,
       In (id, r)
          (Explorer.inflight (Explorer.run Scenarios.supersede Scenarios.start)) ->
       exists p f, 1 <= p /\ r = Explorer.request_of p f.
Proof.
  apply (explorer_pages_positive (Explorer.run Scenarios.supersede Scenarios.start)).
  repeat apply Explorer.reach_step. apply Explorer.reach_mount.
Defined.

Lemma explorer_quiet_step (e : Explorer.Event) (s : Explorer.State) :
  ExplorerMore.quiet e = true ->
  Explorer.next_id (Explorer.dispatch e s) = Explorer.next_id s
  /\ incl (Explorer.inflight (Explorer.dispatch e s)) (Explorer.inflight s).
Proof.
  intros Hq. unfold Explorer.dispatch.
  rewrite explorer_settle_next_id.
  destruct (explorer_settle_store (Explorer.handle e s)) as [_ [_ [_ [-> _]]]].
  destruct e; try discriminate; cbn [Explorer.handle];
    repeat match goal with
           | |- context [if ?b then _ else _] => destruct b
           end; cbn; split; try reflexivity; try apply incl_refl.
  intros r Hr. apply filter_In in Hr. tauto.
Qed.

Lemma explorer_run_reachable (es : list Explorer.Event) (s : Explorer.State) :
  Explorer.reachable s -> Explorer.reachable (Explorer.run es s).
Proof.
  revert s. induction es as [|e es IH]; intros s H; [exact H |].
  cbn [Explorer.run]. apply IH. now constructor.
Qed.

Lemma explorer_quiet_run (es : list Explorer.Event) (s : Explorer.State) :
  forallb ExplorerMore.quiet es = true ->
  Explorer.next_id (Explorer.run es s) = Explorer.next_id s
  /\ incl (Explorer.inflight (Explorer.run es s)) (Explorer.inflight s).
Proof.
  revert s. induction es as [|e es IH]; intros s Hq.
  - split; [reflexivity | apply incl_refl].
  - cbn [forallb] in Hq. apply andb_true_iff in Hq as [He Hes].
    cbn [Explorer.run]. destruct (IH (Explorer.dispatch e s) Hes) as [H1 H2].
    destruct (explorer_quiet_step e s He) as [H3 H4].
    split; [congruence | exact (incl_tran H2 H4)].
Qed.

Lemma explorer_stable_settle (s : Explorer.State) :
  Explorer.stable s = true ->
  React.settle Explorer.stable Explorer.pass React.rounds s = s.
Proof. intros H. rewrite explorer_settle. now rewrite H. Qed.

Lemma explorer_fire (s : Explorer.State) :
  Explorer.reachable s ->
  Explorer.dispatch Explorer.TimerFires s
  = match Explorer.timer s with
    | Some _ => Explorer.start_fetch s (Explorer.page s) (Explorer.filters s)
    | None => s
    end.
Proof.
  intros Hreach. pose proof (explorer_reachable_stable s Hreach) as Hst.
  pose proof (explorer_reachable_timer s Hreach) as Hcur.
  unfold Explorer.dispatch. cbn [Explorer.handle].
  destruct (Explorer.timer s) as [[p f] |] eqn:E.
  - destruct (Hcur p f E) as [-> ->]. apply explorer_stable_settle. exact Hst.
  - now apply explorer_stable_settle.
Qed.

(** X19. The debounce of [TestExplorer].  From a reachable state, a burst of
    edits, page changes and settled responses sends nothing: no request is
    issued until the timer fires.  When it fires, at most one request
    leaves, built from the page and the filters the burst ended with; the
    timer is then disarmed, so a second firing changes nothing. *)
Theorem debounce_coalesces (s : Explorer.State) (es : list Explorer.Event) :
  Explorer.reachable s ->
  forallb ExplorerMore.quiet es = true ->
  Explorer.next_id (Explorer.run es s) = Explorer.next_id s
  /\ incl (Explorer.inflight (Explorer.run es s)) (Explorer.inflight s)
  /\ Explorer.inflight (Explorer.dispatch Explorer.TimerFires (Explorer.run es s))
     = Explorer.inflight (Explorer.run es s)
       ++ match Explorer.timer (Explorer.run es s) with
          | Some _ =>
              [(Explorer.next_id s,
                Explorer.request_of (Explorer.page (Explorer.run es s))
                  (Explorer.filters (Explorer.run es s)))]
          | None => []
          end
  /\ Explorer.timer (Explorer.dispatch Explorer.TimerFires (Explorer.run es s))
     = None
  /\ Explorer.dispatch Explorer.TimerFires
       (Explorer.dispatch Explorer.TimerFires (Explorer.run es s))
     = Explorer.dispatch Explorer.TimerFires (Explorer.run es s).
Proof.
  intros Hreach Hq. destruct (explorer_quiet_run es s Hq) as [Hid Hin].
  pose proof (explorer_run_reachable es s Hreach) as Hr.
  set (s' := Explorer.run es s) in *.
  assert (Hr1 : Explorer.reachable (Explorer.dispatch Explorer.TimerFires s'))
    by now constructor.
  assert (Hnone : Explorer.timer (Explorer.dispatch Explorer.TimerFires s') = None).
  { rewrite (explorer_fire s' Hr).
    destruct (Explorer.timer s') eqn:E; [reflexivity | exact E]. }
  split; [exact Hid |]. split; [exact Hin |]. split; [| split; [exact Hnone |]].
  - rewrite (explorer_fire s' Hr).
    destruct (Explorer.timer s'); [| now rewrite app_nil_r].
    cbn [Explorer.start_fetch Explorer.inflight]. now rewrite Hid.
  - rewrite (explorer_fire _ Hr1). now rewrite Hnone.
Qed.

Lemma debounce_coalesces_witness :
  Explorer.inflight
    (Explorer.dispatch Explorer.TimerFires
       (Explorer.run [Explorer.SetQuery "c"; Explorer.SetQuery "cb";
                      Explorer.SetQuery "cbc"] Scenarios.start))
  = [(0%nat,
      [("limit", "15"); ("offset", "0"); ("q", "cbc"); ("cityId", "GRL0001")]%string)].
Proof.
  exact (proj1 (proj2 (proj2
           (debounce_coalesces Scenarios.start
              [Explorer.SetQuery "c"; Explorer.SetQuery "cb"; Explorer.SetQuery "cbc"]
              (Explorer.reach_mount _ _ _ _) eq_refl)))).
Defined.

(** ** PricingIntelligence: the comparison panel and the pager *)

Lemma pricing_pass_id (s : PricingView.State) :
  PricingView.stable s = true -> PricingView.pass s = s.
Proof. intros H. unfold PricingView.pass. now rewrite H. Qed.

Lemma pricing_reachable_stable (s : PricingView.State) :
  PricingView.reachable s -> PricingView.stable s = true.
Proof.
  intros H. apply pricing_reachable_inv in H. destruct H as [H _].
  now apply pricing_stable_iff.
Qed.

(** X2. Working in the comparison panel (selecting or removing a test,
    clearing the selection, typing in its search box) leaves the catalogue
    alone: the stored records, the filters, the page number and the visible
    page stay as they are, so the page is not reset. *)
Theorem comparison_events_frame (s : PricingView.State) (e : PricingView.Event) :
  PricingView.reachable s ->
  PricingMore.comparison_event e = true ->
  PricingView.store (PricingView.dispatch e s) = PricingView.store s
  /\ PricingView.filters (PricingView.dispatch e s) = PricingView.filters s
  /\ PricingView.page (PricingView.dispatch e s) = PricingView.page s
  /\ PricingView.visible_page (PricingView.dispatch e s)
     = PricingView.visible_page s.
Proof.
  intros Hreach He. pose proof (pricing_reachable_stable s Hreach) as Hst.
  rewrite pricing_dispatch.
  assert (H : PricingView.stable (PricingView.handle e s) = true
              /\ PricingView.store (PricingView.handle e s) = PricingView.store s
              /\ PricingView.filters (PricingView.handle e s) = PricingView.filters s
              /\ PricingView.page (PricingView.handle e s) = PricingView.page s).
  { destruct e; try discriminate; cbn [PricingView.handle];
      repeat match goal with
             | |- context [if ?b then _ else _] => destruct b
             end; repeat split; try exact Hst. }
  destruct H as [Hst' [Hs [Hf Hp]]]. rewrite (pricing_pass_id _ Hst').
  repeat split; try assumption.
  unfold PricingView.visible_page, PricingView.view. now rewrite Hs, Hf, Hp.
Qed.

Lemma comparison_events_frame_witness :
  PricingView.page
    (PricingView.dispatch (PricingView.ToggleSelection "CBC01") Scenarios.browsing)
  = PricingView.page Scenarios.browsing.
Proof.
  refine (proj1 (proj2 (proj2
            (comparison_events_frame Scenarios.browsing
               (PricingView.ToggleSelection "CBC01") _ eq_refl)))).
  unfold Scenarios.browsing. repeat constructor.
Defined.

Lemma totalPages_nonempty (l : list PricingEntry) : 1 <= totalPages l -> l <> [].
Proof. intros H ->. cbn in H. lia. Qed.

Lemma pricing_pager_shown (s : PricingView.State) (p : Z) :
  1 <= p <= PricingView.total_pages s ->
  PricingView.pager_shown (PricingView.with_page s p) = true.
Proof.
  intros Hp. unfold PricingView.pager_shown, PricingView.visible_page.
  change (PricingView.view (PricingView.with_page s p)) with (PricingView.view s).
  cbn [PricingView.page PricingView.with_page].
  apply negb_true_iff, not_true_iff_false. intros E. apply length_zero_iff in E.
  revert E. apply page_in_range_nonempty; [| now right].
  apply totalPages_nonempty. unfold PricingView.total_pages in Hp. lia.
Qed.

Lemma with_page_same (s : PricingView.State) :
  PricingView.with_page s (PricingView.page s) = s.
Proof. now destruct s. Qed.

(** X3. The pager of the pricing page, in a reachable state whose main
    tree is rendered.  Prev goes from a page above 1 to the page before, and
    Next brings the user back; Next goes from a page below the last to the
    page after, and Prev brings the user back.  On page 1 Prev does nothing,
    and on the last page Next does nothing. *)
Theorem pager_round_trip (s : PricingView.State) :
  PricingView.reachable s ->
  PricingView.rendered s = true ->
  (1 < PricingView.page s ->
     PricingView.page (PricingView.dispatch PricingView.Prev s)
     = PricingView.page s - 1
     /\ PricingView.dispatch PricingView.Next
          (PricingView.dispatch PricingView.Prev s) = s)
  /\ (PricingView.page s < PricingView.total_pages s ->
        PricingView.page (PricingView.dispatch PricingView.Next s)
        = PricingView.page s + 1
        /\ PricingView.dispatch PricingView.Prev
             (PricingView.dispatch PricingView.Next s) = s)
  /\ (PricingView.page s = 1 -> PricingView.dispatch PricingView.Prev s = s)
  /\ (PricingView.page s = PricingView.total_pages s ->
        PricingView.dispatch PricingView.Next s = s).
Proof.
  intros Hreach Hrend.
  pose proof (pricing_reachable_stable s Hreach) as Hst.
  pose proof (pricing_reachable_inv s Hreach) as [_ [_ [_ [_ Hpage]]]].
  assert (Hpid : forall p, PricingView.pass (PricingView.with_page s p)
                           = PricingView.with_page s p).
  { intros p. apply pricing_pass_id. exact Hst. }
  assert (Hmove : forall p q,
            PricingView.with_page (PricingView.with_page s p) q
            = PricingView.with_page s q) by reflexivity.
  assert (Hrend' : forall p, PricingView.rendered (PricingView.with_page s p) = true)
    by (intros p; exact Hrend).
  assert (Htot : forall p, PricingView.total_pages (PricingView.with_page s p)
                           = PricingView.total_pages s) by reflexivity.
  rewrite !pricing_dispatch.
  split; [| split; [| split]].
  - intros Hgt. assert (Hin : 1 <= PricingView.page s <= PricingView.total_pages s) by lia.
    assert (Hprev : PricingView.pass (PricingView.handle PricingView.Prev s)
                    = PricingView.with_page s (PricingView.page s - 1)).
    { cbn [PricingView.handle]. rewrite Hrend.
      rewrite <- (with_page_same s) at 1. rewrite pricing_pager_shown by exact Hin.
      replace (PricingView.page s =? 1) with false by (symmetry; apply Z.eqb_neq; lia).
      cbn [andb negb]. rewrite Z.max_r by lia. apply Hpid. }
    rewrite Hprev. split; [reflexivity |].
    cbn [PricingView.handle].
    rewrite Hrend', pricing_pager_shown by lia. rewrite Htot.
    cbn [PricingView.page PricingView.with_page].
    replace (PricingView.page s - 1 =? PricingView.total_pages s) with false
      by (symmetry; apply Z.eqb_neq; lia).
    cbn [andb negb]. rewrite Z.min_r by lia.
    replace (PricingView.page s - 1 + 1) with (PricingView.page s) by lia.
    change (PricingView.pass (PricingView.with_page s (PricingView.page s)) = s).
    rewrite Hpid. apply with_page_same.
  - intros Hlt.
    assert (Hone : 1 <= PricingView.page s) by lia.
    assert (Hin : 1 <= PricingView.page s <= PricingView.total_pages s) by lia.
    assert (Hnext : PricingView.pass (PricingView.handle PricingView.Next s)
                    = PricingView.with_page s (PricingView.page s + 1)).
    { cbn [PricingView.handle]. rewrite Hrend.
      rewrite <- (with_page_same s) at 1. rewrite pricing_pager_shown by exact Hin.
      replace (PricingView.page s =? PricingView.total_pages s) with false
        by (symmetry; apply Z.eqb_neq; lia).
      cbn [andb negb]. rewrite Z.min_r by lia. apply Hpid. }
    rewrite Hnext. split; [reflexivity |].
    cbn [PricingView.handle].
    rewrite Hrend', pricing_pager_shown by lia.
    cbn [PricingView.page PricingView.with_page].
    replace (PricingView.page s + 1 =? 1) with false
      by (symmetry; apply Z.eqb_neq; lia).
    cbn [andb negb]. rewrite Z.max_r by lia.
    replace (PricingView.page s + 1 - 1) with (PricingView.page s) by lia.
    change (PricingView.pass (PricingView.with_page s (PricingView.page s)) = s).
    rewrite Hpid. apply with_page_same.
  - intros H1. cbn [PricingView.handle]. rewrite H1. cbn [Z.eqb negb].
    rewrite andb_false_r. now apply pricing_pass_id.
  - intros Hlast. cbn [PricingView.handle]. rewrite Hlast, Z.eqb_refl.
    cbn [negb]. rewrite andb_false_r. now apply pricing_pass_id.
Qed.

Lemma pager_round_trip_witness :
  PricingView.dispatch PricingView.Next
    (PricingView.dispatch PricingView.Prev Scenarios.browsing)
  = Scenarios.browsing.
Proof.
  assert (Hreach : PricingView.reachable Scenarios.browsing)
    by (unfold Scenarios.browsing; repeat constructor).
  refine (proj2 (proj1 (pager_round_trip Scenarios.browsing Hreach eq_refl) _)).
  reflexivity.
Defined.

(** ** Ticking a filter value twice *)

Lemma toggleFilter_twice_in (l : list string) (x y : string) :
  In y (toggleFilter (toggleFilter l x) x) <-> In y l.
Proof.
  unfold toggleFilter at 2. destruct (arr_includes l x) eqn:E.
  - apply arr_includes_iff in E.
    assert (Hout : arr_includes (filter (fun i => negb (String.eqb i x)) l) x = false).
    { apply not_true_iff_false. rewrite arr_includes_iff, filter_In.
      intros [_ H]. now rewrite String.eqb_refl in H. }
    unfold toggleFilter. rewrite Hout, in_app_iff, filter_In. cbn [In].
    split.
    + intros [[H _] | [<- | []]]; assumption.
    + intros H. destruct (String.eqb_spec y x) as [-> | Hne]; [right; now left |].
      left. split; [exact H | reflexivity].
  - assert (Hin : arr_includes (l ++ [x]) x = true).
    { apply arr_includes_iff, in_or_app. right. now left. }
    unfold toggleFilter. rewrite Hin, filter_In, in_app_iff. cbn [In].
    apply not_true_iff_false in E. rewrite arr_includes_iff in E.
    split.
    + intros [[H | [<- | []]] Hne]; [exact H |].
      now rewrite String.eqb_refl in Hne.
    + intros H. split; [now left |]. apply negb_true_iff, String.eqb_neq.
      intros ->. contradiction.
Qed.

Lemma dimension_ext (l l' : list string) (v : string) :
  (forall y, In y l <-> In y l') ->
  (List.length l =? 0)%nat || arr_includes l v
  = (List.length l' =? 0)%nat || arr_includes l' v.
Proof.
  intros H. apply eq_true_iff_eq. rewrite !dimension_iff. unfold dimension_ok.
  assert (Hnil : l = [] <-> l' = []).
  { split; intros ->.
    - destruct l' as [|a l']; [reflexivity |].
      exfalso. apply (proj2 (H a)). now left.
    - destruct l as [|a l]; [reflexivity |].
      exfalso. apply (proj1 (H a)). now left. }
  rewrite H. tauto.
Qed.

(** X20. Ticking a value of a filter panel and unticking it again (or the
    other way round) restores the filtered view, for the departments and
    for the cities alike, although the selected list may come back in
    another order. *)
Theorem double_toggle_view :
  forall (data : list PricingEntry) (q : string) (depts cities : list string)
         (v : string),
    filteredData data q (toggleFilter (toggleFilter depts v) v) cities
    = filteredData data q depts cities
    /\ filteredData data q depts (toggleFilter (toggleFilter cities v) v)
       = filteredData data q depts cities.
Proof.
  intros data q depts cities v. unfold filteredData. split; apply filter_ext;
    intros item; unfold matchesDept, matchesCity.
  - now rewrite (dimension_ext _ depts _ (toggleFilter_twice_in depts v)).
  - now rewrite (dimension_ext _ cities _ (toggleFilter_twice_in cities v)).
Qed.

(** ** Counts add up *)

Lemma list_sum_perm (l l' : list nat) :
  Permutation l l' -> list_sum l = list_sum l'.
Proof.
  induction 1; cbn [list_sum fold_right] in *; unfold list_sum in *;
    cbn [fold_right]; lia.
Qed.

Lemma list_sum_firstn (n : nat) (l : list nat) :
  (list_sum (firstn n l) <= list_sum l)%nat.
Proof.
  revert n. induction l as [|a l IH]; intros [|n]; cbn [firstn];
    unfold list_sum in *; cbn [fold_right]; try lia.
  specialize (IH n). lia.
Qed.

Lemma indicator_sum (ks : list string) (k : string) :
  NoDup ks -> In k ks ->
  list_sum (map (fun k' => if String.eqb k k' then 1%nat else 0%nat) ks) = 1%nat.
Proof.
  induction 1 as [|a ks Ha Hnd IH]; intros Hin; [contradiction |].
  cbn [map]. unfold list_sum in *. cbn [fold_right].
  destruct (String.eqb_spec k a) as [-> | Hne].
  - assert (Hz : fold_right Nat.add 0%nat
                   (map (fun k' => if String.eqb a k' then 1%nat else 0%nat) ks)
                 = 0%nat).
    { clear -Ha. induction ks as [|b ks IH]; [reflexivity |]. cbn [map fold_right].
      destruct (String.eqb_spec a b) as [-> | _].
      - exfalso. apply Ha. now left.
      - rewrite IH; [reflexivity |]. intros H. apply Ha. now right. }
    rewrite Hz. reflexivity.
  - destruct Hin as [-> | Hin]; [contradiction |]. now rewrite IH.
Qed.

Section GroupSizes.
Context {X : Type} (key : X -> string).

Lemma group_sizes_cover (ks : list string) (l : list X) :
  NoDup ks -> (forall d, In d l -> In (key d) ks) ->
  list_sum
    (map (fun k => List.length (filter (fun d => String.eqb (key d) k) l)) ks)
  = List.length l.
Proof.
  intros Hnd. induction l as [|d l IH]; intros Hcov.
  - cbn [filter List.length]. induction ks as [|k ks IHk]; [reflexivity |].
    inversion Hnd; subst. cbn [map]. unfold list_sum in *. cbn [fold_right].
    now rewrite IHk.
  - assert (Hstep : forall k,
              List.length (filter (fun d' => String.eqb (key d') k) (d :: l))
              = ((if String.eqb (key d) k then 1 else 0)
                 + List.length (filter (fun d' => String.eqb (key d') k) l))%nat).
    { intros k. cbn [filter]. now destruct (String.eqb (key d) k). }
    rewrite (map_ext _ _ Hstep).
    assert (Hsplit : forall (f g : string -> nat) (ks' : list string),
              list_sum (map (fun k => (f k + g k)%nat) ks')
              = (list_sum (map f ks') + list_sum (map g ks'))%nat).
    { intros f g ks'. induction ks' as [|k ks' IH']; [reflexivity |].
      cbn [map]. unfold list_sum in *. cbn [fold_right]. rewrite IH'. lia. }
    rewrite Hsplit, IH by (intros d' Hd'; apply Hcov; now right).
    rewrite (indicator_sum ks (key d) Hnd) by (apply Hcov; now left).
    reflexivity.
Qed.

Lemma group_sizes_sum (l : list X) :
  list_sum
    (map (fun k => List.length (filter (fun d => String.eqb (key d) k) l))
         (first_seen (map key l)))
  = List.length l.
Proof.
  apply group_sizes_cover; [apply first_seen_nodup |].
  intros d Hd. apply first_seen_in, in_map. exact Hd.
Qed.
End GroupSizes.

(** X21. The bars of the department statistics add up.  For department
    names that are neither an array index nor the name of an inherited
    property, the counts never exceed the size of the filtered view, and
    they equal it when there are at most 15 departments. *)
Theorem deptStats_counts_total (fd : list PricingEntry) (m : AnalyticsMetrics) :
  (forall d, In d fd -> plain_key (group_key d)) ->
  analytics fd = Some m ->
  (list_sum (map stat_count (deptStats m)) <= List.length fd)%nat
  /\ ((List.length (first_seen (map group_key fd)) <= 15)%nat ->
      list_sum (map stat_count (deptStats m)) = List.length fd).
Proof.
  intros Hplain Hm.
  destruct (analytics_some fd m Hm) as [_ [_ [_ [-> _]]]].
  unfold calc_deptStats. rewrite deptMap_groups by assumption.
  rewrite slice_from_zero by lia.
  assert (Htotal : list_sum (map stat_count (sort by_count_desc (groups fd)))
                   = List.length fd).
  { rewrite (list_sum_perm _ _ (Permutation_map stat_count (sort_perm _ (groups fd)))).
    unfold groups. rewrite map_map. cbn [stat_count group_stat].
    exact (group_sizes_sum group_key fd). }
  split.
  - rewrite <- Htotal, <- firstn_map. apply list_sum_firstn.
  - intros Hfew. rewrite firstn_all2; [exact Htotal |].
    rewrite (Permutation_length (sort_perm _ (groups fd))).
    unfold groups. now rewrite length_map.
Qed.

Lemma deptStats_counts_total_witness :
  exists m, analytics catalog = Some m
            /\ list_sum (map stat_count (deptStats m)) = List.length catalog.
Proof.
  eexists. split; [reflexivity |].
  refine (proj2 (deptStats_counts_total catalog _ _ eq_refl) _).
  - intros d [<- | [<- | []]]; split; reflexivity.
  - cbn. lia.
Defined.

(** X22. The bars of the city chart add up.  For city names that are
    neither an array index nor the name of an inherited property, the
    counts never exceed the number of centers, and they equal it when there
    are at most 10 cities. *)
Theorem cityStats_counts_total (centers : list CentersView.DiagnosticCenter) :
  (forall c, In c centers -> plain_key (CentersView.city_of c)) ->
  (list_sum (map CentersView.stat_size (CentersView.cityStats centers))
   <= List.length centers)%nat
  /\ ((List.length (first_seen (map CentersView.city_of centers)) <= 10)%nat ->
      list_sum (map CentersView.stat_size (CentersView.cityStats centers))
      = List.length centers).
Proof.
  intros Hplain. rewrite (cityStats_ranked centers Hplain).
  assert (Htotal : list_sum
                     (map CentersView.stat_size
                        (sort CentersView.by_centers_desc
                           (CentersView.city_groups centers)))
                   = List.length centers).
  { rewrite (list_sum_perm _ _
               (Permutation_map CentersView.stat_size
                  (sort_perm _ (CentersView.city_groups centers)))).
    unfold CentersView.city_groups. rewrite map_map.
    exact (group_sizes_sum CentersView.city_of centers). }
  split.
  - rewrite <- Htotal, <- firstn_map. apply list_sum_firstn.
  - intros Hfew. rewrite firstn_all2; [exact Htotal |].
    rewrite (Permutation_length (sort_perm _ (CentersView.city_groups centers))).
    unfold CentersView.city_groups. now rewrite length_map.
Qed.

Lemma cityStats_counts_total_witness :
  list_sum (map CentersView.stat_size (CentersView.cityStats Network.centers))
  = List.length Network.centers.
Proof.
  refine (proj2 (cityStats_counts_total Network.centers _) _).
  - intros c [<- | [<- | [<- | [<- | []]]]]; split; reflexivity.
  - cbn. lia.
Defined.

(** ** From a center to its tests *)

Lemma nat_of_ascii_bound (c : ascii) : (nat_of_ascii c < 256)%nat.
Proof.
  destruct c as [[|] [|] [|] [|] [|] [|] [|] [|]]; cbn; lia.
Qed.

Lemma list_of_string_app (a b : string) :
  list_ascii_of_string (a ++ b) = list_ascii_of_string a ++ list_ascii_of_string b.
Proof. induction a as [|c a IH]; cbn; [reflexivity | now rewrite IH]. Qed.

Lemma hex_digit_val (n : nat) :
  (n < 16)%nat -> hex_val (Url.hex_digit n) = Some (Z.of_nat n).
Proof.
  intros H. do 16 (destruct n as [|n]; [reflexivity |]). lia.
Qed.

Lemma hex_digit_unreserved (n : nat) :
  (n < 16)%nat -> Url.unreserved (Url.hex_digit n) = true.
Proof.
  intros H. do 16 (destruct n as [|n]; [reflexivity |]). lia.
Qed.

Lemma unreserved_not_percent (c : ascii) :
  Url.unreserved c = true -> Ascii.eqb c "%" = false.
Proof.
  intros H. destruct (Ascii.eqb_spec c "%") as [-> | _]; [discriminate | reflexivity].
Qed.

Lemma escape_chars (b : ascii) :
  Forall (fun c => Url.url_char c = true) (list_ascii_of_string (Url.escape b)).
Proof.
  pose proof (nat_of_ascii_bound b) as Hb.
  unfold Url.escape. destruct (Url.unreserved b) eqn:E; cbn [list_ascii_of_string].
  - repeat constructor. unfold Url.url_char. now rewrite E.
  - repeat constructor; unfold Url.url_char.
    + rewrite hex_digit_unreserved; [reflexivity |].
      apply Nat.Div0.div_lt_upper_bound. lia.
    + rewrite hex_digit_unreserved; [reflexivity |]. apply Nat.mod_upper_bound. lia.
Qed.

Lemma encode_chars (s : string) :
  Forall (fun c => Url.url_char c = true)
    (list_ascii_of_string (Url.encodeURIComponent s)).
Proof.
  unfold Url.encodeURIComponent. induction (Url.utf8_encode s) as [|b bs IH];
    cbn [fold_right]; [constructor |].
  rewrite list_of_string_app. apply Forall_app. split; [apply escape_chars | exact IH].
Qed.

Lemma url_char_plain (c : ascii) :
  Url.url_char c = true ->
  Ascii.eqb c "#" = false /\ Ascii.eqb c "?" = false /\ Ascii.eqb c "&" = false
  /\ Ascii.eqb c "=" = false /\ Ascii.eqb c "+" = false
  /\ (nat_of_ascii c < 128)%nat.
Proof.
  intros H.
  assert (Hne : forall x, Url.url_char x = false -> Ascii.eqb c x = false).
  { intros x Hx. destruct (Ascii.eqb_spec c x) as [-> | _]; [congruence | reflexivity]. }
  repeat split; try (apply Hne; reflexivity).
  revert H. destruct c as [[|] [|] [|] [|] [|] [|] [|] [|]]; cbn; intros H;
    try lia; discriminate.
Qed.

Lemma percent_decode_escape (b : ascii) (rest : list ascii) :
  Url.percent_decode (list_ascii_of_string (Url.escape b) ++ rest)
  = b :: Url.percent_decode rest.
Proof.
  pose proof (nat_of_ascii_bound b) as Hb.
  unfold Url.escape. destruct (Url.unreserved b) eqn:E.
  - cbn [list_ascii_of_string app Url.percent_decode].
    now rewrite (unreserved_not_percent b E).
  - cbn [list_ascii_of_string app Url.percent_decode]. cbn [Ascii.eqb Bool.eqb].
    rewrite !hex_digit_val.
    + f_equal.
      replace (16 * Z.of_nat (nat_of_ascii b / 16) + Z.of_nat (nat_of_ascii b mod 16))
        with (Z.of_nat (16 * (nat_of_ascii b / 16) + nat_of_ascii b mod 16)) by lia.
      rewrite Nat2Z.id, <- (Nat.div_mod_eq (nat_of_ascii b) 16).
      apply ascii_nat_embedding.
    + apply Nat.mod_upper_bound. lia.
    + apply Nat.Div0.div_lt_upper_bound. lia.
Qed.

Lemma percent_decode_encode (s : string) :
  Url.percent_decode (list_ascii_of_string (Url.encodeURIComponent s))
  = Url.utf8_encode s.
Proof.
  unfold Url.encodeURIComponent. induction (Url.utf8_encode s) as [|b bs IH];
    cbn [fold_right]; [reflexivity |].
  now rewrite list_of_string_app, percent_decode_escape, IH.
Qed.

Lemma utf8_decode_bytes (c : ascii) (rest : list ascii) :
  Url.utf8_decode (Url.utf8_bytes c ++ rest)
  = option_map (String c) (Url.utf8_decode rest).
Proof.
  pose proof (nat_of_ascii_bound c) as Hc. unfold Url.utf8_bytes.
  destruct (Nat.ltb_spec (nat_of_ascii c) 128) as [Hlt | Hge].
  - cbn [app Url.utf8_decode].
    now replace (nat_of_ascii c <? 128)%nat with true by (symmetry; apply Nat.ltb_lt; lia).
  - assert (Hq : (nat_of_ascii c / 64 = 2 \/ nat_of_ascii c / 64 = 3)%nat).
    { assert (2 <= nat_of_ascii c / 64)%nat
        by (apply Nat.div_le_lower_bound; lia).
      assert (nat_of_ascii c / 64 < 4)%nat
        by (apply Nat.Div0.div_lt_upper_bound; lia).
      lia. }
    pose proof (Nat.mod_upper_bound (nat_of_ascii c) 64) as Hm.
    pose proof (Nat.div_mod_eq (nat_of_ascii c) 64) as Hdm.
    cbn [app Url.utf8_decode].
    rewrite !nat_ascii_embedding by lia.
    replace (192 + nat_of_ascii c / 64 <? 128)%nat with false
      by (symmetry; apply Nat.ltb_ge; lia).
    replace ((192 + nat_of_ascii c / 64 =? 194) || (192 + nat_of_ascii c / 64 =? 195))%nat
      with true
      by (symmetry; apply orb_true_iff; rewrite !Nat.eqb_eq; lia).
    replace ((128 <=? 128 + nat_of_ascii c mod 64) && (128 + nat_of_ascii c mod 64 <? 192))%nat
      with true
      by (symmetry; apply andb_true_iff; rewrite Nat.leb_le, Nat.ltb_lt; lia).
    replace ((192 + nat_of_ascii c / 64 - 192) * 64 + (128 + nat_of_ascii c mod 64 - 128))%nat
      with (nat_of_ascii c) by lia.
    now rewrite ascii_nat_embedding.
Qed.

Lemma utf8_decode_encode (s : string) :
  Url.utf8_decode (Url.utf8_encode s) = Some s.
Proof.
  unfold Url.utf8_encode. induction s as [|c s IH]; [reflexivity |].
  cbn [list_ascii_of_string flat_map]. now rewrite utf8_decode_bytes, IH.
Qed.

Lemma utf8_encode_plain (l : list ascii) :
  Forall (fun c => (nat_of_ascii c < 128)%nat) l ->
  Url.utf8_encode (string_of_list_ascii l) = l.
Proof.
  unfold Url.utf8_encode. induction 1 as [|c l Hc _ IH]; [reflexivity |].
  cbn [string_of_list_ascii list_ascii_of_string flat_map]. rewrite IH.
  unfold Url.utf8_bytes.
  now replace (nat_of_ascii c <? 128)%nat with true by (symmetry; apply Nat.ltb_lt; lia).
Qed.

Lemma split_on_none (sep : ascii) (l : list ascii) :
  Forall (fun c => Ascii.eqb c sep = false) l -> Url.split_on sep l = [l].
Proof.
  induction 1 as [|c l Hc _ IH]; [reflexivity |].
  cbn [Url.split_on]. now rewrite Hc, IH.
Qed.

Lemma plus_to_space_none (l : list ascii) :
  Forall (fun c => Ascii.eqb c "+" = false) l -> map Url.plus_to_space l = l.
Proof.
  induction 1 as [|c l Hc _ IH]; [reflexivity |].
  cbn [map]. unfold Url.plus_to_space at 1. now rewrite Hc, IH.
Qed.

Lemma before_first_none (sep : ascii) (s : string) :
  Forall (fun c => Ascii.eqb c sep = false) (list_ascii_of_string s) ->
  Url.before_first sep s = s.
Proof.
  induction s as [|c s IH]; [reflexivity |]. cbn [list_ascii_of_string].
  intros H. inversion H as [|? ? Hc Hs]; subst.
  cbn [Url.before_first]. now rewrite Hc, IH.
Qed.

Lemma center_params (code : string) :
  Url.URLSearchParams (Url.search_of (Links.handleCenterClick code))
  = [(Some "cityId"%string, Some code)].
Proof.
  pose proof (encode_chars code) as Hchars.
  set (e := Url.encodeURIComponent code) in *.
  assert (Hplain : forall c, In c (list_ascii_of_string e) ->
            Ascii.eqb c "#" = false /\ Ascii.eqb c "?" = false
            /\ Ascii.eqb c "&" = false /\ Ascii.eqb c "=" = false
            /\ Ascii.eqb c "+" = false /\ (nat_of_ascii c < 128)%nat).
  { intros c Hc. apply url_char_plain.
    rewrite Forall_forall in Hchars. now apply Hchars. }
  assert (Hsearch : Url.search_of (Links.handleCenterClick code)
                    = ("?cityId=" ++ e)%string).
  { unfold Url.search_of, Links.handleCenterClick. fold e.
    rewrite before_first_none; [reflexivity |].
    rewrite list_of_string_app. apply Forall_app. split.
    - repeat constructor.
    - apply Forall_forall. intros c Hc. apply (Hplain c Hc). }
  rewrite Hsearch. unfold Url.URLSearchParams.
  change (match ("?cityId=" ++ e)%string with
          | String c rest => if Ascii.eqb c "?" then rest else ("?cityId=" ++ e)%string
          | EmptyString => ("?cityId=" ++ e)%string
          end) with ("cityId=" ++ e)%string.
  assert (Hbytes : Url.utf8_encode ("cityId=" ++ e)
                   = list_ascii_of_string "cityId=" ++ list_ascii_of_string e).
  { rewrite <- list_of_string_app.
    rewrite <- (string_of_list_ascii_of_string ("cityId=" ++ e)) at 1.
    apply utf8_encode_plain. rewrite list_of_string_app. apply Forall_app. split.
    - repeat constructor; cbn; lia.
    - apply Forall_forall. intros c Hc. apply (Hplain c Hc). }
  rewrite Hbytes. unfold Url.parse_pairs.
  rewrite split_on_none.
  2:{ apply Forall_app. split; [repeat constructor |].
      apply Forall_forall. intros c Hc. apply (Hplain c Hc). }
  cbn [list_ascii_of_string app filter Url.is_empty negb map Url.cut_at
       Ascii.eqb Bool.eqb fst snd].
  f_equal. f_equal. unfold Url.decode_component.
  rewrite plus_to_space_none
    by (apply Forall_forall; intros c Hc; apply (Hplain c Hc)).
  subst e. now rewrite percent_decode_encode, utf8_decode_encode.
Qed.

(** X23. From a center to its tests.  Clicking a center navigates to the
    explorer with the center code as the [cityId] parameter, and the code
    arrives unchanged whatever characters it holds: the explorer starts with
    exactly that code as its city filter (and with the other filters empty),
    falling back to [GRL0001] only for the empty code. *)
Theorem center_link (code : string) :
  Url.get (Url.URLSearchParams (Url.search_of (Links.handleCenterClick code)))
    "cityId" = Url.Value code
  /\ Links.explorer_at (Links.handleCenterClick code)
     = Some (Explorer.mount code "" "" "")
  /\ (forall s, Links.explorer_at (Links.handleCenterClick code) = Some s ->
        Explorer.filters s
        = {| Explorer.query := ""; Explorer.cityId := str_or code "GRL0001";
             Explorer.department := ""; Explorer.specimen := "";
             Explorer.disease := "" |}).
Proof.
  assert (Hat : Links.explorer_at (Links.handleCenterClick code)
                = Some (Explorer.mount code "" "" "")).
  { unfold Links.explorer_at, Links.param. cbv zeta. rewrite center_params.
    reflexivity. }
  split; [| split; [exact Hat |]].
  - rewrite center_params. cbn [Url.get]. now rewrite String.eqb_refl.
  - intros s Hs. rewrite Hat in Hs. injection Hs as <-.
    unfold Explorer.mount.
    destruct (explorer_settle_store (Explorer.first_render code "" "" ""))
      as [_ [_ [_ [_ ->]]]].
    reflexivity.
Qed.

(** ** The average between the extremes *)

Lemma not_above_fin (a b : Q) : not_above (Fin a) (Fin b) <-> (a <= b)%Q.
Proof.
  unfold not_above. cbn [gt]. rewrite negb_false_iff. apply Qle_bool_iff.
Qed.

Lemma not_above_inf (x : number) : not_above x PosInf.
Proof. unfold not_above. now destruct x. Qed.

Lemma sum_with_inf (l : list number) (a : number) :
  Forall positive l -> (a = PosInf \/ exists q, a = Fin q) ->
  a = PosInf \/ In PosInf l -> fold_left add l a = PosInf.
Proof.
  intros Hl. revert a. induction Hl as [|x l Hx _ IH]; intros a Ha Hinf;
    cbn [fold_left].
  - destruct Hinf as [-> | []]. reflexivity.
  - apply IH.
    + destruct (positive_shape x Hx) as [-> | [q [-> _]]],
        Ha as [-> | [r ->]]; cbn; eauto.
    + destruct Hinf as [Ea | [Ex | Hin]].
      * left. subst a. destruct (positive_shape x Hx) as [-> | [q [-> _]]]; reflexivity.
      * left. subst x. destruct Ha as [-> | [r ->]]; reflexivity.
      * now right.
Qed.

Lemma sum_bounds (l : list number) (a lo hi : Q) :
  Forall (fun x => exists q, x = Fin q /\ (lo <= q)%Q /\ (q <= hi)%Q) l ->
  exists s,
    fold_left add l (Fin a) = Fin s
    /\ (a + inject_Z (Z.of_nat (List.length l)) * lo <= s)%Q
    /\ (s <= a + inject_Z (Z.of_nat (List.length l)) * hi)%Q.
Proof.
  intros Hl. revert a. induction Hl as [|x l [q [-> [Hlo Hhi]]] _ IH]; intros a.
  - exists a. split; [reflexivity |]. cbn [List.length Z.of_nat].
    change (inject_Z 0) with 0%Q. split; lra.
  - cbn [fold_left add]. destruct (IH (Qred (a + q))) as [s [E [H1 H2]]].
    exists s. split; [exact E |].
    rewrite (Qred_correct (a + q)) in H1, H2.
    assert (En : (inject_Z (Z.of_nat (List.length (Fin q :: l)))
                  == inject_Z (Z.of_nat (List.length l)) + 1)%Q).
    { cbn [List.length]. rewrite Nat2Z.inj_succ, <- Z.add_1_r, inject_Z_plus.
      reflexivity. }
    rewrite En. split; nra.
Qed.



(** ** Prices written as decimal numerals *)

Lemma span_digits_point (ds : list Z) (r : string) :
  Forall is_digit ds ->
  span_digits (string_of_digits ds ++ String "." r) = (ds, String "."%char r).
Proof.
  induction 1 as [|d ds Hd _ IH]; [reflexivity |].
  cbn [string_of_digits fold_right append span_digits].
  fold (string_of_digits ds). now rewrite (digit_val_chr d Hd), IH.
Qed.

Lemma digit_chr_not_I (d : Z) :
  is_digit d -> Ascii.eqb "I" (digit_chr d) = false.
Proof. intros H. each_digit H. Qed.

Lemma parseFloat_digits_head (d : Z) (rest : string) :
  is_digit d ->
  parseFloat (String (digit_chr d) rest)
  = match unsigned_literal (String (digit_chr d) rest) with
    | Some v => v
    | None => NaN
    end.
Proof.
  intros Hd. unfold parseFloat. cbn [trimStart]. rewrite (digit_chr_not_ws d Hd).
  cbn [split_sign].
  pose proof (digit_chr_not_sign d Hd) as Hs. apply orb_false_iff in Hs as [-> ->].
  now destruct (unsigned_literal (String (digit_chr d) rest)).
Qed.

Lemma or_else_zero (q : Q) :
  exists q', or_else (Fin q) (of_Z 0) = Fin q' /\ (q' == q)%Q.
Proof.
  unfold or_else, truthy. destruct (Z.eqb_spec (Qnum q) 0) as [E | _]; cbn [negb].
  - exists (inject_Z 0). split; [reflexivity |].
    unfold Qeq. cbn. rewrite E. reflexivity.
  - exists q. split; [reflexivity | apply Qeq_refl].
Qed.



(** ** PricingIntelligence: the first display *)

Lemma pricing_waiting_pass (s : PricingView.State) :
  PricingMore.waiting s -> PricingMore.waiting (PricingView.pass s).
Proof.
  unfold PricingMore.waiting, PricingView.pass.
  destruct (PricingView.stable s); [trivial |]. cbn. intros H Hp.
  destruct (H Hp) as [Hl [Hq [Hd [Hc _]]]]. now repeat split.
Qed.

Lemma pricing_waiting_handle (e : PricingView.Event) (s : PricingView.State) :
  PricingMore.waiting s -> PricingMore.waiting (PricingView.handle e s).
Proof.
  intros H. unfold PricingMore.waiting in *.
  destruct (PricingView.pending (PricingView.store s)) eqn:Hp.
  - destruct (H eq_refl) as [Hl _].
    assert (Hr : PricingView.rendered s = false).
    { unfold PricingView.rendered. rewrite Hl. cbn [negb].
      now rewrite andb_false_r. }
    destruct e; cbn [PricingView.handle]; rewrite ?Hr, ?Hp; cbn [andb];
      rewrite ?Hp; try exact H.
    destruct o; cbn; discriminate.
  - assert (Hp' : PricingView.pending (PricingView.store (PricingView.handle e s))
                  = false).
    { destruct e; cbn [PricingView.handle]; rewrite ?Hp;
        repeat match goal with
               | |- context [if ?b then _ else _] => destruct b
               end; cbn; first [exact Hp | reflexivity]. }
    rewrite Hp'. discriminate.
Qed.

Lemma pricing_waiting_mount : PricingMore.waiting PricingView.mount.
Proof. intros _. now repeat split. Qed.

Lemma pricing_reachable_waiting (s : PricingView.State) :
  PricingView.reachable s -> PricingMore.waiting s.
Proof.
  induction 1 as [|s e _ IH]; [apply pricing_waiting_mount |].
  rewrite pricing_dispatch. now apply pricing_waiting_pass, pricing_waiting_handle.
Qed.

(** X26. The first display of the pricing page.  While the fetch is pending
    nothing can be edited, so when the records arrive (the page still
    mounted) the main tree is rendered with no error, the view is the whole
    response, and the user sees its first 15 records on page 1. *)
Theorem first_display (s : PricingView.State) (body : list PricingEntry) :
  PricingView.reachable s ->
  PricingView.pending (PricingView.store s) = true ->
  PricingView.aborted (PricingView.store s) = false ->
  PricingView.rendered
    (PricingView.dispatch (PricingView.Settle (PricingView.Resolved body)) s) = true
  /\ PricingView.view
       (PricingView.dispatch (PricingView.Settle (PricingView.Resolved body)) s)
     = body
  /\ PricingView.page
       (PricingView.dispatch (PricingView.Settle (PricingView.Resolved body)) s) = 1
  /\ PricingView.visible_page
       (PricingView.dispatch (PricingView.Settle (PricingView.Resolved body)) s)
     = firstn 15 body.
Proof.
  intros Hreach Hp Ha.
  destruct (pricing_reachable_waiting s Hreach Hp) as [_ [Hq [Hd [Hc Hpage]]]].
  pose proof (pricing_reachable_stable s Hreach) as Hst.
  rewrite pricing_dispatch. cbn [PricingView.handle]. rewrite Hp.
  assert (Hst' : PricingView.stable
                   (PricingView.with_store s
                      (PricingView.settle_fetch (PricingView.store s)
                         (PricingView.Resolved body))) = true) by exact Hst.
  rewrite (pricing_pass_id _ Hst').
  assert (Hview : PricingView.view
                    (PricingView.with_store s
                       (PricingView.settle_fetch (PricingView.store s)
                          (PricingView.Resolved body))) = body).
  { unfold PricingView.view. cbn. rewrite Hq, Hd, Hc.
    apply filter_all. intros x _.
    unfold matchesSearch, matchesDept, matchesCity. cbn [toLowerCase].
    now rewrite !includes_empty. }
  split; [| split; [exact Hview | split; [exact Hpage |]]].
  - unfold PricingView.rendered. cbn. now rewrite Ha.
  - unfold PricingView.visible_page. rewrite Hview.
    cbn [PricingView.page PricingView.with_store]. rewrite Hpage.
    unfold paginatedResults, ITEMS_PER_PAGE.
    exact (slice_from_zero body 15 ltac:(lia)).
Qed.

Lemma first_display_witness :
  PricingView.visible_page
    (PricingView.dispatch (PricingView.Settle (PricingView.Resolved two_pages))
       PricingView.mount)
  = firstn 15 two_pages.
Proof.
  refine (proj2 (proj2 (proj2
            (first_display PricingView.mount two_pages PricingView.reach_mount
               eq_refl eq_refl)))).
Defined.
